(** * proxmox-api-go: the QEMU configuration codec and orchestrator

    A shallow embedding of [proxmox/config_qemu.go] (the revision with the
    [QemuDevices] tables, action modes and MAC generation) and the
    properties of its device codec, legacy normaliser, MAC generator and
    create / clone / update / read-back flows.

    Go values are modelled as follows:
    - [int] is a [Z] in the 64-bit two's complement range, arithmetic
      wraps through [wrap64];
    - [string] is a Rocq [string] (a sequence of bytes);
    - [interface{}] is the closed union [iface];
    - [map[string]interface{}] and [map[int]map[string]interface{}] are
      reference types: the maps live in a store and are named by
      locations, [None] being the nil map;
    - a run-time panic and [log.Fatal] are outcomes of the [M] monad. *)

From Stdlib Require Import ZArith Lia List Ascii String.
From Stdlib.Strings Require Import Byte.
From stdpp Require Import base gmap strings list fin_maps pretty sorting.

Open Scope Z_scope.
Open Scope string_scope.

(** ** Machine integers *)

Definition min_int64 : Z := - 2 ^ 63.
Definition max_int64 : Z := 2 ^ 63 - 1.

(** Two's complement wrap-around of a 64-bit [int]. *)
Definition wrap64 (z : Z) : Z := (z + 2 ^ 63) mod 2 ^ 64 - 2 ^ 63.

Definition in_int64 (z : Z) : Prop := min_int64 <= z <= max_int64.

(** ** package strings *)

(** [strings.Split(s, sep)] for a one-byte separator, which is what every
    call site passes ([","], ["="], [":"]). [cur] is the segment being
    read, oldest byte first. *)
Fixpoint Split_from (cur : string) (s : string) (sep : ascii) : list string :=
  match s with
  | EmptyString => [cur]
  | String c s' =>
      if Ascii.eqb c sep then cur :: Split_from "" s' sep
      else Split_from (cur +:+ String c "") s' sep
  end.

Definition strings_Split (s : string) (sep : ascii) : list string :=
  Split_from "" s sep.

(** [strings.Join(elems, sep)]. *)
Fixpoint strings_Join (elems : list string) (sep : string) : string :=
  match elems with
  | [] => ""
  | [e] => e
  | e :: rest => e +:+ sep +:+ strings_Join rest sep
  end.

Fixpoint char_in (c : ascii) (cutset : string) : bool :=
  match cutset with
  | EmptyString => false
  | String d cutset' => Ascii.eqb c d || char_in c cutset'
  end.

Fixpoint TrimLeft (s cutset : string) : string :=
  match s with
  | EmptyString => ""
  | String c s' => if char_in c cutset then TrimLeft s' cutset else s
  end.

Fixpoint TrimRight (s cutset : string) : string :=
  match s with
  | EmptyString => ""
  | String c s' =>
      match TrimRight s' cutset with
      | EmptyString => if char_in c cutset then "" else String c ""
      | t => String c t
      end
  end.

(** [strings.Trim(s, cutset)]: leading and trailing bytes of [cutset]
    removed. *)
Definition strings_Trim (s cutset : string) : string :=
  TrimRight (TrimLeft s cutset) cutset.

(** [strings.Contains(s, substr)]; [regexp.MatchString] with a pattern
    that is an alternation of literals is a disjunction of these. *)
Fixpoint strings_Contains (s substr : string) : bool :=
  String.prefix substr s ||
  match s with
  | EmptyString => false
  | String _ s' => strings_Contains s' substr
  end.

(** [strings.ToUpper] on the ASCII range. *)
Definition upper_ascii (c : ascii) : ascii :=
  let n := N_of_ascii c in
  if ((97 <=? n) && (n <=? 122))%N then ascii_of_N (n - 32) else c.

Fixpoint strings_ToUpper (s : string) : string :=
  match s with
  | EmptyString => ""
  | String c s' => String (upper_ascii c) (strings_ToUpper s')
  end.

(** ** package strconv *)

Definition strconv_Itoa (i : Z) : string := pretty i.

Definition digit_of (c : ascii) : option Z :=
  let n := Z.of_N (N_of_ascii c) in
  if ((48 <=? n) && (n <=? 57))%Z then Some (n - 48) else None.

Fixpoint parse_digits (s : string) (acc : Z) : option Z :=
  match s with
  | EmptyString => Some acc
  | String c s' =>
      match digit_of c with
      | Some d => parse_digits s' (10 * acc + d)
      | None => None
      end
  end.

(** [strconv.ParseInt(s, 10, 64)]: an optional sign, then one or more
    decimal digits, the value within the 64-bit range; [None] is any
    error (syntax or range). *)
Definition strconv_ParseInt (s : string) : option Z :=
  match s with
  | EmptyString => None
  | String c s' =>
      let '(neg, body) :=
        if Ascii.eqb c "+" then (false, s')
        else if Ascii.eqb c "-" then (true, s')
        else (false, s) in
      match body with
      | EmptyString => None
      | _ =>
          match parse_digits body 0 with
          | Some n =>
              let v := if neg : bool then - n else n in
              if ((min_int64 <=? v) && (v <=? max_int64))%Z then Some v else None
          | None => None
          end
      end
  end.

Definition ParseBool_true : list string :=
  ["1"; "t"; "T"; "TRUE"; "true"; "True"].
Definition ParseBool_false : list string :=
  ["0"; "f"; "F"; "FALSE"; "false"; "False"].

(** [strconv.ParseBool]. *)
Definition strconv_ParseBool (s : string) : option bool :=
  if bool_decide (s ∈ ParseBool_true) then Some true
  else if bool_decide (s ∈ ParseBool_false) then Some false
  else None.

(** [strconv.Atoi]: the value returned and whether the error is nil. A
    syntax error returns 0, a range error the nearest bound. *)
Definition strconv_Atoi (s : string) : Z * bool :=
  match s with
  | EmptyString => (0, false)
  | String c s' =>
      let '(neg, body) :=
        if Ascii.eqb c "+" then (false, s')
        else if Ascii.eqb c "-" then (true, s')
        else (false, s) in
      match body with
      | EmptyString => (0, false)
      | _ =>
          match parse_digits body 0 with
          | Some n =>
              let v := if neg : bool then - n else n in
              if (v <? min_int64)%Z then (min_int64, false)
              else if (max_int64 <? v)%Z then (max_int64, false)
              else (v, true)
          | None => (0, false)
          end
      end
  end.

(** ** package regexp: the five patterns of the file *)

Definition is_digit (c : ascii) : bool :=
  let n := N_of_ascii c in ((48 <=? n) && (n <=? 57))%N.

Fixpoint take_while (f : ascii -> bool) (s : string) : string :=
  match s with
  | EmptyString => ""
  | String c s' => if f c then String c (take_while f s') else ""
  end.

Fixpoint skip (n : nat) (s : string) : string :=
  match n, s with
  | S n', String _ s' => skip n' s'
  | _, _ => s
  end.

(** [FindStringSubmatch] for [lit\d+]: the leftmost place where [lit] is
    followed by a digit, with all the digits that follow. *)
Fixpoint find_lit_digits (lit k : string) : list string :=
  let here :=
    if String.prefix lit k
    then take_while is_digit (skip (String.length lit) k)
    else "" in
  match here with
  | String _ _ => [lit +:+ here]
  | EmptyString =>
      match k with
      | EmptyString => []
      | String _ k' => find_lit_digits lit k'
      end
  end.

(** [FindStringSubmatch] for [\d+] and [\D+]: the first maximal run. *)
Fixpoint find_run (f : ascii -> bool) (s : string) : list string :=
  match s with
  | EmptyString => []
  | String c s' => if f c then [String c (take_while f s')] else find_run f s'
  end.

(** [(.*?),media] anchored at the start of [s]: the shortest text without
    a newline that is followed by [,media]. *)
Fixpoint rxIso_at (s : string) : option string :=
  if String.prefix ",media" s then Some ""
  else
    match s with
    | EmptyString => None
    | String c s' =>
        if Ascii.eqb c "010"%char then None
        else option_map (String c) (rxIso_at s')
    end.

(** [rxIso.FindStringSubmatch]: the match and its group. *)
Fixpoint rxIso_FindStringSubmatch (s : string) : list string :=
  match rxIso_at s with
  | Some g => [g +:+ ",media"; g]
  | None =>
      match s with
      | EmptyString => []
      | String _ s' => rxIso_FindStringSubmatch s'
      end
  end.

(** ** package net: [HardwareAddr.String] *)

Definition hexDigit (n : N) : ascii :=
  match String.get (N.to_nat n) "0123456789abcdef" with
  | Some c => c
  | None => "0"%char
  end.

Definition hex_byte (b : byte) : string :=
  let n := Byte.to_N b in
  String (hexDigit (N.shiftr n 4)) (String (hexDigit (N.land n 15)) "").

Fixpoint HardwareAddr_String (a : list byte) : string :=
  match a with
  | [] => ""
  | [b] => hex_byte b
  | b :: rest => hex_byte b +:+ ":" +:+ HardwareAddr_String rest
  end.

(** ** util.go *)

Fixpoint inArray (arr : list string) (str : string) : bool :=
  match arr with
  | [] => false
  | elem :: arr' => if String.eqb elem str then true else inArray arr' str
  end.


(** ** Collaborators outside the repository *)

(** Go's [float64]. The code only stores such values (the zero value
    among them), prints them with [%v] and truncates them with [int(f)];
    these are kept abstract. *)
Class Float64 := {
  float64 : Type;
  zero_float64 : float64;
  fmt_float64 : float64 -> string;
  int_of_float64 : float64 -> Z
}.

(** The process-wide source of [math/rand]: [rand.Seed] installs the state
    derived from the seed, [rand.Read] draws bytes from it. *)
Class RandSource := {
  RngState : Type;
  rng_seed : Z -> RngState;
  rng_byte : RngState -> byte * RngState
}.

(** The order in which a [range] statement visits a map is not specified
    by Go. The [n]-th [range] executed in a run visits the keys by
    increasing rank (ties in the order of the store); every order of the
    keys is the order of some ranking ([by_rank_complete]). *)
Class MapOrder := {
  key_rank : nat -> string -> nat;
  index_rank : nat -> Z -> nat
}.

(** [Itob] of util.go, which is not among the sources, and
    [strings.TrimSpace], whose notion of white space is Unicode's. *)
Class Util := {
  Itob : Z -> bool;
  strings_TrimSpace : string -> string
}.

(** A Go [error], identified by its message. *)
Definition error := string.

(** Modelled from the spec: the VM reference type is declared with the API
    client, which is not among the sources; these are the fields that
    config_qemu.go reads and sets. *)
Record VmRef := mkVmRef {
  vmId : Z;
  node : string;
  vmType : string
}.

Definition loc := positive.

Section Model.

Context {F64 : Float64} {RS : RandSource} {MO : MapOrder} {U : Util}.

(** ** Values *)

(** The dynamic values held in a device descriptor, a parameter map or a
    configuration returned by the API: nil, booleans, [int]s, [float64]s
    (what a JSON number decodes to) and strings. JSON arrays and objects
    as values are not modelled. *)
Inductive iface : Type :=
| INil
| IBool (b : bool)
| IInt (i : Z)
| IFloat (f : float64)
| IStr (s : string).

(** [type QemuDevice map[string]interface{}]: the contents of one map. *)
Definition QemuDevice : Type := gmap string iface.

(** [type QemuDevices map[int]map[string]interface{}]: the contents of a
    device table; an entry is a reference to a descriptor, possibly nil. *)
Definition QemuDevices : Type := gmap Z (option loc).

(** [type QemuDeviceParam []string]. *)
Definition QemuDeviceParam : Type := list string.

Record ConfigQemu := mkConfigQemu {
  Name : string;
  Description : string;
  Onboot : bool;
  Memory : Z;
  Storage : string;
  QemuOs : string;
  QemuCores : Z;
  QemuSockets : Z;
  QemuIso : string;
  QemuDisks : option loc;
  QemuNetworks : option loc;
  FullClone : option Z;
  (* Deprecated. *)
  QemuNicModel : string;
  QemuBrige : string;
  QemuVlanTag : Z;
  DiskSize : float64
}.

(** [fmt]'s [%v]. *)
Definition fmtV (v : iface) : string :=
  match v with
  | INil => "<nil>"
  | IBool true => "true"
  | IBool false => "false"
  | IInt i => strconv_Itoa i
  | IFloat f => fmt_float64 f
  | IStr s => s
  end.

Definition type_name (v : iface) : string :=
  match v with
  | INil => "nil"
  | IBool _ => "bool"
  | IInt _ => "int"
  | IFloat _ => "float64"
  | IStr _ => "string"
  end.

(** ** The API client *)

(** The remote client: each call receives the current contents of the
    maps and references it is passed and answers from its own state. *)
Class ApiClient := {
  ClientState : Type;
  client_CreateQemuVm :
    string -> gmap string iface -> ClientState -> option error * ClientState;
  client_CloneQemuVm :
    VmRef -> gmap string iface -> ClientState -> option error * ClientState;
  client_SetVmConfig :
    VmRef -> gmap string iface -> ClientState -> option error * ClientState;
  client_GetVmConfig :
    VmRef -> ClientState -> (gmap string iface * option error) * ClientState
}.

Context {AC : ApiClient}.

(** What a run does to the outside: API calls and sleeps, oldest first. *)
Inductive Event : Type :=
| EvCreateQemuVm (node : string) (params : gmap string iface)
| EvCloneQemuVm (source : VmRef) (params : gmap string iface)
| EvSetVmConfig (vmr : VmRef) (params : gmap string iface)
| EvGetVmConfig (vmr : VmRef)
| EvSleep (seconds : Z).

(** ** The store and the monad *)

Record World := mkWorld {
  w_maps : gmap loc (gmap string iface);
  w_tables : gmap loc (gmap Z (option loc));
  w_vmrefs : gmap loc VmRef;
  w_rand : RngState;
  w_client : ClientState;
  w_trace : list Event;
  w_ranges : nat
}.

Inductive outcome (A : Type) : Type :=
| Done (a : A)
| Panic (msg : string)
| Exit (code : Z).

Arguments Done {A} a.
Arguments Panic {A} msg.
Arguments Exit {A} code.

Definition M (A : Type) : Type := World -> outcome A * World.

Definition ret {A} (a : A) : M A := fun w => (Done a, w).

Definition bind {A B} (m : M A) (k : A -> M B) : M B :=
  fun w =>
    match m w with
    | (Done a, w') => k a w'
    | (Panic msg, w') => (Panic msg, w')
    | (Exit code, w') => (Exit code, w')
    end.

Definition panic {A} (msg : string) : M A := fun w => (Panic msg, w).

Definition log_Fatal {A} : M A := fun w => (Exit 1, w).

Notation "'do' x <- m ; k" := (bind m (fun x => k))
  (at level 10, x pattern, m at level 100, k at level 200).

Fixpoint forM {A} (l : list A) (body : A -> M unit) : M unit :=
  match l with
  | [] => ret tt
  | x :: l' => do _ <- body x; forM l' body
  end.

Definition set_maps (f : gmap loc (gmap string iface) -> gmap loc (gmap string iface))
    (w : World) : World :=
  mkWorld (f (w_maps w)) (w_tables w) (w_vmrefs w) (w_rand w) (w_client w)
          (w_trace w) (w_ranges w).

Definition set_tables (f : gmap loc (gmap Z (option loc)) -> gmap loc (gmap Z (option loc)))
    (w : World) : World :=
  mkWorld (w_maps w) (f (w_tables w)) (w_vmrefs w) (w_rand w) (w_client w)
          (w_trace w) (w_ranges w).

Definition set_vmrefs (f : gmap loc VmRef -> gmap loc VmRef) (w : World) : World :=
  mkWorld (w_maps w) (w_tables w) (f (w_vmrefs w)) (w_rand w) (w_client w)
          (w_trace w) (w_ranges w).

Definition set_rand (r : RngState) (w : World) : World :=
  mkWorld (w_maps w) (w_tables w) (w_vmrefs w) r (w_client w)
          (w_trace w) (w_ranges w).

Definition set_client (c : ClientState) (w : World) : World :=
  mkWorld (w_maps w) (w_tables w) (w_vmrefs w) (w_rand w) c
          (w_trace w) (w_ranges w).

Definition log_event (e : Event) (w : World) : World :=
  mkWorld (w_maps w) (w_tables w) (w_vmrefs w) (w_rand w) (w_client w)
          (w_trace w ++ [e])%list (w_ranges w).

Definition next_range (w : World) : World :=
  mkWorld (w_maps w) (w_tables w) (w_vmrefs w) (w_rand w) (w_client w)
          (w_trace w) (S (w_ranges w)).

(** *** Maps *)

(** The contents of the map a reference denotes; the nil map reads as the
    empty map. *)
Definition map_of (w : World) (r : option loc) : gmap string iface :=
  match r with
  | Some l => default ∅ (w_maps w !! l)
  | None => ∅
  end.

Definition table_of (w : World) (r : option loc) : gmap Z (option loc) :=
  match r with
  | Some l => default ∅ (w_tables w !! l)
  | None => ∅
  end.

(** [m[key]] as an expression: the zero value [nil] when the key is
    absent. *)
Definition attr (m : gmap string iface) (key : string) : iface :=
  default INil (m !! key).

Definition map_index (r : option loc) (key : string) : M iface :=
  fun w => (Done (attr (map_of w r) key), w).

Definition nil_map_msg : string := "assignment to entry in nil map".

(** The store after [m[key] = v] on the map at [l]. *)
Definition assigned (l : loc) (key : string) (v : iface) (w : World) : World :=
  set_maps (fun h => <[l := <[key := v]> (map_of w (Some l))]> h) w.

(** [m[key] = v]. *)
Definition map_assign (r : option loc) (key : string) (v : iface) : M unit :=
  fun w =>
    match r with
    | Some l => (Done tt, assigned l key v w)
    | None => (Panic nil_map_msg, w)
    end.

(** A map literal: a fresh map. *)
Definition make_map (m : gmap string iface) : M (option loc) :=
  fun w =>
    let l := fresh (dom (w_maps w)) in
    (Done (Some l), set_maps (fun h => <[l := m]> h) w).

Definition make_table (t : gmap Z (option loc)) : M (option loc) :=
  fun w =>
    let l := fresh (dom (w_tables w)) in
    (Done (Some l), set_tables (fun h => <[l := t]> h) w).

Definition table_len (r : option loc) : M nat :=
  fun w => (Done (size (table_of w r)), w).

Definition table_assign (r : option loc) (index : Z) (d : option loc) : M unit :=
  fun w =>
    match r with
    | Some l => (Done tt, set_tables (fun h => <[l := <[index := d]> (table_of w r)]> h) w)
    | None => (Panic nil_map_msg, w)
    end.

(** The position of a key in a list of keys, and the order of the entries
    that a ranking of the keys induces. *)
Fixpoint position {K} `{EqDecision K} (ks : list K) (k : K) : nat :=
  match ks with
  | [] => O
  | k' :: ks' => if decide (k = k') then O else S (position ks' k)
  end.

Definition by_rank_le {K V} (rank : K -> nat) : relation (K * V) :=
  fun a b => (rank a.1 <= rank b.1)%nat.

(** The entries of a map in the order given by a ranking of the keys. *)
Definition by_rank {K V} (rank : K -> nat) (entries : list (K * V)) : list (K * V) :=
  merge_sort (fun a b => (rank a.1 <= rank b.1)%nat)
             (H := fun a b => decide (rank a.1 <= rank b.1)%nat) entries.

(** [for key, value := range m]: the entries that the loop visits. *)
Definition range_entries (m : gmap string iface) : M (list (string * iface)) :=
  fun w => (Done (by_rank (key_rank (w_ranges w)) (map_to_list m)), next_range w).

Definition range_map (r : option loc) : M (list (string * iface)) :=
  fun w => range_entries (map_of w r) w.

Definition range_table (r : option loc) : M (list (Z * option loc)) :=
  fun w =>
    (Done (by_rank (index_rank (w_ranges w)) (map_to_list (table_of w r))), next_range w).

(** [v.(string)], the one-result form: a panic unless [v] holds a string. *)
Definition assert_string (v : iface) : M string :=
  match v with
  | IStr s => ret s
  | _ => panic ("interface conversion: interface {} is " +:+ type_name v +:+ ", not string")
  end.

Definition assert_float64 (v : iface) : M float64 :=
  match v with
  | IFloat f => ret f
  | _ => panic ("interface conversion: interface {} is " +:+ type_name v +:+ ", not float64")
  end.

Definition index_1_of_1 : string := "index out of range [1] with length 1".

Definition index_out_of_range {A} (i n : nat) : M A :=
  panic ("index out of range [" +:+ pretty i +:+ "] with length " +:+ pretty n).

(** [s[i]] on a slice. *)
Definition slice_index {A} (s : list A) (i : nat) : M A :=
  match s !! i with
  | Some x => ret x
  | None => index_out_of_range i (length s)
  end.

(** *** VM references *)

Definition nil_deref_msg : string := "invalid memory address or nil pointer dereference".

Definition deref_vmr (vmr : option loc) : M VmRef :=
  fun w =>
    match vmr ≫= (fun l => w_vmrefs w !! l) with
    | Some v => (Done v, w)
    | None => (Panic nil_deref_msg, w)
    end.

(** [vmr.SetVmType(t)]. *)
Definition SetVmType (vmr : option loc) (t : string) : M unit :=
  do v <- deref_vmr vmr;
  fun w =>
    match vmr with
    | Some l => (Done tt, set_vmrefs (fun h => <[l := mkVmRef (vmId v) (node v) t]> h) w)
    | None => (Panic nil_deref_msg, w)
    end.

(** *** math/rand and time *)

Definition rand_Seed (seed : Z) : M unit :=
  fun w => (Done tt, set_rand (rng_seed seed) w).

Fixpoint draw (n : nat) (r : RngState) : list byte * RngState :=
  match n with
  | O => ([], r)
  | S n' => let '(b, r') := rng_byte r in
            let '(bs, r'') := draw n' r' in (b :: bs, r'')
  end.

(** [rand.Read(p)] on a slice of length [n]. *)
Definition rand_Read (n : nat) : M (list byte) :=
  fun w => let '(bs, r) := draw n (w_rand w) in (Done bs, set_rand r w).

Definition time_Sleep (seconds : Z) : M unit :=
  fun w => (Done tt, log_event (EvSleep seconds) w).

(** *** Calls of the API client *)

Definition call_CreateQemuVm (node : string) (params : option loc) : M (option error) :=
  fun w =>
    let p := map_of w params in
    let '(err, c) := client_CreateQemuVm node p (w_client w) in
    (Done err, set_client c (log_event (EvCreateQemuVm node p) w)).

Definition call_CloneQemuVm (sourceVmr : option loc) (params : option loc) : M (option error) :=
  do src <- deref_vmr sourceVmr;
  fun w =>
    let p := map_of w params in
    let '(err, c) := client_CloneQemuVm src p (w_client w) in
    (Done err, set_client c (log_event (EvCloneQemuVm src p) w)).

Definition call_SetVmConfig (vmr : option loc) (params : option loc) : M (option error) :=
  do v <- deref_vmr vmr;
  fun w =>
    let p := map_of w params in
    let '(err, c) := client_SetVmConfig v p (w_client w) in
    (Done err, set_client c (log_event (EvSetVmConfig v p) w)).

Definition call_GetVmConfig (vmr : option loc) : M (gmap string iface * option error) :=
  do v <- deref_vmr vmr;
  fun w =>
    let '(res, c) := client_GetVmConfig v (w_client w) in
    (Done res, set_client c (log_event (EvGetVmConfig v) w)).

(** ** The device codec *)

(** *** Encoding: the generic attribute pass *)

(** The value that [createDeviceParam] prints for an attribute, [INil]
    when the attribute is left out. *)
Definition confValue (value : iface) : iface :=
  match value with
  | IBool true => IStr "1"
  | IStr sValue => if (0 <? String.length sValue)%nat then IStr sValue else INil
  | IInt iValue => if (0 <? iValue)%Z then IInt iValue else INil
  | _ => INil
  end.

(** One iteration of the loop of [createDeviceParam]. *)
Definition createDeviceParam_step (ignoredKeys : list string)
    (p : QemuDeviceParam) (entry : string * iface) : QemuDeviceParam :=
  let '(key, value) := entry in
  if inArray ignoredKeys key then p
  else
    match confValue value with
    | INil => p
    | cv => (p ++ [key +:+ "=" +:+ fmtV cv])%list
    end.

(** The loop of [createDeviceParam] over the entries in visiting order. *)
Definition createDeviceParam_entries (p : QemuDeviceParam)
    (entries : list (string * iface)) (ignoredKeys : list string) : QemuDeviceParam :=
  fold_left (createDeviceParam_step ignoredKeys) entries p.

Definition createDeviceParam (p : QemuDeviceParam) (deviceConfMap : option loc)
    (ignoredKeys : list string) : M QemuDeviceParam :=
  do entries <- range_map deviceConfMap;
  ret (createDeviceParam_entries p entries ignoredKeys).

(** *** Decoding *)

(** The type given to the value of a [key=value] segment. *)
Definition coerce (value : string) : iface :=
  match strconv_ParseInt value with
  | Some iValue => IInt iValue
  | None =>
      match strconv_ParseBool value with
      | Some bValue => IBool bValue
      | None => IStr value
      end
  end.

(** One iteration of the loop of [readDeviceConfig] (the earlier revision
    names the function [updateDeviceConfig]; the body is the same). *)
Definition readDeviceConfig_step (confMap : option loc) (confs : string) : M unit :=
  let conf := strings_Split confs "=" in
  do key <- slice_index conf 0;
  do value <- slice_index conf 1;
  map_assign confMap key (coerce value).

Definition readDeviceConfig (confMap : option loc) (confList : list string) : M (option error) :=
  do _ <- forM confList (readDeviceConfig_step confMap);
  ret None.

(** *** Encoding network interfaces *)

Definition nic_ignoredKeys : list string := ["id"; "bridge"; "macaddr"].

(** The body of the loop of [CreateQemuNetworksParams]. *)
Definition CreateQemuNetworksParams_body (vmID : Z) (params : option loc)
    (entry : Z * option loc) : M unit :=
  let '(nicID, nicConfMap) := entry in
  let qemuNicName := "net" +:+ strconv_Itoa nicID in
  do macV <- map_index nicConfMap "macaddr";
  do mac <- assert_string macV;
  do nicConfParam <-
    (if String.eqb mac "" then
       do _ <- rand_Seed (wrap64 (vmID + nicID));
       do macaddr <- rand_Read 6;
       let macAddrUppr := strings_ToUpper (HardwareAddr_String macaddr) in
       let macAddr := "macaddr=" +:+ macAddrUppr in
       do _ <- map_assign nicConfMap "macaddr" (IStr macAddrUppr);
       ret [macAddr]
     else
       ret ["macaddr=" +:+ mac]);
  do bridgeV <- map_index nicConfMap "bridge";
  do bridge <- assert_string bridgeV;
  let nicConfParam :=
    if String.eqb bridge "nat" then nicConfParam
    else (nicConfParam ++ ["bridge=" +:+ fmtV bridgeV])%list in
  do nicConfParam <- createDeviceParam nicConfParam nicConfMap nic_ignoredKeys;
  map_assign params qemuNicName (IStr (strings_Join nicConfParam ",")).

(** The deprecated single-NIC fields as a descriptor. *)
Definition deprecated_nic (c : ConfigQemu) : QemuDevice :=
  let m : QemuDevice :=
    <["type" := IStr (QemuNicModel c)]> (<["bridge" := IStr (QemuBrige c)]> ∅) in
  if (0 <? QemuVlanTag c)%Z
  then <["tag" := IStr (strconv_Itoa (QemuVlanTag c))]> m
  else m.

Definition CreateQemuNetworksParams (c : ConfigQemu) (vmID : Z) (params : option loc)
    : M (option error) :=
  do n <- table_len (QemuNetworks c);
  do _ <-
    (if (n =? 0)%nat && (0 <? String.length (QemuNicModel c))%nat then
       do deprecatedStyleMap <- make_map (deprecated_nic c);
       table_assign (QemuNetworks c) 0 deprecatedStyleMap
     else ret tt);
  do entries <- range_table (QemuNetworks c);
  do _ <- forM entries (CreateQemuNetworksParams_body vmID params);
  ret None.

(** *** Encoding disks *)

Definition disk_ignoredKeys : list string :=
  ["id"; "type"; "storage"; "storage_type"; "size"; "cache"].

(** [regexp.MatchString(`(zfspool|lvm)`, storageType)]. *)
Definition matches_rxStorageTypes (storageType : string) : bool :=
  strings_Contains storageType "zfspool" || strings_Contains storageType "lvm".

(** The body of the loop of [CreateQemuDisksParams]. *)
Definition CreateQemuDisksParams_body (vmID : Z) (action : string) (params : option loc)
    (entry : Z * option loc) : M unit :=
  let '(diskID, diskConfMap) := entry in
  do typeV <- map_index diskConfMap "type";
  do deviceType <- assert_string typeV;
  let qemuDiskName := deviceType +:+ strconv_Itoa diskID in
  do storageV <- map_index diskConfMap "storage";
  do sizeV <- map_index diskConfMap "size";
  do diskConfParam <-
    (if String.eqb action "create" then
       do diskSizeGB <- assert_string sizeV;
       let diskSize := strings_Trim diskSizeGB "G" in
       ret [fmtV storageV +:+ ":" +:+ diskSize]
     else if String.eqb action "update" then
       let diskSizeGB := "size=" +:+ fmtV sizeV in
       do storageTypeV <- map_index diskConfMap "storage_type";
       do storageType <- assert_string storageTypeV;
       do formatV <- map_index diskConfMap "format";
       let diskFile :=
         if matches_rxStorageTypes storageType then
           "file=" +:+ fmtV storageV +:+ ":vm-" +:+ strconv_Itoa vmID
             +:+ "-disk-" +:+ strconv_Itoa (wrap64 (diskID + 1))
         else
           "file=" +:+ fmtV storageV +:+ ":" +:+ strconv_Itoa vmID
             +:+ "/vm-" +:+ strconv_Itoa vmID
             +:+ "-disk-" +:+ strconv_Itoa (wrap64 (diskID + 1))
             +:+ "." +:+ fmtV formatV in
       ret [diskSizeGB; diskFile]
     else ret []);
  do cacheV <- map_index diskConfMap "cache";
  do cache <- assert_string cacheV;
  let diskConfParam :=
    if String.eqb cache "none" then diskConfParam
    else (diskConfParam ++ ["cache=" +:+ fmtV cacheV])%list in
  do diskConfParam <- createDeviceParam diskConfParam diskConfMap disk_ignoredKeys;
  map_assign params qemuDiskName (IStr (strings_Join diskConfParam ",")).

(** The deprecated single-disk fields as a descriptor. *)
Definition deprecated_disk (c : ConfigQemu) : QemuDevice :=
  <["storage" := IStr (Storage c)]> (<["size" := IFloat (DiskSize c)]> ∅).

Definition CreateQemuDisksParams (c : ConfigQemu) (vmID : Z) (action : string)
    (params : option loc) : M (option error) :=
  do n <- table_len (QemuDisks c);
  do _ <-
    (if (n =? 0)%nat && (0 <? String.length (Storage c))%nat then
       do deprecatedStyleMap <- make_map (deprecated_disk c);
       table_assign (QemuDisks c) 0 deprecatedStyleMap
     else ret tt);
  do entries <- range_table (QemuDisks c);
  do _ <- forM entries (CreateQemuDisksParams_body vmID action params);
  ret None.

(** ** The orchestrator *)

Definition CreateVm (config : ConfigQemu) (vmr : option loc) : M (option error) :=
  do _ <- SetVmType vmr "qemu";
  do v <- deref_vmr vmr;
  do params <- make_map
    (list_to_map
       [("vmid", IInt (vmId v));
        ("name", IStr (Name config));
        ("onboot", IBool (Onboot config));
        ("ide2", IStr (QemuIso config +:+ ",media=cdrom"));
        ("ostype", IStr (QemuOs config));
        ("sockets", IInt (QemuSockets config));
        ("cores", IInt (QemuCores config));
        ("cpu", IStr "host");
        ("memory", IInt (Memory config));
        ("description", IStr (Description config))]);
  do _ <- CreateQemuDisksParams config (vmId v) "create" params;
  do _ <- CreateQemuNetworksParams config (vmId v) params;
  call_CreateQemuVm (node v) params.

Definition UpdateConfig_params (config : ConfigQemu) : gmap string iface :=
  list_to_map
    [("description", IStr (Description config));
     ("onboot", IBool (Onboot config));
     ("sockets", IInt (QemuSockets config));
     ("cores", IInt (QemuCores config));
     ("memory", IInt (Memory config))].

Definition UpdateConfig (config : ConfigQemu) (vmr : option loc) : M (option error) :=
  do configParams <- make_map (UpdateConfig_params config);
  do v <- deref_vmr vmr;
  do _ <- CreateQemuDisksParams config (vmId v) "update" configParams;
  do _ <- CreateQemuNetworksParams config (vmId v) configParams;
  call_SetVmConfig vmr configParams.

Definition CloneVm_params (config : ConfigQemu) (v : VmRef) : gmap string iface :=
  let fullclone :=
    match FullClone config with
    | Some n => strconv_Itoa n
    | None => "1"
    end in
  list_to_map
    [("newid", IInt (vmId v));
     ("target", IStr (node v));
     ("name", IStr (Name config));
     ("storage", IStr (Storage config));
     ("full", IStr fullclone)].

Definition CloneVm (config : ConfigQemu) (sourceVmr vmr : option loc) : M (option error) :=
  do _ <- SetVmType vmr "qemu";
  do v <- deref_vmr vmr;
  do params <- make_map (CloneVm_params config v);
  do err <- call_CloneQemuVm sourceVmr params;
  match err with
  | Some e => ret (Some e)
  | None => UpdateConfig config vmr
  end.

(** *** Reading a configuration back *)

(** The loop at the head of [NewConfigQemuFromApi], with [n] iterations
    left and [vmConfig] the last configuration fetched. *)
Fixpoint lock_loop (n : nat) (vmr : option loc) (vmConfig : gmap string iface)
    : M (gmap string iface) :=
  match n with
  | O => ret vmConfig
  | S n' =>
      do res <- call_GetVmConfig vmr;
      let '(vmConfig', err) := res in
      match err with
      | Some _ => log_Fatal
      | None =>
          match attr vmConfig' "lock" with
          | INil => ret vmConfig'
          | _ => do _ <- time_Sleep 8; lock_loop n' vmr vmConfig'
          end
      end
  end.

Definition vm_locked : error := "vm locked, could not obtain config".

(** The names of the devices of a kind among the keys of a
    configuration. *)
Definition device_names (lit : string) (vmConfig : gmap string iface) : M (list string) :=
  do entries <- range_entries vmConfig;
  ret (flat_map (fun e => match find_lit_digits lit e.1 with
                          | name :: _ => [name]
                          | [] => []
                          end) entries).

Definition decode_disk (vmConfig : gmap string iface) (disks : option loc)
    (diskName : string) : M unit :=
  do diskConfStr <- assert_string (attr vmConfig diskName);
  let diskConfList := strings_Split diskConfStr "," in
  do id <- slice_index (find_run is_digit diskName) 0;
  let diskID := (strconv_Atoi id).1 in
  do diskType <- slice_index (find_run (fun c => negb (is_digit c)) diskName) 0;
  do first <- slice_index diskConfList 0;
  let diskStorageAndFile := strings_Split first ":" in
  do storage <- slice_index diskStorageAndFile 0;
  do file <- slice_index diskStorageAndFile 1;
  do diskConfMap <- make_map
    (list_to_map [("type", IStr diskType); ("storage", IStr storage); ("file", IStr file)]);
  do _ <- readDeviceConfig diskConfMap (tail diskConfList);
  fun w =>
    if (0 <? size (map_of w diskConfMap))%nat
    then table_assign disks diskID diskConfMap w
    else (Done tt, w).

Definition decode_nic (vmConfig : gmap string iface) (networks : option loc)
    (nicName : string) : M unit :=
  do nicConfStr <- assert_string (attr vmConfig nicName);
  let nicConfList := strings_Split nicConfStr "," in
  do id <- slice_index (find_run is_digit nicName) 0;
  let nicID := (strconv_Atoi id).1 in
  do first <- slice_index nicConfList 0;
  let modelAndMacaddr := strings_Split first "=" in
  do model <- slice_index modelAndMacaddr 0;
  do macaddr <- slice_index modelAndMacaddr 1;
  do nicConfMap <- make_map
    (list_to_map [("model", IStr model); ("macaddr", IStr macaddr)]);
  do _ <- readDeviceConfig nicConfMap (tail nicConfList);
  fun w =>
    if (0 <? size (map_of w nicConfMap))%nat
    then table_assign networks nicID nicConfMap w
    else (Done tt, w).

(** [NewConfigQemuFromApi] from the point where the configuration is
    known to be unlocked. *)
Definition config_of_vmConfig (vmConfig : gmap string iface) : M ConfigQemu :=
  do fullclone <-
    match attr vmConfig "fullclone" with
    | INil => ret 1
    | v => do f <- assert_float64 v; ret (int_of_float64 f)
    end;
  do description <-
    match attr vmConfig "description" with
    | INil => ret ""
    | v => assert_string v
    end;
  do name <- assert_string (attr vmConfig "name");
  do onboot <- assert_float64 (attr vmConfig "onboot");
  do ostype <- assert_string (attr vmConfig "ostype");
  do memory <- assert_float64 (attr vmConfig "memory");
  do cores <- assert_float64 (attr vmConfig "cores");
  do sockets <- assert_float64 (attr vmConfig "sockets");
  do disks <- make_table ∅;
  do networks <- make_table ∅;
  do iso <-
    match attr vmConfig "ide2" with
    | INil => ret ""
    | v => do ide2 <- assert_string v;
           slice_index (rxIso_FindStringSubmatch ide2) 1
    end;
  do diskNames <- device_names "virtio" vmConfig;
  do _ <- forM diskNames (decode_disk vmConfig disks);
  do nicNames <- device_names "net" vmConfig;
  do _ <- forM nicNames (decode_nic vmConfig networks);
  fun w =>
    (Done {| Name := name;
             Description := strings_TrimSpace description;
             Onboot := Itob (int_of_float64 onboot);
             Memory := int_of_float64 memory;
             Storage := "";
             QemuOs := ostype;
             QemuCores := int_of_float64 cores;
             QemuSockets := int_of_float64 sockets;
             QemuIso := iso;
             QemuDisks := disks;
             QemuNetworks := networks;
             FullClone := Some fullclone;
             QemuNicModel := "";
             QemuBrige := "";
             QemuVlanTag := -1;
             DiskSize := zero_float64 |}, w).

Definition NewConfigQemuFromApi (vmr : option loc) : M (option ConfigQemu * option error) :=
  do vmConfig <- lock_loop 3 vmr ∅;
  match attr vmConfig "lock" with
  | INil => do config <- config_of_vmConfig vmConfig; ret (Some config, None)
  | _ => ret (None, Some vm_locked)
  end.

(** ** Notions used to state the properties *)

(** The tokens that the generic attribute pass adds for the descriptor at
    [r] when it runs in the store [w]. *)
Definition device_tokens (w : World) (r : option loc) (ignoredKeys : list string)
    : QemuDeviceParam :=
  createDeviceParam_entries []
    (by_rank (key_rank (w_ranges w)) (map_to_list (map_of w r))) ignoredKeys.

(** The [file=] token of a disk under the [update] action. *)
Definition update_file (d : QemuDevice) (storageType : string) (vmID diskID : Z) : string :=
  if matches_rxStorageTypes storageType then
    "file=" +:+ fmtV (attr d "storage") +:+ ":vm-" +:+ strconv_Itoa vmID
      +:+ "-disk-" +:+ strconv_Itoa (wrap64 (diskID + 1))
  else
    "file=" +:+ fmtV (attr d "storage") +:+ ":" +:+ strconv_Itoa vmID
      +:+ "/vm-" +:+ strconv_Itoa vmID
      +:+ "-disk-" +:+ strconv_Itoa (wrap64 (diskID + 1))
      +:+ "." +:+ fmtV (attr d "format").

(** The [cache=] token of a disk. *)
Definition cache_token (cache : string) : QemuDeviceParam :=
  if String.eqb cache "none" then [] else ["cache=" +:+ cache].

(** The [bridge=] token of a network interface. *)
Definition bridge_token (bridge : string) : QemuDeviceParam :=
  if String.eqb bridge "nat" then [] else ["bridge=" +:+ bridge].

(** The key and the value that [readDeviceConfig] reads in a segment. *)
Definition segment_key (confs : string) : string :=
  default "" (strings_Split confs "=" !! 0%nat).

Definition segment_value (confs : string) : string :=
  default "" (strings_Split confs "=" !! 1%nat).

(** A descriptor after the segments of [confList] are decoded into it. *)
Definition decoded (m : QemuDevice) (confList : list string) : QemuDevice :=
  foldl (fun m confs => <[segment_key confs := coerce (segment_value confs)]> m) m confList.

(** The MAC address generated for a VM id and a NIC index. *)
Definition generated_mac (vmID nicID : Z) : string :=
  strings_ToUpper (HardwareAddr_String (draw 6 (rng_seed (wrap64 (vmID + nicID)))).1).

(** Six groups of two upper-case hexadecimal digits, separated by colons. *)
Definition is_upper_hex (c : ascii) : bool := char_in c "0123456789ABCDEF".

Fixpoint is_mac_groups (n : nat) (s : string) : bool :=
  match n, s with
  | 1%nat, String a (String b EmptyString) => is_upper_hex a && is_upper_hex b
  | S (S _ as n'), String a (String b (String c rest)) =>
      is_upper_hex a && is_upper_hex b && Ascii.eqb c ":" && is_mac_groups n' rest
  | _, _ => false
  end.

Definition is_upper_mac (s : string) : bool := is_mac_groups 6 s.

(** The fetches and the sleeps of a trace. *)
Definition is_fetch (e : Event) : bool :=
  match e with EvGetVmConfig _ => true | _ => false end.

Definition is_sleep (e : Event) : bool :=
  match e with EvSleep _ => true | _ => false end.

Definition fetch_count (trace : list Event) : nat :=
  length (List.filter is_fetch trace).

Definition sleep_count (trace : list Event) : nat :=
  length (List.filter is_sleep trace).

Definition sleep_total (trace : list Event) : Z :=
  foldr (fun e acc => match e with EvSleep s => s + acc | _ => acc end) 0 trace.

Definition is_set_config (e : Event) : bool :=
  match e with EvSetVmConfig _ _ => true | _ => false end.

(** Every descriptor that a device table refers to is a map of the store
    (Go has no dangling references). *)
Definition wf_store (w : World) : Prop :=
  forall t T index l,
    w_tables w !! t = Some T -> T !! index = Some (Some l) -> l ∈ dom (w_maps w).

(** [m] leaves every store related by [R] to the store it starts in. *)
Definition keeps (R : World -> World -> Prop) {A} (m : M A) : Prop :=
  forall w, R w (m w).2.

(** The encoders touch neither the tables, nor the trace, nor the client,
    nor the VM references. *)
Definition quiet (w w' : World) : Prop :=
  w_tables w' = w_tables w /\ w_trace w' = w_trace w /\
  w_client w' = w_client w /\ w_vmrefs w' = w_vmrefs w.

(** The store in which the devices are visited after the legacy
    normaliser has put the descriptor [d] at index 0 of the table [t]. *)
Definition synthesized (t : loc) (d : QemuDevice) (w : World) : World :=
  next_range
    (set_tables (fun h => <[t := {[0 := Some (fresh (dom (w_maps w)))]}]> h)
       (set_maps (fun h => <[fresh (dom (w_maps w)) := d]> h) w)).

Definition mac_written (vmID nicID : Z) (l : loc) (w : World) : World :=
  assigned l "macaddr" (IStr (generated_mac vmID nicID))
    (set_rand (draw 6 (rng_seed (wrap64 (vmID + nicID)))).2 w).

Definition same_attr (l : loc) (key : string) (w w' : World) : Prop :=
  attr (map_of w' (Some l)) key = attr (map_of w (Some l)) key.

(** The client always answers with a locked configuration. *)
Definition always_locked : Prop :=
  forall (v : VmRef) (cs : ClientState),
    (client_GetVmConfig v cs).1.2 = None /\
    attr (client_GetVmConfig v cs).1.1 "lock" <> INil.

Fixpoint polls (n : nat) (v : VmRef) : list Event :=
  match n with
  | O => []
  | S n' => EvGetVmConfig v :: EvSleep 8 :: polls n' v
  end.

Fixpoint ends_in_digit (s : string) : bool :=
  match s with
  | EmptyString => false
  | String c EmptyString => is_digit c
  | String _ s' => ends_in_digit s'
  end.

(** The parameter map [p] keeps the keys that do not end in a digit, the
    store keeps its maps, and the outside sees nothing. *)
Definition steady (p : loc) (w w' : World) : Prop :=
  w_trace w' = w_trace w /\ w_client w' = w_client w /\ w_vmrefs w' = w_vmrefs w /\
  dom (w_maps w) ⊆ dom (w_maps w') /\
  forall k, ends_in_digit k = false ->
            map_of w' (Some p) !! k = map_of w (Some p) !! k.

(** [p] is a map of the store that no device table refers to. *)
Definition unaliased (p : loc) (w : World) : Prop :=
  p ∈ dom (w_maps w) /\
  forall t T index, w_tables w !! t = Some T -> T !! index <> Some (Some p).

Definition calm (p : loc) (w w' : World) : Prop :=
  w_tables w' = w_tables w /\ steady p w w'.

Definition unaliased_steady (p : loc) (w w' : World) : Prop :=
  unaliased p w -> unaliased p w' /\ steady p w w'.

(** The store in which [UpdateConfig] encodes the devices: the store it
    starts in, with the parameter map. *)
Definition update_store (config : ConfigQemu) (w : World) : World :=
  set_maps (fun h => <[fresh (dom (w_maps w)) := UpdateConfig_params config]> h) w.

(** [m] never ends the process. *)
Definition no_exit {A} (m : M A) : Prop :=
  forall w code, (m w).1 <> Exit code.

(** What a run of [UpdateConfig] from the store [w] amounts to: either
    both device tables are encoded under the [update] action into the
    parameter map, and one set-config call carries that map, with the
    description, boot flag, sockets, cores and memory of the
    specification, and its answer is the result; or an encoder panics
    and no call is made. *)
Definition updated (config : ConfigQemu) (v : VmRef) (w : World)
    (run : outcome (option error) * World) : Prop :=
  let p := fresh (dom (w_maps w)) in
  (exists o2 w2 o3 w3 P,
     CreateQemuDisksParams config (vmId v) "update" (Some p) (update_store config w)
       = (Done o2, w2) /\
     CreateQemuNetworksParams config (vmId v) (Some p) w2 = (Done o3, w3) /\
     P = map_of w3 (Some p) /\
     run.1 = Done (client_SetVmConfig v P (w_client w)).1 /\
     w_trace run.2 = (w_trace w ++ [EvSetVmConfig v P])%list /\
     P !! "description" = Some (IStr (Description config)) /\
     P !! "onboot" = Some (IBool (Onboot config)) /\
     P !! "sockets" = Some (IInt (QemuSockets config)) /\
     P !! "cores" = Some (IInt (QemuCores config)) /\
     P !! "memory" = Some (IInt (Memory config)))
  \/
  ((exists msg, run.1 = Panic msg) /\ w_trace run.2 = w_trace w).

(** The source reference as the clone call sees it: the target's type has
    been set by then, which shows when source and target are one
    reference. *)
Definition clone_source (sourceVmr vmr : loc) (src v : VmRef) : VmRef :=
  if decide (sourceVmr = vmr) then mkVmRef (vmId v) (node v) "qemu" else src.

(** The store after the clone call of [CloneVm]. *)
Definition clone_called (config : ConfigQemu) (sourceVmr vmr : loc) (src v : VmRef)
    (w : World) : World :=
  let v' := mkVmRef (vmId v) (node v) "qemu" in
  let P := CloneVm_params config v' in
  set_client (client_CloneQemuVm (clone_source sourceVmr vmr src v) P (w_client w)).2
    (log_event (EvCloneQemuVm (clone_source sourceVmr vmr src v) P)
       (set_maps (fun h => <[fresh (dom (w_maps w)) := P]> h)
          (set_vmrefs (fun h => <[vmr := v']> h) w))).

End Model.

Arguments Done {A} a.
Arguments Panic {A} msg.
Arguments Exit {A} code.

Notation "'do' x <- m ; k" := (bind m (fun x => k))
  (at level 10, x pattern, m at level 100, k at level 200).

(** * Concrete collaborators and stores

    One instance of each collaborator, and the stores and VM
    specifications on which the properties are exercised. *)

Module Fixtures.

(** Doubles that hold whole numbers. *)
Definition whole_float64 : Float64 :=
  {| float64 := Z; zero_float64 := 0; fmt_float64 := pretty;
     int_of_float64 := fun z => z |}.

(** A linear congruential generator. *)
Definition lcg_byte (r : Z) : byte * Z :=
  let r' := (r * 1103515245 + 12345) mod 2 ^ 31 in
  (default x00%byte (Byte.of_N (Z.to_N ((r' / 65536) mod 256))), r').

Definition lcg_rand : RandSource :=
  {| RngState := Z; rng_seed := fun seed => seed; rng_byte := lcg_byte |}.

(** Maps visited in the order of the store. *)
Definition store_order : MapOrder :=
  {| key_rank := fun _ _ => O; index_rank := fun _ _ => O |}.

Definition plain_util : Util :=
  {| Itob := fun i => (i =? 1)%Z; strings_TrimSpace := fun s => strings_Trim s " " |}.

#[local] Existing Instance whole_float64.
#[local] Existing Instance lcg_rand.
#[local] Existing Instance store_order.
#[local] Existing Instance plain_util.

(** A client whose VM stays locked by a clone. *)
Definition locked_client : ApiClient :=
  {| ClientState := unit;
     client_CreateQemuVm := fun _ _ c => (None, c);
     client_CloneQemuVm := fun _ _ c => (None, c);
     client_SetVmConfig := fun _ _ c => (None, c);
     client_GetVmConfig := fun _ c =>
       ((<["lock" := IStr "clone"]> (<["digest" := IStr "eb54fb9d"]> ∅), None), c) |}.

(** A client that refuses to clone. *)
Definition refusing_client : ApiClient :=
  {| ClientState := unit;
     client_CreateQemuVm := fun _ _ c => (None, c);
     client_CloneQemuVm := fun _ _ c => (Some "clone refused", c);
     client_SetVmConfig := fun _ _ c => (None, c);
     client_GetVmConfig := fun _ c => ((∅, None), c) |}.

(** The descriptors of the scenarios. *)
Definition disk_create : QemuDevice :=
  list_to_map [("type", IStr "virtio"); ("storage", IStr "local"); ("size", IStr "20G")].

Definition disk_create_cache : QemuDevice :=
  <["cache" := IStr "none"]> disk_create.

Definition disk_update : QemuDevice :=
  list_to_map [("type", IStr "virtio"); ("storage", IStr "local"); ("size", IStr "20G");
               ("storage_type", IStr "dir"); ("format", IStr "qcow2")].

Definition disk_update_cache : QemuDevice :=
  <["cache" := IStr "none"]> disk_update.

Definition nic_no_mac : QemuDevice :=
  list_to_map [("model", IStr "virtio"); ("macaddr", IStr ""); ("bridge", IStr "vmbr0")].

(** The locations of the stores below. *)
Definition device : loc := 1%positive.
Definition params : loc := 2%positive.
Definition devices : loc := 1%positive.
Definition no_devices : loc := 2%positive.
Definition target : loc := 1%positive.
Definition template : loc := 2%positive.

(** A store with one descriptor (the map [device]), an empty parameter map
    ([params]), a table ([devices]) holding the descriptor at index 0, an
    empty table ([no_devices]), the reference [target] for VM 101 and the
    reference [template] for VM 9000, both on node [pve]. *)
Definition store_with {AC : ApiClient} (cs : ClientState) (d : QemuDevice) : World :=
  {| w_maps := <[device := d]> (<[params := ∅]> ∅);
     w_tables := <[devices := <[0 := Some device]> ∅]> (<[no_devices := ∅]> ∅);
     w_vmrefs := <[target := mkVmRef 101 "pve" ""]>
                   (<[template := mkVmRef 9000 "pve" "qemu"]> ∅);
     w_rand := 0;
     w_client := cs;
     w_trace := [];
     w_ranges := O |}.

Definition store1 (d : QemuDevice) : World := store_with (AC := locked_client) tt d.

Definition store1_refusing (d : QemuDevice) : World :=
  store_with (AC := refusing_client) tt d.

(** The VM specification of the scenarios: [disks] and [networks] name
    the tables; the deprecated fields are given separately. *)
Definition vm1 (disks networks : option loc) (storage nic : string) : ConfigQemu :=
  {| Name := "vm1"; Description := ""; Onboot := false; Memory := 2048;
     Storage := storage; QemuOs := "l26"; QemuCores := 2; QemuSockets := 1;
     QemuIso := ""; QemuDisks := disks; QemuNetworks := networks;
     FullClone := None; QemuNicModel := nic; QemuBrige := "vmbr0";
     QemuVlanTag := -1; DiskSize := 20 |}.

End Fixtures.

(** * The rest of the code: notions *)

Section Notions.

Context {F64 : Float64} {RS : RandSource} {MO : MapOrder} {U : Util} {AC : ApiClient}.

(** ** Notions for the properties of the rest of the code *)

(** The outside sees nothing: no call, no sleep, the client and the VM
    references as they were. *)
Definition silent (w w' : World) : Prop :=
  w_trace w' = w_trace w /\ w_client w' = w_client w /\ w_vmrefs w' = w_vmrefs w.

(** Whenever [m] returns, it returns the nil error. *)
Definition returns_nil (m : M (option error)) : Prop :=
  forall w o w', m w = (Done o, w') -> o = None.

(** The generator is in the state it was in. *)
Definition same_rand (w w' : World) : Prop := w_rand w' = w_rand w.

(** The text of [s] before its first byte [sep] (all of [s] when there is
    none) and the text after it. *)
Definition before_byte (sep : ascii) (s : string) : string :=
  take_while (fun c => negb (Ascii.eqb c sep)) s.

Fixpoint after_byte (sep : ascii) (s : string) : string :=
  match s with
  | EmptyString => ""
  | String c s' => if Ascii.eqb c sep then s' else after_byte sep s'
  end.

Fixpoint all_chars (f : ascii -> bool) (s : string) : bool :=
  match s with
  | EmptyString => true
  | String c s' => f c && all_chars f s'
  end.

(** ** Reading back: notions *)

(** The state of the client after [n] fetches for [v] that all answer,
    without an error, with a locked configuration; [None] when one of
    them does not. *)
Fixpoint after_locked (n : nat) (v : VmRef) (cs : ClientState) : option ClientState :=
  match n with
  | O => Some cs
  | S n' =>
      let '((vmConfig, err), cs') := client_GetVmConfig v cs in
      match err with
      | Some _ => None
      | None =>
          match attr vmConfig "lock" with
          | INil => None
          | _ => after_locked n' v cs'
          end
      end
  end.

(** The store after [n] rounds of fetching and sleeping that leave the
    client in the state [cs]. *)
Definition polled (n : nat) (v : VmRef) (cs : ClientState) (w : World) : World :=
  mkWorld (w_maps w) (w_tables w) (w_vmrefs w) (w_rand w) cs
          (w_trace w ++ polls n v)%list (w_ranges w).

(** The two tables that the read-back makes for the disks and the
    network interfaces, and the store with them, empty. *)
Definition disks_table (w : World) : loc := fresh (dom (w_tables w)).

Definition networks_table (w : World) : loc :=
  fresh (dom (<[disks_table w := ∅]> (w_tables w))).

Definition with_device_tables (w : World) : World :=
  set_tables (fun h => <[networks_table w := ∅]> h)
    (set_tables (fun h => <[disks_table w := ∅]> h) w).

(** No key of the configuration names a device of the kind [lit]. *)
Definition no_device (lit : string) (vmConfig : gmap string iface) : Prop :=
  forall k v, vmConfig !! k = Some v -> find_lit_digits lit k = [].

(** ** Creating: notions *)

(** The parameters that [CreateVm] starts from. *)
Definition CreateVm_params (config : ConfigQemu) (v : VmRef) : gmap string iface :=
  list_to_map
    [("vmid", IInt (vmId v));
     ("name", IStr (Name config));
     ("onboot", IBool (Onboot config));
     ("ide2", IStr (QemuIso config +:+ ",media=cdrom"));
     ("ostype", IStr (QemuOs config));
     ("sockets", IInt (QemuSockets config));
     ("cores", IInt (QemuCores config));
     ("cpu", IStr "host");
     ("memory", IInt (Memory config));
     ("description", IStr (Description config))].

(** The store in which [CreateVm] encodes the devices: the reference
    [vmr] has the type [qemu] and the parameter map is a new map. *)
Definition create_store (config : ConfigQemu) (vmr : loc) (v : VmRef) (w : World) : World :=
  set_maps (fun h => <[fresh (dom (w_maps w)) := CreateVm_params config v]> h)
    (set_vmrefs (fun h => <[vmr := mkVmRef (vmId v) (node v) "qemu"]> h) w).

End Notions.

(** * The encoders of the earlier revision

    The earlier revision of the file has no vmID and no action: disks are
    always encoded in the create form, network interfaces are named by
    their [type] attribute, and the generic pass knows no booleans. The
    encoders read the same fields of [ConfigQemu] and run in the same
    store. *)

Module Earlier.
Section Model.

Context {F64 : Float64} {RS : RandSource} {MO : MapOrder} {U : Util} {AC : ApiClient}.

(** The value that [createDeviceParam] prints for an attribute, [INil]
    when the attribute is left out. *)
Definition confValue (value : iface) : iface :=
  match value with
  | IStr sValue => if (0 <? String.length sValue)%nat then IStr sValue else INil
  | IInt iValue => if (0 <? iValue)%Z then IInt iValue else INil
  | _ => INil
  end.

Definition createDeviceParam_step (ignoredKeys : list string)
    (p : QemuDeviceParam) (entry : string * iface) : QemuDeviceParam :=
  let '(key, value) := entry in
  if inArray ignoredKeys key then p
  else
    match confValue value with
    | INil => p
    | cv => (p ++ [key +:+ "=" +:+ fmtV cv])%list
    end.

Definition createDeviceParam (p : QemuDeviceParam) (deviceConfMap : option loc)
    (ignoredKeys : list string) : M QemuDeviceParam :=
  do entries <- range_map deviceConfMap;
  ret (fold_left (createDeviceParam_step ignoredKeys) entries p).

Definition nic_ignoredKeys : list string := ["id"; "type"; "bridge"].

(** The body of the loop of [CreateQemuNetworksParams]. *)
Definition CreateQemuNetworksParams_body (params : option loc)
    (entry : Z * option loc) : M unit :=
  let '(nicID, nicConfMap) := entry in
  let qemuNicName := "net" +:+ strconv_Itoa nicID in
  do typeV <- map_index nicConfMap "type";
  do deviceType <- assert_string typeV;
  do nicConfType <- slice_index (strings_Split deviceType "=") 0;
  let nicConfParam := [nicConfType] in
  do bridgeV <- map_index nicConfMap "bridge";
  do bridge <- assert_string bridgeV;
  let nicConfParam :=
    if String.eqb bridge "nat" then nicConfParam
    else (nicConfParam ++ ["bridge=" +:+ fmtV bridgeV])%list in
  do nicConfParam <- createDeviceParam nicConfParam nicConfMap nic_ignoredKeys;
  map_assign params qemuNicName (IStr (strings_Join nicConfParam ",")).

Definition CreateQemuNetworksParams (c : ConfigQemu) (params : option loc)
    : M (option error) :=
  do n <- table_len (QemuNetworks c);
  do _ <-
    (if (n =? 0)%nat && (0 <? String.length (QemuNicModel c))%nat then
       do deprecatedStyleMap <- make_map (deprecated_nic c);
       table_assign (QemuNetworks c) 0 deprecatedStyleMap
     else ret tt);
  do entries <- range_table (QemuNetworks c);
  do _ <- forM entries (CreateQemuNetworksParams_body params);
  ret None.

Definition disk_ignoredKeys : list string := ["id"; "type"; "storage"; "size"; "cache"].

(** The body of the loop of [CreateQemuDisksParams]. *)
Definition CreateQemuDisksParams_body (params : option loc)
    (entry : Z * option loc) : M unit :=
  let '(diskID, diskConfMap) := entry in
  do typeV <- map_index diskConfMap "type";
  do deviceType <- assert_string typeV;
  let qemuDiskName := deviceType +:+ strconv_Itoa diskID in
  do sizeV <- map_index diskConfMap "size";
  do diskSize <- assert_string sizeV;
  let diskSizeGB := strings_Trim diskSize "G" in
  do storageV <- map_index diskConfMap "storage";
  let diskConfParam := [fmtV storageV +:+ ":" +:+ diskSizeGB] in
  do cacheV <- map_index diskConfMap "cache";
  do cache <- assert_string cacheV;
  let diskConfParam :=
    if String.eqb cache "none" then diskConfParam
    else (diskConfParam ++ ["cache=" +:+ fmtV cacheV])%list in
  do diskConfParam <- createDeviceParam diskConfParam diskConfMap disk_ignoredKeys;
  map_assign params qemuDiskName (IStr (strings_Join diskConfParam ",")).

Definition CreateQemuDisksParams (c : ConfigQemu) (params : option loc)
    : M (option error) :=
  do n <- table_len (QemuDisks c);
  do _ <-
    (if (n =? 0)%nat && (0 <? String.length (Storage c))%nat then
       do deprecatedStyleMap <- make_map (deprecated_disk c);
       table_assign (QemuDisks c) 0 deprecatedStyleMap
     else ret tt);
  do entries <- range_table (QemuDisks c);
  do _ <- forM entries (CreateQemuDisksParams_body params);
  ret None.

End Model.
End Earlier.

(** * The helpers of a running VM

    [WaitForShutdown], [SshForwardUsernet], [RemoveSshForwardUsernet],
    [MaxVmId] and [SendKeysString] only talk to the client: they touch
    no map of the store. They are modelled over a session, the state of
    the client with the list of what was done: calls, sleeps and log
    lines. The VM reference is only passed on and read, so it is a value
    here. The text of the file being the same in the three revisions, the
    model is one. *)

(** A value decoded from JSON into [interface{}]. *)
Inductive json {F64 : Float64} : Type :=
  | JNull
  | JBool (b : bool)
  | JNum (f : float64)
  | JStr (s : string)
  | JArr (l : list json)
  | JObj (m : gmap string json).

(** What the client offers to the helpers; each call gets the state of
    the remote side and returns the next one. *)
Class MonitorClient {F64 : Float64} := {
  MonitorState : Type;
  client_GetVmState : VmRef -> MonitorState ->
    (gmap string json * option error) * MonitorState;
  client_MonitorCmd : VmRef -> string -> MonitorState ->
    (gmap string json * option error) * MonitorState;
  client_GetVmList : MonitorState ->
    (gmap string json * option error) * MonitorState
}.

(** [for _, r := range keys] with [string(r)], and [strings.ToLower]. *)
Class Text := {
  runes : string -> list string;
  strings_ToLower : string -> string
}.

Section Helpers.

Context {F64 : Float64} {MC : MonitorClient} {TX : Text}.

(** What a helper does, in order. Durations are in nanoseconds. *)
Inductive Call : Type :=
  | CallGetVmState (vmr : VmRef)
  | CallMonitorCmd (vmr : VmRef) (command : string)
  | CallGetVmList
  | CallSleep (d : Z)
  | CallLog (text : string).

Record Session := mkSession {
  s_client : MonitorState;
  s_calls : list Call
}.

Definition time_Second : Z := 1000000000.

Definition call_GetVmState (vmr : VmRef) (s : Session)
    : (gmap string json * option error) * Session :=
  let '(res, c) := client_GetVmState vmr (s_client s) in
  (res, mkSession c (s_calls s ++ [CallGetVmState vmr])).

Definition call_MonitorCmd (vmr : VmRef) (command : string) (s : Session)
    : (gmap string json * option error) * Session :=
  let '(res, c) := client_MonitorCmd vmr command (s_client s) in
  (res, mkSession c (s_calls s ++ [CallMonitorCmd vmr command])).

Definition call_GetVmList (s : Session)
    : (gmap string json * option error) * Session :=
  let '(res, c) := client_GetVmList (s_client s) in
  (res, mkSession c (s_calls s ++ [CallGetVmList])).

Definition sleep (d : Z) (s : Session) : Session :=
  mkSession (s_client s) (s_calls s ++ [CallSleep d]).

Definition log_Print (text : string) (s : Session) : Session :=
  mkSession (s_client s) (s_calls s ++ [CallLog text]).

(** [vmState["status"] == "stopped"]. *)
Definition status_stopped (vmState : gmap string json) : bool :=
  match vmState !! "status" with
  | Some (JStr s) => String.eqb s "stopped"
  | _ => false
  end.

Definition not_shutdown : error := "Not shutdown within wait time".
Definition must_be_running : error := "VM must be running first".

(** The loop of [WaitForShutdown] with [n] iterations left. *)
Fixpoint WaitForShutdown_loop (n : nat) (vmr : VmRef) (s : Session)
    : option error * Session :=
  match n with
  | O => (Some not_shutdown, s)
  | S n' =>
      let '((vmState, err), s1) := call_GetVmState vmr s in
      match err with
      | Some e =>
          WaitForShutdown_loop n' vmr
            (sleep (5 * time_Second) (log_Print e (log_Print "Wait error:" s1)))
      | None =>
          if status_stopped vmState then (None, s1)
          else WaitForShutdown_loop n' vmr (sleep (5 * time_Second) s1)
      end
  end.

Definition WaitForShutdown (vmr : VmRef) (s : Session) : option error * Session :=
  WaitForShutdown_loop 100 vmr s.

Definition SshForwardUsernet (vmr : VmRef) (s : Session)
    : (string * option error) * Session :=
  let '((vmState, err), s1) := call_GetVmState vmr s in
  match err with
  | Some e => (("", Some e), s1)
  | None =>
      if status_stopped vmState then (("", Some must_be_running), s1)
      else
        let sshPort := strconv_Itoa (wrap64 (vmId vmr + 22000)) in
        let '((_, err), s2) :=
          call_MonitorCmd vmr
            ("netdev_add user,id=net1,hostfwd=tcp::" +:+ sshPort +:+ "-:22") s1 in
        match err with
        | Some e => (("", Some e), s2)
        | None =>
            let '((_, err), s3) :=
              call_MonitorCmd vmr
                "device_add virtio-net-pci,id=net1,netdev=net1,addr=0x13" s2 in
            match err with
            | Some e => (("", Some e), s3)
            | None => ((sshPort, None), s3)
            end
        end
  end.

Definition RemoveSshForwardUsernet (vmr : VmRef) (s : Session)
    : option error * Session :=
  let '((vmState, err), s1) := call_GetVmState vmr s in
  match err with
  | Some e => (Some e, s1)
  | None =>
      if status_stopped vmState then (Some must_be_running, s1)
      else
        let '((_, err), s2) := call_MonitorCmd vmr "device_del net1" s1 in
        match err with
        | Some e => (Some e, s2)
        | None =>
            let '((_, err), s3) := call_MonitorCmd vmr "netdev_del net1" s2 in
            match err with
            | Some e => (Some e, s3)
            | None => (None, s3)
            end
        end
  end.

(** The dynamic type of a decoded value, as a panic names it. *)
Definition json_type_name (v : option json) : string :=
  match v with
  | None | Some JNull => "nil"
  | Some (JBool _) => "bool"
  | Some (JNum _) => "float64"
  | Some (JStr _) => "string"
  | Some (JArr _) => "[]interface {}"
  | Some (JObj _) => "map[string]interface {}"
  end.

Definition conversion_msg (v : option json) (wanted : string) : string :=
  "interface conversion: interface {} is " +:+ json_type_name v +:+ ", not " +:+ wanted.

(** The loop of [MaxVmId] over the list of VMs, [max] being the largest
    id seen so far. *)
Fixpoint MaxVmId_loop (vms : list json) (max : Z) : outcome Z :=
  match vms with
  | [] => Done max
  | vmi :: vms' =>
      match vmi with
      | JObj vm =>
          match vm !! "vmid" with
          | Some (JNum f) =>
              let vmid := int_of_float64 f in
              MaxVmId_loop vms' (if (max <? vmid)%Z then vmid else max)
          | other => Panic (conversion_msg other "float64")
          end
      | other => Panic (conversion_msg (Some other) "map[string]interface {}")
      end
  end.

Definition MaxVmId (s : Session) : outcome (Z * option error) * Session :=
  let '((resp, err), s1) := call_GetVmList s in
  match resp !! "data" with
  | Some (JArr vms) =>
      match MaxVmId_loop vms 0 with
      | Done max => (Done (max, err), s1)
      | Panic msg => (Panic msg, s1)
      | Exit code => (Exit code, s1)
      end
  | other => (Panic (conversion_msg other "[]interface {}"), s1)
  end.

(** The name under which [SendKeysString] sends the key [c]. *)
Definition key_name (c : string) : string :=
  let lower := strings_ToLower c in
  if negb (String.eqb c lower) then "shift-" +:+ lower
  else if String.eqb c "!" then "shift-1"
  else if String.eqb c "@" then "shift-2"
  else if String.eqb c "#" then "shift-3"
  else if String.eqb c "$" then "shift-4"
  else if String.eqb c "%%" then "shift-5"
  else if String.eqb c "^" then "shift-6"
  else if String.eqb c "&" then "shift-7"
  else if String.eqb c "*" then "shift-8"
  else if String.eqb c "(" then "shift-9"
  else if String.eqb c ")" then "shift-0"
  else if String.eqb c "_" then "shift-minus"
  else if String.eqb c "+" then "shift-equal"
  else if String.eqb c " " then "spc"
  else if String.eqb c "/" then "slash"
  else if String.eqb c "\" then "backslash"
  else if String.eqb c "," then "comma"
  else if String.eqb c "-" then "minus"
  else if String.eqb c "=" then "equal"
  else if String.eqb c "." then "dot"
  else if String.eqb c "?" then "shift-slash"
  else c.

(** The loop of [SendKeysString] over the keys left. *)
Fixpoint SendKeysString_loop (vmr : VmRef) (keys : list string) (s : Session)
    : option error * Session :=
  match keys with
  | [] => (None, s)
  | c :: keys' =>
      let '((_, err), s1) := call_MonitorCmd vmr ("sendkey " +:+ key_name c) s in
      match err with
      | Some e => (Some e, s1)
      | None => SendKeysString_loop vmr keys' (sleep 100 s1)
      end
  end.

Definition SendKeysString (vmr : VmRef) (keys : string) (s : Session)
    : option error * Session :=
  let '((vmState, err), s1) := call_GetVmState vmr s in
  match err with
  | Some e => (Some e, s1)
  | None =>
      if status_stopped vmState then (Some must_be_running, s1)
      else SendKeysString_loop vmr (runes keys) s1
  end.

(** ** Notions for the helpers *)

Definition is_monitor_cmd (c : Call) : bool :=
  match c with CallMonitorCmd _ _ => true | _ => false end.

Definition is_state_fetch (c : Call) : bool :=
  match c with CallGetVmState _ => true | _ => false end.

Definition is_nap (c : Call) : bool :=
  match c with CallSleep _ => true | _ => false end.

(** The number of state fetches among the calls. *)
Definition fetches (calls : list Call) : nat := length (List.filter is_state_fetch calls).

(** The monitor commands among the calls, in order. *)
Definition commands (calls : list Call) : list string :=
  flat_map (fun c => match c with CallMonitorCmd _ command => [command] | _ => [] end) calls.

(** The time slept in all, in nanoseconds. *)
Definition slept (calls : list Call) : Z :=
  foldr (fun c acc => match c with CallSleep d => d + acc | _ => acc end) 0 calls.

(** The state of the client after [n] fetches of the state of [vmr] none
    of which shows a stopped VM (a failed fetch is one of them); [None]
    when one of them does. *)
Fixpoint after_running (n : nat) (vmr : VmRef) (cs : MonitorState) : option MonitorState :=
  match n with
  | O => Some cs
  | S n' =>
      let '((vmState, err), cs') := client_GetVmState vmr cs in
      match err with
      | Some _ => after_running n' vmr cs'
      | None => if status_stopped vmState then None else after_running n' vmr cs'
      end
  end.




(** The ids of a list of VMs, as [MaxVmId] reads them. *)
Definition vmid_of (vmi : json) : option Z :=
  match vmi with
  | JObj vm =>
      match vm !! "vmid" with
      | Some (JNum f) => Some (int_of_float64 f)
      | _ => None
      end
  | _ => None
  end.

End Helpers.

(** * More collaborators and stores *)

Module Scenes.

Import Fixtures.
#[local] Existing Instance whole_float64.
#[local] Existing Instance lcg_rand.
#[local] Existing Instance store_order.
#[local] Existing Instance plain_util.

(** The configuration of a VM under a clone lock, and the one of a VM
    without devices. *)
Definition locked_config : gmap string iface :=
  list_to_map [("lock", IStr "clone"); ("digest", IStr "eb54fb9d")].

Definition plain_config : gmap string iface :=
  list_to_map
    [("name", IStr "vm1"); ("onboot", IFloat 1); ("ostype", IStr "l26");
     ("memory", IFloat 2048); ("cores", IFloat 2); ("sockets", IFloat 1);
     ("description", IStr " base image ");
     ("ide2", IStr "local:iso/debian.iso,media=cdrom"); ("cpu", IStr "host")].

(** A VM with one disk and one network interface, as Proxmox reports
    them. *)
Definition device_config : gmap string iface :=
  <["virtio0" := IStr "local:vm-101-disk-1,size=4G"]>
    (<["net0" := IStr "virtio=62:DF:51:0C:1A:5B,bridge=vmbr0,tag=5"]> plain_config).

(** Entries whose first segment has no separator. *)
Definition bare_config : gmap string iface :=
  <["virtio1" := IStr "local,size=4G"]>
    (<["net1" := IStr "virtio,bridge=vmbr0"]> plain_config).

(** A client whose VM is locked during the first two fetches; its state
    is the number of fetches so far. *)
Definition settling_client : ApiClient :=
  {| ClientState := nat;
     client_CreateQemuVm := fun _ _ c => (None, c);
     client_CloneQemuVm := fun _ _ c => (None, c);
     client_SetVmConfig := fun _ _ c => (None, c);
     client_GetVmConfig := fun _ c =>
       ((if (c <? 2)%nat then locked_config else plain_config, None), S c) |}.

(** A client whose second fetch fails. *)
Definition failing_client : ApiClient :=
  {| ClientState := nat;
     client_CreateQemuVm := fun _ _ c => (None, c);
     client_CloneQemuVm := fun _ _ c => (None, c);
     client_SetVmConfig := fun _ _ c => (None, c);
     client_GetVmConfig := fun _ c =>
       (if (c <? 1)%nat then (locked_config, None)
        else (∅, Some "connection refused"), S c) |}.

(** A network interface with an address of its own, in lower case. *)
Definition nic_with_mac : QemuDevice :=
  list_to_map [("model", IStr "virtio"); ("macaddr", IStr "aa:bb:cc:dd:ee:ff");
               ("bridge", IStr "vmbr0")].

(** The VM 101 on node [pve]. *)
Definition vm101 : VmRef := mkVmRef 101 "pve" "qemu".

(** The list of three VMs. *)
Definition vm_105 : json := JObj {["vmid" := JNum 105]}.

Definition three_vms : list json :=
  [JObj {["vmid" := JNum 100]}; vm_105; JObj {["vmid" := JNum 102]}].

Definition vm_list : gmap string json := {["data" := JArr three_vms]}.

Definition stopped_state : gmap string json := {["status" := JStr "stopped"]}.
Definition running_state : gmap string json := {["status" := JStr "running"]}.

(** A VM that shuts down: the first fetch of its state fails, the second
    shows it running, the later ones show it stopped. The state of the
    client is the number of fetches so far. *)
Definition stopping_monitor : MonitorClient :=
  {| MonitorState := nat;
     client_GetVmState := fun _ c =>
       (match c with
        | O => (∅, Some "timeout")
        | 1%nat => (running_state, None)
        | _ => (stopped_state, None)
        end, S c);
     client_MonitorCmd := fun _ _ c => ((∅, None), c);
     client_GetVmList := fun c => ((vm_list, None), c) |}.

(** A VM that keeps running and accepts every command but [sendkey c];
    its listing fails with an empty answer. *)
Definition running_monitor : MonitorClient :=
  {| MonitorState := unit;
     client_GetVmState := fun _ c => ((running_state, None), c);
     client_MonitorCmd := fun _ command c =>
       ((∅, if String.eqb command "sendkey c" then Some "refused" else None), c);
     client_GetVmList := fun c => ((∅, Some "timeout"), c) |}.

(** The sessions in which the helpers are run: nothing done yet. *)
Definition stopping_session (fetched : nat) : Session (MC := stopping_monitor) :=
  mkSession (MC := stopping_monitor) fetched [].

Definition running_session : Session (MC := running_monitor) :=
  mkSession (MC := running_monitor) tt [].

(** Keys in the ASCII range: one rune for each byte. *)
Definition lower_ascii (c : ascii) : ascii :=
  let n := N_of_ascii c in
  if ((65 <=? n) && (n <=? 90))%N then ascii_of_N (n + 32) else c.

Fixpoint lower_string (s : string) : string :=
  match s with
  | EmptyString => EmptyString
  | String c s' => String (lower_ascii c) (lower_string s')
  end.

Fixpoint bytes_of (s : string) : list string :=
  match s with
  | EmptyString => []
  | String c s' => String c EmptyString :: bytes_of s'
  end.

Definition ascii_text : Text :=
  {| runes := bytes_of; strings_ToLower := lower_string |}.

End Scenes.

(** * Properties *)

Section Properties.

Context {F64 : Float64} {RS : RandSource} {MO : MapOrder} {U : Util} {AC : ApiClient}.

(** ** Library facts *)

Lemma parse_digits_pretty_N_go (x : N) (s : string) :
  parse_digits (pretty_N_go x s) 0 = parse_digits s (Z.of_N x).
Proof.
  revert s. induction (N.lt_wf_0 x) as [x _ IH]. intros s.
  destruct (decide (x = 0%N)) as [->|Hx].
  - by rewrite pretty_N_go_0.
  - rewrite pretty_N_go_step by lia.
    rewrite IH by (apply N.div_lt; lia).
    assert (Hd : digit_of (pretty_N_char (x `mod` 10)) = Some (Z.of_N (x `mod` 10))).
    { assert (Hlt : (x `mod` 10 < 10)%N) by (apply N.mod_lt; lia).
      destruct (x `mod` 10)%N as [|q] eqn:E; [reflexivity|].
      do 4 (destruct q as [q|q|]; try reflexivity; try lia). }
    simpl. rewrite Hd. f_equal.
    assert (E := N.div_mod x 10 ltac:(discriminate)). lia.
Qed.

Lemma pretty_N_go_nonempty (x : N) : (0 < x)%N -> pretty_N_go x "" <> "".
Proof.
  intros Hx E.
  assert (H := parse_digits_pretty_N_go x ""). rewrite E in H. simpl in H.
  injection H. lia.
Qed.

Lemma pretty_N_go_head (x : N) (s : string) :
  (0 < x)%N -> exists c t, pretty_N_go x s = String c t /\ is_digit c = true.
Proof.
  revert s. induction (N.lt_wf_0 x) as [x _ IH]. intros s Hx.
  rewrite pretty_N_go_step by lia.
  destruct (decide (x `div` 10 = 0)%N) as [E|E].
  - rewrite E, pretty_N_go_0. eexists _, _. split; [reflexivity|].
    assert (Hlt : (x `mod` 10 < 10)%N) by (apply N.mod_lt; lia).
    destruct (x `mod` 10)%N as [|q]; [reflexivity|].
    do 4 (destruct q as [q|q|]; try reflexivity; try lia).
  - apply IH; [apply N.div_lt; lia | by apply N.neq_0_lt_0].
Qed.

(** [strconv.ParseInt] reads back what [strconv.Itoa] prints: the parse is
    the base-10 one. *)
Lemma strconv_ParseInt_Itoa (i : Z) :
  in_int64 i -> strconv_ParseInt (strconv_Itoa i) = Some i.
Proof.
  unfold in_int64, strconv_Itoa, pretty, pretty_Z. intros Hi.
  destruct i as [|q|q].
  - reflexivity.
  - unfold pretty, pretty_positive, pretty, pretty_N. rewrite decide_False by lia.
    destruct (pretty_N_go_head (N.pos q) "") as (c & t & E & Hc); [lia|].
    assert (P := parse_digits_pretty_N_go (N.pos q) ""). rewrite E in P |- *.
    unfold strconv_ParseInt.
    assert (Ascii.eqb c "+" = false) as ->.
    { destruct (Ascii.eqb_spec c "+"); [subst; discriminate|done]. }
    assert (Ascii.eqb c "-" = false) as ->.
    { destruct (Ascii.eqb_spec c "-"); [subst; discriminate|done]. }
    rewrite P. simpl parse_digits. cbv iota beta.
    rewrite !(proj2 (Z.leb_le _ _)) by (simpl; lia). reflexivity.
  - unfold pretty, pretty_positive, pretty, pretty_N. rewrite decide_False by lia.
    destruct (pretty_N_go_head (N.pos q) "") as (c & t & E & Hc); [lia|].
    assert (P := parse_digits_pretty_N_go (N.pos q) ""). rewrite E in P |- *.
    change (strconv_ParseInt ("-" +:+ String c t)) with
      (match parse_digits (String c t) 0 with
       | Some n => if ((min_int64 <=? - n) && (- n <=? max_int64))%Z
                   then Some (- n) else None
       | None => None
       end).
    rewrite P. simpl parse_digits. cbv iota beta.
    rewrite !(proj2 (Z.leb_le _ _)) by (simpl; lia). reflexivity.
Qed.

Lemma strconv_ParseInt_range (s : string) (i : Z) :
  strconv_ParseInt s = Some i -> in_int64 i.
Proof.
  unfold strconv_ParseInt, in_int64. destruct s as [|c s]; [done|].
  destruct (if Ascii.eqb c "+" then _ else _) as [neg body].
  destruct body; [done|]. destruct (parse_digits _ _) as [n|]; [|done].
  destruct (_ && _) eqn:E; [|done]. intros [= <-].
  apply andb_true_iff in E. destruct E as [E1 E2].
  apply Z.leb_le in E1, E2. done.
Qed.

(** ** The order of [range] *)

Lemma by_rank_perm {K V} (rank : K -> nat) (l : list (K * V)) : by_rank rank l ≡ₚ l.
Proof. apply merge_sort_Permutation. Qed.

Lemma by_rank_singleton {K V} (rank : K -> nat) (x : K * V) : by_rank rank [x] = [x].
Proof. apply Permutation_singleton_r. apply by_rank_perm. Qed.

Section order.
Context {K V : Type} `{EqDecision K}.

Lemma StronglySorted_by_rank_le_ext (f g : K -> nat) (l : list (K * V)) :
  (forall x y, x ∈ l -> y ∈ l -> (f x.1 <= f y.1)%nat -> (g x.1 <= g y.1)%nat) ->
  StronglySorted (by_rank_le f) l -> StronglySorted (by_rank_le g) l.
Proof.
  intros Hfg Hs. induction Hs as [|a l Hs IH Ha]; constructor.
  - apply IH. intros x y Hx Hy. apply Hfg; by apply elem_of_cons; right.
  - rewrite Forall_forall in Ha |- *. intros y Hy. apply Hfg.
    + apply elem_of_cons; by left.
    + apply elem_of_cons; by right.
    + by apply Ha.
Qed.

Lemma StronglySorted_position (l : list (K * V)) :
  NoDup l.*1 -> StronglySorted (by_rank_le (position l.*1)) l.
Proof.
  induction l as [|[k v] l IH]; intros Hnd; [constructor|].
  apply NoDup_cons in Hnd. destruct Hnd as [Hk Hnd]. constructor.
  - apply (StronglySorted_by_rank_le_ext (position l.*1)); [|by apply IH].
    intros [k1 v1] [k2 v2] H1 H2. unfold by_rank_le. simpl.
    assert (k1 <> k) by (intros ->; apply Hk; by apply (list_elem_of_fmap_2 fst _ (k, v1))).
    assert (k2 <> k) by (intros ->; apply Hk; by apply (list_elem_of_fmap_2 fst _ (k, v2))).
    rewrite !decide_False by done. intros Hle. apply le_n_S. exact Hle.
  - apply Forall_forall. intros [k' v'] _. unfold by_rank_le. simpl.
    rewrite decide_True by done. lia.
Qed.

Lemma position_inj (ks : list K) (k1 k2 : K) :
  k1 ∈ ks -> k2 ∈ ks -> position ks k1 = position ks k2 -> k1 = k2.
Proof.
  induction ks as [|k ks IH]; intros H1 H2; [by apply elem_of_nil in H1|].
  simpl. repeat case_decide; subst; try done.
  intros [= E]. apply IH; [| |done].
  - apply elem_of_cons in H1. by destruct H1.
  - apply elem_of_cons in H2. by destruct H2.
Qed.

Lemma NoDup_fst_eq (l : list (K * V)) (a b : K * V) :
  NoDup l.*1 -> a ∈ l -> b ∈ l -> a.1 = b.1 -> a = b.
Proof.
  induction l as [|c l IH]; intros Hnd Ha Hb E; [by apply elem_of_nil in Ha|].
  simpl in Hnd. apply NoDup_cons in Hnd. destruct Hnd as [Hc Hnd].
  apply elem_of_cons in Ha, Hb. destruct Ha as [->|Ha], Hb as [->|Hb]; [done| | |by apply IH].
  - destruct Hc. rewrite E. by apply list_elem_of_fmap_2.
  - destruct Hc. rewrite <- E. by apply list_elem_of_fmap_2.
Qed.

#[local] Instance by_rank_le_transitive (rank : K -> nat) :
  Transitive (by_rank_le (V := V) rank).
Proof. intros a b c. unfold by_rank_le. lia. Qed.

#[local] Instance by_rank_le_total (rank : K -> nat) :
  Total (by_rank_le (V := V) rank).
Proof. intros a b. unfold by_rank_le. lia. Qed.

(** Every order of the entries is the order of some ranking of the keys:
    the model of [range] leaves out no behaviour of Go's. *)
Lemma by_rank_complete (l l' : list (K * V)) :
  NoDup l.*1 -> l' ≡ₚ l -> exists rank, by_rank rank l = l'.
Proof.
  intros Hnd Hperm. exists (position l'.*1).
  assert (Hnd' : NoDup l'.*1) by (by rewrite Hperm).
  apply (StronglySorted_unique_strong (by_rank_le (position l'.*1))).
  - intros x1 x2 H1 H2 R1 R2. unfold by_rank_le in R1, R2.
    rewrite by_rank_perm, <- Hperm in H1.
    apply (NoDup_fst_eq l'); try done.
    apply (position_inj l'.*1); [| |lia].
    + by apply list_elem_of_fmap_2.
    + by apply list_elem_of_fmap_2.
  - apply (StronglySorted_merge_sort (by_rank_le (position l'.*1))); apply _.
  - by apply StronglySorted_position.
  - by rewrite by_rank_perm.
Qed.

End order.

Lemma range_order_complete {V} (m : gmap string V) (l' : list (string * V)) :
  l' ≡ₚ map_to_list m -> exists rank, by_rank rank (map_to_list m) = l'.
Proof. apply by_rank_complete, NoDup_fst_map_to_list. Qed.

(** ** C5: the type coercion of decoded values *)

Lemma coerce_int (value : string) (i : Z) :
  coerce value = IInt i <-> strconv_ParseInt value = Some i.
Proof.
  unfold coerce. destruct (strconv_ParseInt value) as [j|].
  - split; congruence.
  - destruct (strconv_ParseBool value); split; congruence.
Qed.

Lemma coerce_bool (value : string) (b : bool) :
  coerce value = IBool b <->
  strconv_ParseInt value = None /\ strconv_ParseBool value = Some b.
Proof.
  unfold coerce. destruct (strconv_ParseInt value) as [j|].
  - split; [congruence | intros [? _]; congruence].
  - destruct (strconv_ParseBool value); split;
      try congruence; try (intros [_ ?]; congruence); intros [= ->]; done.
Qed.

Lemma strconv_ParseBool_true (value : string) :
  strconv_ParseBool value = Some true <-> value ∈ ParseBool_true.
Proof.
  unfold strconv_ParseBool. repeat case_bool_decide; split; done.
Qed.

Lemma strconv_ParseBool_false (value : string) :
  strconv_ParseBool value = Some false <->
  value ∈ ParseBool_false /\ value ∉ ParseBool_true.
Proof.
  unfold strconv_ParseBool. repeat case_bool_decide; split; try done;
    try (intros [? ?]; done).
Qed.

(** C5 (amended). The value of a [key=value] segment is typed in priority
    order: a value that [strconv.ParseInt] reads in base 10 within 64 bits
    is an integer; failing that, the ten non-numeric spellings that
    [strconv.ParseBool] accepts ([t], [T], [TRUE], [true], [True] and
    [f], [F], [FALSE], [false], [False]) are booleans; anything else is
    kept as the string itself. The coercion is total, never yields nil or
    a float, and ["1"] is the integer 1, not [true]. *)
Theorem coerce_priority (value : string) :
  (forall i, coerce value = IInt i <-> strconv_ParseInt value = Some i) /\
  (coerce value = IBool true <-> value ∈ ["t"; "T"; "TRUE"; "true"; "True"]) /\
  (coerce value = IBool false <-> value ∈ ["f"; "F"; "FALSE"; "false"; "False"]) /\
  (forall s, coerce value = IStr s <->
     s = value /\ strconv_ParseInt value = None /\ strconv_ParseBool value = None) /\
  (exists v, coerce value = v /\ v <> INil /\ forall f, v <> IFloat f) /\
  coerce "1" = IInt 1 /\ coerce "0" = IInt 0.
Proof.
  split; [intros i; apply coerce_int|].
  split.
  { rewrite coerce_bool, strconv_ParseBool_true. unfold ParseBool_true.
    rewrite !elem_of_cons, !elem_of_nil. split.
    - intros [Hi [->|H]]; [discriminate Hi | tauto].
    - intros H. split; [|tauto].
      destruct H as [->|[->|[->|[->|[->|[]]]]]]; reflexivity. }
  split.
  { rewrite coerce_bool, strconv_ParseBool_false.
    unfold ParseBool_false, ParseBool_true.
    rewrite !elem_of_cons, !elem_of_nil. split.
    - intros [Hi [[->|H] _]]; [discriminate Hi | tauto].
    - intros H. split.
      + destruct H as [->|[->|[->|[->|[->|[]]]]]]; reflexivity.
      + split; [tauto|].
        destruct H as [->|[->|[->|[->|[->|[]]]]]];
          intros [?|[?|[?|[?|[?|[?|[]]]]]]]; discriminate. }
  split.
  { intros s. unfold coerce.
    destruct (strconv_ParseInt value) as [j|].
    - split; [congruence | intros (_ & ? & _); congruence].
    - destruct (strconv_ParseBool value).
      + split; [congruence | intros (_ & _ & ?); congruence].
      + split; [intros [= <-]; done | intros (-> & _); done]. }
  split.
  { exists (coerce value). split; [done|]. unfold coerce.
    destruct (strconv_ParseInt value); [split; congruence|].
    destruct (strconv_ParseBool value); split; congruence. }
  split; reflexivity.
Qed.

(** ** C2: the suppression rule of the generic attribute pass *)

Lemma createDeviceParam_step_app ign p e :
  createDeviceParam_step ign p e = (p ++ createDeviceParam_step ign [] e)%list.
Proof.
  unfold createDeviceParam_step. destruct e as [k v].
  destruct (inArray ign k); [by rewrite app_nil_r|].
  destruct (confValue v); by rewrite ?app_nil_r.
Qed.

Lemma createDeviceParam_entries_app p l ign :
  createDeviceParam_entries p l ign = (p ++ createDeviceParam_entries [] l ign)%list.
Proof.
  unfold createDeviceParam_entries. revert p.
  induction l as [|e l IH]; intros p; simpl.
  - by rewrite app_nil_r.
  - rewrite IH, (IH (createDeviceParam_step ign [] e)).
    rewrite (createDeviceParam_step_app ign p e). by rewrite app_assoc.
Qed.

Lemma createDeviceParam_entries_cons e l ign :
  createDeviceParam_entries [] (e :: l) ign =
  (createDeviceParam_step ign [] e ++ createDeviceParam_entries [] l ign)%list.
Proof.
  unfold createDeviceParam_entries at 1. simpl.
  apply (createDeviceParam_entries_app _ l ign).
Qed.

Lemma confValue_printed (v : iface) :
  confValue v <> INil <->
  v = IBool true \/ (exists s, v = IStr s /\ s <> "") \/ (exists i, v = IInt i /\ 0 < i).
Proof.
  destruct v as [|[]|i|f|s]; simpl.
  - split; [done|]. intros [?|[(?&?&?)|(?&?&?)]]; done.
  - split; [auto|done].
  - split; [done|]. intros [?|[(?&?&?)|(?&?&?)]]; done.
  - destruct (Z.ltb_spec 0 i).
    + split; [|done]. intros _. right. right. eauto.
    + split; [done|]. intros [?|[(?&?&?)|(?&[= <-]&?)]]; try done. lia.
  - split; [done|]. intros [?|[(?&?&?)|(?&?&?)]]; done.
  - destruct s as [|c s]; simpl.
    + split; [done|]. intros [?|[(?&[= <-]&?)|(?&?&?)]]; done.
    + split; [|done]. intros _. right. left. eauto.
Qed.

Lemma elem_of_createDeviceParam_entries t l ign :
  t ∈ createDeviceParam_entries [] l ign <->
  exists k v, (k, v) ∈ l /\ inArray ign k = false /\ confValue v <> INil /\
              t = k +:+ "=" +:+ fmtV (confValue v).
Proof.
  induction l as [|[k v] l IH].
  - split; [intros H; by apply elem_of_nil in H|].
    intros (?&?&H&_); by apply elem_of_nil in H.
  - rewrite createDeviceParam_entries_cons, elem_of_app, IH. clear IH.
    unfold createDeviceParam_step. split.
    + intros [H|(k'&v'&H&?)].
      * destruct (inArray ign k) eqn:Ei; [by apply elem_of_nil in H|].
        exists k, v. rewrite elem_of_cons.
        destruct (confValue v) eqn:Ev; [by apply elem_of_nil in H|..];
          apply list_elem_of_singleton in H; subst t;
          (split; [by left|]; split; [done|]; split; done).
      * exists k', v'. rewrite elem_of_cons. tauto.
    + intros (k'&v'&H&Hi&Hv&->). apply elem_of_cons in H.
      destruct H as [[= -> ->]|H].
      * left. rewrite Hi. destruct (confValue v) eqn:Ev; [done|..];
          by apply list_elem_of_singleton.
      * right. eauto 10.
Qed.

Lemma length_createDeviceParam_entries l ign :
  (length (createDeviceParam_entries [] l ign) <= length l)%nat.
Proof.
  induction l as [|[k v] l IH]; [done|].
  rewrite createDeviceParam_entries_cons, length_app. simpl.
  unfold createDeviceParam_step.
  destruct (inArray ign k); [simpl; lia|].
  destruct (confValue v); simpl; lia.
Qed.

(** C2. The generic attribute pass appends, to the tokens it is given, one
    token for some of the attributes of the descriptor: every token it
    appends renders an attribute whose key is not ignored and whose value
    is none of boolean false, the empty string and an integer <= 0, each
    attribute yields at most one token, and a boolean true under a key
    that is not ignored is rendered [key=1]. *)
Theorem createDeviceParam_suppression (p : QemuDeviceParam) (deviceConfMap : option loc)
    (ignoredKeys : list string) (w : World) :
  exists tokens,
    createDeviceParam p deviceConfMap ignoredKeys w = (Done (p ++ tokens)%list, next_range w) /\
    (forall t, t ∈ tokens -> exists key value,
        map_of w deviceConfMap !! key = Some value /\
        inArray ignoredKeys key = false /\
        value <> IBool false /\ value <> IStr "" /\
        (forall i, i <= 0 -> value <> IInt i) /\
        t = key +:+ "=" +:+ fmtV (confValue value)) /\
    (forall key, map_of w deviceConfMap !! key = Some (IBool true) ->
        inArray ignoredKeys key = false -> (key +:+ "=1") ∈ tokens) /\
    (length tokens <= size (map_of w deviceConfMap))%nat.
Proof.
  set (entries := by_rank (key_rank (w_ranges w)) (map_to_list (map_of w deviceConfMap))).
  assert (Hperm : entries ≡ₚ map_to_list (map_of w deviceConfMap)) by apply by_rank_perm.
  exists (createDeviceParam_entries [] entries ignoredKeys).
  split; [|split; [|split]].
  - unfold createDeviceParam, bind, range_map, range_entries, ret. fold entries.
    by rewrite createDeviceParam_entries_app.
  - intros t (k&v&Hin&Hi&Hv&->)%elem_of_createDeviceParam_entries.
    exists k, v. rewrite Hperm in Hin. apply elem_of_map_to_list in Hin.
    apply confValue_printed in Hv.
    repeat split; try done.
    + intros ->. destruct Hv as [?|[(?&?&?)|(?&?&?)]]; done.
    + intros ->. destruct Hv as [?|[(?&[= <-]&?)|(?&?&?)]]; done.
    + intros i Hle ->. destruct Hv as [?|[(?&?&?)|(?&[= <-]&?)]]; try done. lia.
  - intros k Hk Hi. apply elem_of_createDeviceParam_entries.
    exists k, (IBool true). rewrite Hperm, elem_of_map_to_list. done.
  - etrans; [apply length_createDeviceParam_entries|].
    rewrite Hperm. by rewrite length_map_to_list.
Qed.
(** ** C7: segments without [=] *)

Lemma Split_from_length_pos (cur s : string) (sep : ascii) :
  (1 <= length (Split_from cur s sep))%nat.
Proof.
  revert cur. induction s as [|c s IH]; intros cur; simpl; [lia|].
  destruct (Ascii.eqb c sep); simpl; [lia | apply IH].
Qed.

Lemma Split_from_no_sep (cur s : string) (sep : ascii) :
  char_in sep s = false -> length (Split_from cur s sep) = 1%nat.
Proof.
  revert cur. induction s as [|c s IH]; intros cur H; simpl in *; [done|].
  apply orb_false_iff in H. destruct H as [Hc Hs].
  rewrite Ascii.eqb_sym, Hc. by apply IH.
Qed.

Lemma Split_from_sep (cur s : string) (sep : ascii) :
  char_in sep s = true -> (2 <= length (Split_from cur s sep))%nat.
Proof.
  revert cur. induction s as [|c s IH]; intros cur H; simpl in *; [done|].
  rewrite Ascii.eqb_sym in H. destruct (Ascii.eqb c sep); simpl in *.
  - pose proof (Split_from_length_pos "" s sep). lia.
  - by apply IH.
Qed.


Lemma map_of_assigned (l : loc) (key : string) (v : iface) (w : World) :
  map_of (assigned l key v w) (Some l) = <[key := v]> (map_of w (Some l)).
Proof. unfold assigned, map_of. simpl. by rewrite lookup_insert_eq. Qed.

Lemma readDeviceConfig_step_good (l : loc) (confs : string) (w : World) :
  char_in "=" confs = true ->
  readDeviceConfig_step (Some l) confs w =
  (Done tt, assigned l (segment_key confs) (coerce (segment_value confs)) w).
Proof.
  intros H. apply (Split_from_sep "") in H.
  unfold readDeviceConfig_step, segment_key, segment_value, strings_Split.
  destruct (Split_from "" confs "=") as [|key [|value rest]]; simpl in H; try lia.
  reflexivity.
Qed.

Lemma readDeviceConfig_step_bad (confMap : option loc) (confs : string) (w : World) :
  char_in "=" confs = false ->
  readDeviceConfig_step confMap confs w = (Panic index_1_of_1, w).
Proof.
  intros H. apply (Split_from_no_sep "") in H.
  unfold readDeviceConfig_step, strings_Split.
  destruct (Split_from "" confs "=") as [|key [|value rest]]; simpl in H; try lia.
  reflexivity.
Qed.

Lemma readDeviceConfig_cons (confMap : option loc) (confs : string)
    (confList : list string) (w : World) :
  readDeviceConfig confMap (confs :: confList) w =
  match readDeviceConfig_step confMap confs w with
  | (Done _, w1) => readDeviceConfig confMap confList w1
  | (Panic msg, w1) => (Panic msg, w1)
  | (Exit code, w1) => (Exit code, w1)
  end.
Proof.
  unfold readDeviceConfig, bind. simpl. unfold bind.
  destruct (readDeviceConfig_step confMap confs w) as [[] ?]; reflexivity.
Qed.

(** C7 (amended). When every segment holds an [=], decoding does not fail
    and each segment is decoded into the descriptor. A segment without
    [=] is not skipped: decoding panics there with an index out of range,
    the segments before it are decoded and the segments after it are
    not. *)
Theorem readDeviceConfig_malformed_segment (confMap : loc) (good : list string)
    (bad : string) (rest : list string) (w : World) :
  Forall (fun confs => char_in "=" confs = true) good ->
  char_in "=" bad = false ->
  exists w',
    readDeviceConfig (Some confMap) good w = (Done None, w') /\
    map_of w' (Some confMap) = decoded (map_of w (Some confMap)) good /\
    readDeviceConfig (Some confMap) (good ++ bad :: rest) w = (Panic index_1_of_1, w').
Proof.
  intros Hgood Hbad. revert w.
  induction Hgood as [|confs good Hc _ IH]; intros w.
  - exists w. repeat split. rewrite app_nil_l.
    by rewrite readDeviceConfig_cons, readDeviceConfig_step_bad.
  - destruct (IH (assigned confMap (segment_key confs) (coerce (segment_value confs)) w))
      as (w' & H1 & H2 & H3).
    exists w'. rewrite <- app_comm_cons.
    rewrite !readDeviceConfig_cons, readDeviceConfig_step_good by done.
    repeat split; [done| |done].
    rewrite H2, map_of_assigned. done.
Qed.

(** ** Running the encoders *)

Lemma createDeviceParam_run (p : QemuDeviceParam) (r : option loc)
    (ign : list string) (w : World) :
  createDeviceParam p r ign w = (Done (p ++ device_tokens w r ign)%list, next_range w).
Proof.
  unfold createDeviceParam, bind, range_map, range_entries, ret, device_tokens.
  by rewrite createDeviceParam_entries_app.
Qed.

Ltac mstep :=
  cbn beta iota delta [assert_string ret fst snd String.eqb Ascii.eqb Bool.eqb].

Lemma assert_string_IStr (s : string) (w : World) : assert_string (IStr s) w = (Done s, w).
Proof. reflexivity. Qed.

Lemma CreateQemuDisksParams_body_create (vmID : Z) (params : option loc)
    (idx : Z) (l : loc) (w : World) (ty sz ch : string) :
  attr (map_of w (Some l)) "type" = IStr ty ->
  attr (map_of w (Some l)) "size" = IStr sz ->
  attr (map_of w (Some l)) "cache" = IStr ch ->
  CreateQemuDisksParams_body vmID "create" params (idx, Some l) w =
  map_assign params (ty +:+ strconv_Itoa idx)
    (IStr (strings_Join
       ([fmtV (attr (map_of w (Some l)) "storage") +:+ ":" +:+ strings_Trim sz "G"]
          ++ cache_token ch ++ device_tokens w (Some l) disk_ignoredKeys)%list ","))
    (next_range w).
Proof.
  intros Hty Hsz Hch.
  unfold CreateQemuDisksParams_body, bind, map_index.
  mstep. rewrite Hty. mstep. rewrite Hsz. mstep. rewrite Hch. mstep.
  rewrite createDeviceParam_run. mstep.
  unfold cache_token. destruct (String.eqb ch "none"); reflexivity.
Qed.

Lemma CreateQemuDisksParams_body_update (vmID : Z) (params : option loc)
    (idx : Z) (l : loc) (w : World) (ty sty ch : string) :
  attr (map_of w (Some l)) "type" = IStr ty ->
  attr (map_of w (Some l)) "storage_type" = IStr sty ->
  attr (map_of w (Some l)) "cache" = IStr ch ->
  CreateQemuDisksParams_body vmID "update" params (idx, Some l) w =
  map_assign params (ty +:+ strconv_Itoa idx)
    (IStr (strings_Join
       (["size=" +:+ fmtV (attr (map_of w (Some l)) "size");
         update_file (map_of w (Some l)) sty vmID idx]
          ++ cache_token ch ++ device_tokens w (Some l) disk_ignoredKeys)%list ","))
    (next_range w).
Proof.
  intros Hty Hsty Hch.
  unfold CreateQemuDisksParams_body, bind, map_index.
  mstep. rewrite Hty. mstep. rewrite Hsty. mstep. rewrite Hch. mstep.
  rewrite createDeviceParam_run. mstep.
  unfold cache_token, update_file. destruct (String.eqb ch "none"); reflexivity.
Qed.

Lemma forM_singleton {A} (x : A) (body : A -> M unit) (w : World) :
  forM [x] body w = body x w.
Proof.
  unfold forM, bind, ret. destruct (body x w) as [[[]| |] ?]; reflexivity.
Qed.

Lemma table_of_Some (w : World) (t : loc) (T : gmap Z (option loc)) :
  w_tables w !! t = Some T -> table_of w (Some t) = T.
Proof. unfold table_of. by intros ->. Qed.

Lemma CreateQemuDisksParams_singleton (c : ConfigQemu) (vmID : Z) (action : string)
    (params : option loc) (w : World) (idx : Z) (d : option loc) :
  table_of w (QemuDisks c) = {[idx := d]} ->
  CreateQemuDisksParams c vmID action params w =
  (do _ <- CreateQemuDisksParams_body vmID action params (idx, d); ret None)
    (next_range w).
Proof.
  intros HT.
  unfold CreateQemuDisksParams, bind at 1, table_len. rewrite HT, map_size_singleton.
  cbn [Nat.eqb andb]. unfold bind at 1, ret at 1, bind at 1, range_table.
  change (table_of (w) (QemuDisks c)) with (table_of w (QemuDisks c)).
  rewrite HT, map_to_list_singleton, by_rank_singleton.
  unfold bind. rewrite forM_singleton.
  destruct (CreateQemuDisksParams_body _ _ _ _ _) as [[[]| |] ?]; reflexivity.
Qed.

(** ** C8 and C3: the positional tokens of a disk *)

(** C8 (amended). Under the [create] action, a disk descriptor whose
    [type], [size] and [cache] attributes are strings is encoded under the
    key [<type><index>]; the value starts with the positional token
    [<storage>:<size>], the size with its leading and trailing [G]
    removed, followed by a [cache=] token unless the cache is [none] and
    by the generic attributes. (A descriptor without a [cache] attribute
    is not encoded: the encoder panics.) *)
Theorem create_disk_encoding (c : ConfigQemu) (vmID : Z) (params : loc) (w : World)
    (t : loc) (idx : Z) (l : loc) (ty sz ch : string) :
  QemuDisks c = Some t ->
  w_tables w !! t = Some {[idx := Some l]} ->
  attr (map_of w (Some l)) "type" = IStr ty ->
  attr (map_of w (Some l)) "size" = IStr sz ->
  attr (map_of w (Some l)) "cache" = IStr ch ->
  exists w',
    CreateQemuDisksParams c vmID "create" (Some params) w = (Done None, w') /\
    map_of w' (Some params) !! (ty +:+ strconv_Itoa idx) =
      Some (IStr (strings_Join
        ([fmtV (attr (map_of w (Some l)) "storage") +:+ ":" +:+ strings_Trim sz "G"]
           ++ cache_token ch
           ++ device_tokens (next_range w) (Some l) disk_ignoredKeys)%list ",")).
Proof.
  intros Hc HT Hty Hsz Hch.
  rewrite (CreateQemuDisksParams_singleton c vmID "create" (Some params) w idx (Some l))
    by (rewrite Hc; by apply table_of_Some).
  unfold bind.
  rewrite (CreateQemuDisksParams_body_create vmID (Some params) idx l (next_range w) ty sz ch)
    by done.
  unfold map_assign, ret. eexists. split; [reflexivity|].
  by rewrite map_of_assigned, lookup_insert_eq.
Qed.

(** C3 (amended). Under the [update] action, a disk descriptor whose
    [type], [storage_type] and [cache] attributes are strings is encoded
    under the key [<type><index>]; the value starts with [size=<size>],
    then the [file=] token, [<storage>:vm-<vmid>-disk-<index+1>] when the
    storage type contains [zfspool] or [lvm] and
    [<storage>:<vmid>/vm-<vmid>-disk-<index+1>.<format>] otherwise,
    followed by a [cache=] token unless the cache is [none] and by the
    generic attributes, [format] among them. (A descriptor without a
    [cache] attribute is not encoded: the encoder panics.) *)
Theorem update_disk_encoding (c : ConfigQemu) (vmID : Z) (params : loc) (w : World)
    (t : loc) (idx : Z) (l : loc) (ty sty ch : string) :
  QemuDisks c = Some t ->
  w_tables w !! t = Some {[idx := Some l]} ->
  attr (map_of w (Some l)) "type" = IStr ty ->
  attr (map_of w (Some l)) "storage_type" = IStr sty ->
  attr (map_of w (Some l)) "cache" = IStr ch ->
  exists w',
    CreateQemuDisksParams c vmID "update" (Some params) w = (Done None, w') /\
    map_of w' (Some params) !! (ty +:+ strconv_Itoa idx) =
      Some (IStr (strings_Join
        (("size=" +:+ fmtV (attr (map_of w (Some l)) "size"))
           :: (if matches_rxStorageTypes sty then
                 "file=" +:+ fmtV (attr (map_of w (Some l)) "storage")
                   +:+ ":vm-" +:+ strconv_Itoa vmID
                   +:+ "-disk-" +:+ strconv_Itoa (wrap64 (idx + 1))
               else
                 "file=" +:+ fmtV (attr (map_of w (Some l)) "storage")
                   +:+ ":" +:+ strconv_Itoa vmID
                   +:+ "/vm-" +:+ strconv_Itoa vmID
                   +:+ "-disk-" +:+ strconv_Itoa (wrap64 (idx + 1))
                   +:+ "." +:+ fmtV (attr (map_of w (Some l)) "format"))
           :: cache_token ch
           ++ device_tokens (next_range w) (Some l) disk_ignoredKeys)%list ",")).
Proof.
  intros Hc HT Hty Hsty Hch.
  rewrite (CreateQemuDisksParams_singleton c vmID "update" (Some params) w idx (Some l))
    by (rewrite Hc; by apply table_of_Some).
  unfold bind.
  rewrite (CreateQemuDisksParams_body_update vmID (Some params) idx l (next_range w) ty sty ch)
    by done.
  unfold map_assign, ret. eexists. split; [reflexivity|].
  by rewrite map_of_assigned, lookup_insert_eq.
Qed.

(** ** Frames *)

Section keeps.
Context (R : World -> World -> Prop) `{!PreOrder R}.

Lemma keeps_ret {A} (a : A) : keeps R (ret a).
Proof. intros w. reflexivity. Qed.

Lemma keeps_panic {A} (msg : string) : keeps R (panic (A := A) msg).
Proof. intros w. reflexivity. Qed.

Lemma keeps_bind {A B} (m : M A) (k : A -> M B) :
  keeps R m -> (forall a, keeps R (k a)) -> keeps R (bind m k).
Proof.
  intros Hm Hk w. unfold bind. specialize (Hm w).
  destruct (m w) as [[a|msg|code] w1]; simpl in *; [|done..].
  etrans; [exact Hm | apply Hk].
Qed.

Lemma keeps_forM {A} (l : list A) (body : A -> M unit) :
  Forall (fun x => keeps R (body x)) l -> keeps R (forM l body).
Proof.
  induction 1 as [|x l Hx _ IH]; simpl.
  - apply keeps_ret.
  - apply keeps_bind; [done | intros _; exact IH].
Qed.

Lemma keeps_assert_string (v : iface) : keeps R (assert_string v).
Proof. destruct v; simpl; first [apply keeps_ret | apply keeps_panic]. Qed.

End keeps.

#[local] Instance quiet_preorder : PreOrder quiet.
Proof.
  split.
  - intros w. by repeat split.
  - intros w1 w2 w3 (?&?&?&?) (?&?&?&?). repeat split; congruence.
Qed.

Lemma quiet_map_index r key : keeps quiet (map_index r key).
Proof. intros w. reflexivity. Qed.

Lemma quiet_map_assign r key v : keeps quiet (map_assign r key v).
Proof. intros w. destruct r; by repeat split. Qed.

Lemma quiet_make_map m : keeps quiet (make_map m).
Proof. intros w. by repeat split. Qed.

Lemma quiet_createDeviceParam p r ign : keeps quiet (createDeviceParam p r ign).
Proof. intros w. rewrite createDeviceParam_run. by repeat split. Qed.

Lemma quiet_rand_Seed seed : keeps quiet (rand_Seed seed).
Proof. intros w. by repeat split. Qed.

Lemma quiet_rand_Read n : keeps quiet (rand_Read n).
Proof. intros w. unfold rand_Read. destruct (draw n (w_rand w)). by repeat split. Qed.

Lemma quiet_range_table r : keeps quiet (range_table r).
Proof. intros w. by repeat split. Qed.

Ltac quiet_steps :=
  repeat first
    [ apply quiet_map_index | apply keeps_assert_string; apply _
    | apply quiet_createDeviceParam | apply quiet_map_assign
    | apply quiet_make_map | apply quiet_range_table
    | apply quiet_rand_Seed | apply quiet_rand_Read
    | apply keeps_ret; apply _
    | apply keeps_bind; [apply _| |intros ?]
    | match goal with |- keeps _ (if ?b then _ else _) => destruct b end ].

Lemma quiet_disk_body vmID action params entry :
  keeps quiet (CreateQemuDisksParams_body vmID action params entry).
Proof.
  destruct entry as [diskID diskConfMap]. unfold CreateQemuDisksParams_body.
  quiet_steps.
Qed.

Lemma quiet_nic_body vmID params entry :
  keeps quiet (CreateQemuNetworksParams_body vmID params entry).
Proof.
  destruct entry as [nicID nicConfMap]. unfold CreateQemuNetworksParams_body.
  quiet_steps.
Qed.


(** ** C10 and C6: the legacy normaliser *)

Lemma size_nonempty {K V} `{Countable K} (T : gmap K V) :
  T <> ∅ -> (size T =? 0)%nat = false.
Proof. intros HT. apply Nat.eqb_neq. by rewrite map_size_empty_iff. Qed.

Lemma length_nonempty (s : string) : s <> "" -> (0 <? String.length s)%nat = true.
Proof. destruct s; [done | reflexivity]. Qed.

Lemma CreateQemuDisksParams_modern (c : ConfigQemu) (vmID : Z) (action : string)
    (params : option loc) (w : World) :
  table_of w (QemuDisks c) <> ∅ ->
  CreateQemuDisksParams c vmID action params w =
  (do entries <- range_table (QemuDisks c);
   do _ <- forM entries (CreateQemuDisksParams_body vmID action params);
   ret None) w.
Proof.
  intros HT. unfold CreateQemuDisksParams. unfold bind at 1. unfold table_len.
  cbn beta iota. rewrite (size_nonempty _ HT). reflexivity.
Qed.

Lemma CreateQemuNetworksParams_modern (c : ConfigQemu) (vmID : Z)
    (params : option loc) (w : World) :
  table_of w (QemuNetworks c) <> ∅ ->
  CreateQemuNetworksParams c vmID params w =
  (do entries <- range_table (QemuNetworks c);
   do _ <- forM entries (CreateQemuNetworksParams_body vmID params);
   ret None) w.
Proof.
  intros HT. unfold CreateQemuNetworksParams. unfold bind at 1. unfold table_len.
  cbn beta iota. rewrite (size_nonempty _ HT). reflexivity.
Qed.

Lemma CreateQemuDisksParams_legacy (c : ConfigQemu) (vmID : Z) (action : string)
    (params : option loc) (w : World) (t : loc) :
  QemuDisks c = Some t -> w_tables w !! t = Some ∅ -> Storage c <> "" ->
  CreateQemuDisksParams c vmID action params w =
  (do _ <- CreateQemuDisksParams_body vmID action params
             (0, Some (fresh (dom (w_maps w))));
   ret None) (synthesized t (deprecated_disk c) w).
Proof.
  intros Hc HT Hs. unfold CreateQemuDisksParams. unfold bind at 1. unfold table_len.
  cbn beta iota. rewrite Hc, (table_of_Some _ _ _ HT), map_size_empty.
  rewrite (length_nonempty _ Hs). cbn [Nat.eqb andb].
  unfold bind at 1. unfold bind at 1. unfold make_map at 1. cbn beta iota.
  unfold table_assign at 1. cbn beta iota.
  change (table_of (set_maps ?f w) (Some t)) with (table_of w (Some t)).
  rewrite (table_of_Some _ _ _ HT), insert_empty.
  unfold bind at 1. unfold range_table at 1. cbn beta iota.
  unfold synthesized.
  set (l := fresh (dom (w_maps w))).
  match goal with |- context [by_rank ?r (map_to_list ?T)] =>
    assert (HT' : T = {[0 := Some l]}) end.
  { unfold table_of, set_tables, set_maps. simpl. by rewrite lookup_insert_eq. }
  rewrite HT', map_to_list_singleton, by_rank_singleton.
  unfold bind. rewrite forM_singleton. reflexivity.
Qed.

Lemma CreateQemuNetworksParams_legacy (c : ConfigQemu) (vmID : Z)
    (params : option loc) (w : World) (t : loc) :
  QemuNetworks c = Some t -> w_tables w !! t = Some ∅ -> QemuNicModel c <> "" ->
  CreateQemuNetworksParams c vmID params w =
  (do _ <- CreateQemuNetworksParams_body vmID params
             (0, Some (fresh (dom (w_maps w))));
   ret None) (synthesized t (deprecated_nic c) w).
Proof.
  intros Hc HT Hs. unfold CreateQemuNetworksParams. unfold bind at 1. unfold table_len.
  cbn beta iota. rewrite Hc, (table_of_Some _ _ _ HT), map_size_empty.
  rewrite (length_nonempty _ Hs). cbn [Nat.eqb andb].
  unfold bind at 1. unfold bind at 1. unfold make_map at 1. cbn beta iota.
  unfold table_assign at 1. cbn beta iota.
  change (table_of (set_maps ?f w) (Some t)) with (table_of w (Some t)).
  rewrite (table_of_Some _ _ _ HT), insert_empty.
  unfold bind at 1. unfold range_table at 1. cbn beta iota.
  unfold synthesized.
  set (l := fresh (dom (w_maps w))).
  match goal with |- context [by_rank ?r (map_to_list ?T)] =>
    assert (HT' : T = {[0 := Some l]}) end.
  { unfold table_of, set_tables, set_maps. simpl. by rewrite lookup_insert_eq. }
  rewrite HT', map_to_list_singleton, by_rank_singleton.
  unfold bind. rewrite forM_singleton. reflexivity.
Qed.

Lemma CreateQemuDisksParams_nil (c : ConfigQemu) (vmID : Z) (action : string)
    (params : option loc) (w : World) :
  QemuDisks c = None -> Storage c <> "" ->
  CreateQemuDisksParams c vmID action params w =
  (Panic nil_map_msg,
   set_maps (fun h => <[fresh (dom (w_maps w)) := deprecated_disk c]> h) w).
Proof.
  intros Hc Hs. unfold CreateQemuDisksParams. unfold bind at 1. unfold table_len.
  cbn beta iota. rewrite Hc. unfold table_of. rewrite map_size_empty.
  rewrite (length_nonempty _ Hs). reflexivity.
Qed.

Lemma CreateQemuNetworksParams_nil (c : ConfigQemu) (vmID : Z)
    (params : option loc) (w : World) :
  QemuNetworks c = None -> QemuNicModel c <> "" ->
  CreateQemuNetworksParams c vmID params w =
  (Panic nil_map_msg,
   set_maps (fun h => <[fresh (dom (w_maps w)) := deprecated_nic c]> h) w).
Proof.
  intros Hc Hs. unfold CreateQemuNetworksParams. unfold bind at 1. unfold table_len.
  cbn beta iota. rewrite Hc. unfold table_of. rewrite map_size_empty.
  rewrite (length_nonempty _ Hs). reflexivity.
Qed.

Lemma lookup_fresh_insert {V} (h : gmap loc V) (v : V) (l : loc) (x : V) :
  h !! l = Some x -> <[fresh (dom h) := v]> h !! l = Some x.
Proof.
  intros Hl. rewrite lookup_insert_ne; [done|].
  intros <-. apply (is_fresh (dom h)). apply elem_of_dom. eauto.
Qed.

(** C10. With a nil device table and a non-empty deprecated field, the
    legacy normaliser panics on the assignment into the nil map: neither
    [CreateQemuDisksParams] nor [CreateQemuNetworksParams] completes, no
    device is encoded, and every map and table of the store, the
    parameter map among them, is left as it was. *)
Theorem nil_table_legacy_panics (c : ConfigQemu) (vmID : Z) (action : string)
    (params : option loc) (w : World) :
  (QemuDisks c = None -> Storage c <> "" ->
   exists w',
     CreateQemuDisksParams c vmID action params w = (Panic nil_map_msg, w') /\
     w_tables w' = w_tables w /\ w_trace w' = w_trace w /\
     forall l m, w_maps w !! l = Some m -> w_maps w' !! l = Some m) /\
  (QemuNetworks c = None -> QemuNicModel c <> "" ->
   exists w',
     CreateQemuNetworksParams c vmID params w = (Panic nil_map_msg, w') /\
     w_tables w' = w_tables w /\ w_trace w' = w_trace w /\
     forall l m, w_maps w !! l = Some m -> w_maps w' !! l = Some m).
Proof.
  split; intros Hc Hs.
  - rewrite CreateQemuDisksParams_nil by done. eexists. split; [reflexivity|].
    repeat split. intros l m Hl. by apply lookup_fresh_insert.
  - rewrite CreateQemuNetworksParams_nil by done. eexists. split; [reflexivity|].
    repeat split. intros l m Hl. by apply lookup_fresh_insert.
Qed.

Lemma quiet_forM_disks vmID action params entries :
  keeps quiet (forM entries (CreateQemuDisksParams_body vmID action params)).
Proof.
  apply keeps_forM; [apply _|]. apply Forall_forall. intros ? _. apply quiet_disk_body.
Qed.

Lemma quiet_forM_nics vmID params entries :
  keeps quiet (forM entries (CreateQemuNetworksParams_body vmID params)).
Proof.
  apply keeps_forM; [apply _|]. apply Forall_forall. intros ? _. apply quiet_nic_body.
Qed.

(** C6. The deprecated fields are synthesized only into an empty table.
    When the disk (resp. network) table holds an entry, the run does not
    depend on the deprecated fields -- any specification with the same
    table runs alike -- and the table is left as it was, its index 0
    included. When the table is initialized and empty and the deprecated
    field is not empty, one descriptor made of the deprecated fields is
    put in a fresh map at index 0 and the device loop then visits exactly
    that entry. *)
Theorem legacy_synthesis_exclusive (c : ConfigQemu) (vmID : Z) (action : string)
    (params : option loc) (w : World) :
  (table_of w (QemuDisks c) <> ∅ ->
   (forall c', QemuDisks c' = QemuDisks c ->
      CreateQemuDisksParams c' vmID action params w =
      CreateQemuDisksParams c vmID action params w) /\
   w_tables (CreateQemuDisksParams c vmID action params w).2 = w_tables w) /\
  (table_of w (QemuNetworks c) <> ∅ ->
   (forall c', QemuNetworks c' = QemuNetworks c ->
      CreateQemuNetworksParams c' vmID params w =
      CreateQemuNetworksParams c vmID params w) /\
   w_tables (CreateQemuNetworksParams c vmID params w).2 = w_tables w) /\
  (forall t, QemuDisks c = Some t -> w_tables w !! t = Some ∅ -> Storage c <> "" ->
   let l := fresh (dom (w_maps w)) in
   let w1 := synthesized t (deprecated_disk c) w in
   w_maps w !! l = None /\
   w_maps w1 = <[l := deprecated_disk c]> (w_maps w) /\
   w_tables w1 = <[t := {[0 := Some l]}]> (w_tables w) /\
   CreateQemuDisksParams c vmID action params w =
     (do _ <- CreateQemuDisksParams_body vmID action params (0, Some l); ret None) w1 /\
   w_tables (CreateQemuDisksParams c vmID action params w).2 =
     <[t := {[0 := Some l]}]> (w_tables w)) /\
  (forall t, QemuNetworks c = Some t -> w_tables w !! t = Some ∅ -> QemuNicModel c <> "" ->
   let l := fresh (dom (w_maps w)) in
   let w1 := synthesized t (deprecated_nic c) w in
   w_maps w !! l = None /\
   w_maps w1 = <[l := deprecated_nic c]> (w_maps w) /\
   w_tables w1 = <[t := {[0 := Some l]}]> (w_tables w) /\
   CreateQemuNetworksParams c vmID params w =
     (do _ <- CreateQemuNetworksParams_body vmID params (0, Some l); ret None) w1 /\
   w_tables (CreateQemuNetworksParams c vmID params w).2 =
     <[t := {[0 := Some l]}]> (w_tables w)).
Proof.
  split; [|split; [|split]].
  - intros HT. split.
    + intros c' Hc'. rewrite !CreateQemuDisksParams_modern by (by rewrite ?Hc').
      by rewrite Hc'.
    + rewrite CreateQemuDisksParams_modern by done.
      assert (K : keeps quiet
        (do entries <- range_table (QemuDisks c);
         do _ <- forM entries (CreateQemuDisksParams_body vmID action params);
         ret (@None error))).
      { quiet_steps. apply quiet_forM_disks. }
      apply (K w).
  - intros HT. split.
    + intros c' Hc'. rewrite !CreateQemuNetworksParams_modern by (by rewrite ?Hc').
      by rewrite Hc'.
    + rewrite CreateQemuNetworksParams_modern by done.
      assert (K : keeps quiet
        (do entries <- range_table (QemuNetworks c);
         do _ <- forM entries (CreateQemuNetworksParams_body vmID params);
         ret (@None error))).
      { quiet_steps. apply quiet_forM_nics. }
      apply (K w).
  - intros t Hc HT Hs l w1.
    split; [apply not_elem_of_dom; apply is_fresh|].
    split; [reflexivity|]. split; [reflexivity|].
    rewrite (CreateQemuDisksParams_legacy c vmID action params w t) by done.
    split; [reflexivity|].
    assert (K : keeps quiet
      (do _ <- CreateQemuDisksParams_body vmID action params (0, Some l); ret (@None error))).
    { quiet_steps. }
    exact (proj1 (K w1)).
  - intros t Hc HT Hs l w1.
    split; [apply not_elem_of_dom; apply is_fresh|].
    split; [reflexivity|]. split; [reflexivity|].
    rewrite (CreateQemuNetworksParams_legacy c vmID params w t) by done.
    split; [reflexivity|].
    assert (K : keeps quiet
      (do _ <- CreateQemuNetworksParams_body vmID params (0, Some l); ret (@None error))).
    { quiet_steps. }
    exact (proj1 (K w1)).
Qed.

(** X28. In this revision the descriptor made of the deprecated fields lacks
    the [type] (resp. [macaddr]) attribute that the device loop asserts to
    be a string: the loop panics on it. *)
Lemma legacy_descriptor_panics (c : ConfigQemu) (vmID : Z) (action : string)
    (params : option loc) (w : World) (t : loc) :
  w_tables w !! t = Some ∅ ->
  (QemuDisks c = Some t -> Storage c <> "" ->
   (CreateQemuDisksParams c vmID action params w).1 =
     Panic "interface conversion: interface {} is nil, not string") /\
  (QemuNetworks c = Some t -> QemuNicModel c <> "" ->
   (CreateQemuNetworksParams c vmID params w).1 =
     Panic "interface conversion: interface {} is nil, not string").
Proof.
  intros HT. split; intros Hc Hs.
  - rewrite (CreateQemuDisksParams_legacy c vmID action params w t) by done.
    unfold bind at 1, CreateQemuDisksParams_body, bind at 1, map_index.
    cbn beta iota.
    assert (E : attr (map_of (synthesized t (deprecated_disk c) w)
                        (Some (fresh (dom (w_maps w))))) "type" = INil).
    { unfold attr, map_of, synthesized. simpl. rewrite lookup_insert_eq. reflexivity. }
    unfold bind at 1. rewrite E. reflexivity.
  - rewrite (CreateQemuNetworksParams_legacy c vmID params w t) by done.
    unfold bind at 1, CreateQemuNetworksParams_body, bind at 1, map_index.
    cbn beta iota.
    assert (E : attr (map_of (synthesized t (deprecated_nic c) w)
                        (Some (fresh (dom (w_maps w))))) "macaddr" = INil).
    { unfold attr, map_of, synthesized, deprecated_nic. simpl. rewrite lookup_insert_eq.
      simpl. destruct (0 <? QemuVlanTag c)%Z; reflexivity. }
    unfold bind at 1. rewrite E. reflexivity.
Qed.

(** ** C4: generated MAC addresses *)

Lemma length_draw (n : nat) (r : RngState) : length (draw n r).1 = n.
Proof.
  revert r. induction n as [|n IH]; intros r; simpl; [done|].
  destruct (rng_byte r) as [b r']. specialize (IH r').
  destruct (draw n r') as [bs r'']. simpl in *. by rewrite IH.
Qed.

Lemma upper_hex_high (b : byte) :
  is_upper_hex (upper_ascii (hexDigit (N.shiftr (Byte.to_N b) 4))) = true.
Proof. destruct b; reflexivity. Qed.

Lemma upper_hex_low (b : byte) :
  is_upper_hex (upper_ascii (hexDigit (N.land (Byte.to_N b) 15))) = true.
Proof. destruct b; reflexivity. Qed.

Lemma is_mac_groups_step (n : nat) (a b c : ascii) (rest : string) :
  is_mac_groups (S (S n)) (String a (String b (String c rest))) =
  is_upper_hex a && is_upper_hex b && Ascii.eqb c ":" && is_mac_groups (S n) rest.
Proof. reflexivity. Qed.

Lemma is_mac_groups_HardwareAddr (bs : list byte) :
  bs <> [] ->
  is_mac_groups (length bs) (strings_ToUpper (HardwareAddr_String bs)) = true.
Proof.
  induction bs as [|b bs IH]; [done|]. intros _.
  destruct bs as [|b' bs].
  - simpl. by rewrite upper_hex_high, upper_hex_low.
  - specialize (IH ltac:(done)).
    change (HardwareAddr_String (b :: b' :: bs)) with
      (String (hexDigit (N.shiftr (Byte.to_N b) 4))
         (String (hexDigit (N.land (Byte.to_N b) 15))
            (String ":" (HardwareAddr_String (b' :: bs))))).
    change (length (b :: b' :: bs)) with (S (S (length bs))).
    change (length (b' :: bs)) with (S (length bs)) in IH.
    cbn [strings_ToUpper]. rewrite is_mac_groups_step.
    by rewrite upper_hex_high, upper_hex_low, IH.
Qed.

Lemma generated_mac_format (vmID nicID : Z) :
  is_upper_mac (generated_mac vmID nicID) = true.
Proof.
  unfold is_upper_mac, generated_mac.
  set (bs := (draw 6 (rng_seed (wrap64 (vmID + nicID)))).1).
  assert (Hlen : length bs = 6%nat) by apply length_draw.
  rewrite <- Hlen. apply is_mac_groups_HardwareAddr.
  intros E. by rewrite E in Hlen.
Qed.

Lemma attr_insert_ne (m : gmap string iface) (k k' : string) (v : iface) :
  k <> k' -> attr (<[k := v]> m) k' = attr m k'.
Proof. intros H. unfold attr. by rewrite lookup_insert_ne. Qed.

Lemma attr_insert_eq (m : gmap string iface) (k : string) (v : iface) :
  attr (<[k := v]> m) k = v.
Proof. unfold attr. by rewrite lookup_insert_eq. Qed.

Lemma CreateQemuNetworksParams_body_generate (vmID : Z) (params : option loc)
    (nicID : Z) (l : loc) (w : World) :
  attr (map_of w (Some l)) "macaddr" = IStr "" ->
  CreateQemuNetworksParams_body vmID params (nicID, Some l) w =
  (do bridge <- assert_string (attr (map_of w (Some l)) "bridge");
   do nicConfParam <-
     createDeviceParam
       (["macaddr=" +:+ generated_mac vmID nicID] ++ bridge_token bridge)%list
       (Some l) nic_ignoredKeys;
   map_assign params ("net" +:+ strconv_Itoa nicID)
     (IStr (strings_Join nicConfParam ",")))
    (mac_written vmID nicID l w).
Proof.
  intros Hmac.
  unfold CreateQemuNetworksParams_body. unfold bind at 1. unfold map_index at 1.
  cbn beta iota. rewrite Hmac. unfold bind at 1. unfold assert_string at 1.
  unfold ret at 1. cbn beta iota. cbn [String.eqb].
  unfold bind at 1. unfold bind at 1. unfold rand_Seed at 1. cbn beta iota.
  unfold bind at 1. unfold rand_Read at 1.
  change (w_rand (set_rand ?r w)) with r.
  unfold mac_written, generated_mac.
  destruct (draw 6 (rng_seed (wrap64 (vmID + nicID)))) as [bs r] eqn:Ed.
  cbn beta iota. unfold bind at 1. unfold map_assign at 1. cbn beta iota.
  unfold ret at 1. cbn beta iota.
  unfold bind at 1. unfold map_index at 1. cbn beta iota.
  change (set_rand r (set_rand (rng_seed (wrap64 (vmID + nicID))) w)) with (set_rand r w).
  cbn [fst snd].
  set (w' := assigned l "macaddr" _ _).
  assert (Hb : attr (map_of w' (Some l)) "bridge" = attr (map_of w (Some l)) "bridge").
  { unfold w'. rewrite map_of_assigned. by apply attr_insert_ne. }
  rewrite Hb. unfold bind at 1 3.
  destruct (assert_string (attr (map_of w (Some l)) "bridge") w') as [[br| |] w''] eqn:Ea;
    [|reflexivity..].
  assert (Hv : attr (map_of w (Some l)) "bridge" = IStr br /\ w'' = w').
  { destruct (attr (map_of w (Some l)) "bridge"); try discriminate Ea.
    injection Ea as -> ->. done. }
  destruct Hv as [Hv ->]. rewrite Hv.
  unfold bridge_token. cbn [fmtV].
  destruct (String.eqb br "nat"); reflexivity.
Qed.

#[local] Instance same_attr_preorder l key : PreOrder (same_attr l key).
Proof.
  split.
  - intros w. reflexivity.
  - intros w1 w2 w3 H1 H2. unfold same_attr in *. congruence.
Qed.

Lemma same_attr_map_assign (l : loc) (key : string) (r : option loc)
    (key' : string) (v : iface) :
  key' <> key -> keeps (same_attr l key) (map_assign r key' v).
Proof.
  intros Hne w. unfold map_assign. destruct r as [l'|]; [|reflexivity].
  unfold same_attr. cbn [snd]. destruct (decide (l' = l)) as [->|Hl].
  - rewrite map_of_assigned. by apply attr_insert_ne.
  - unfold assigned, map_of. simpl. by rewrite lookup_insert_ne.
Qed.

Lemma same_attr_createDeviceParam l key p r ign :
  keeps (same_attr l key) (createDeviceParam p r ign).
Proof. intros w. rewrite createDeviceParam_run. reflexivity. Qed.

Lemma written_mac_stays (vmID : Z) (params : option loc) (nicID : Z) (l : loc) (w : World) :
  attr (map_of w (Some l)) "macaddr" = IStr "" ->
  attr (map_of (CreateQemuNetworksParams_body vmID params (nicID, Some l) w).2 (Some l))
    "macaddr" = IStr (generated_mac vmID nicID).
Proof.
  intros Hmac. rewrite CreateQemuNetworksParams_body_generate by done.
  match goal with |- context [(?m (mac_written vmID nicID l w)).2] =>
    assert (K : keeps (same_attr l "macaddr") m) end.
  { apply keeps_bind; [apply _|apply keeps_assert_string; apply _|intros br].
    apply keeps_bind; [apply _|apply same_attr_createDeviceParam|intros p].
    apply same_attr_map_assign. discriminate. }
  rewrite (K (mac_written vmID nicID l w)).
  unfold mac_written. rewrite map_of_assigned. apply attr_insert_eq.
Qed.

(** C4. A network descriptor whose [macaddr] is the empty string when it
    is encoded gets the address [generated_mac vmID nicID]: six bytes
    drawn from the generator seeded with [vmID + nicID], as upper-case
    hexadecimal pairs separated by colons. Two encodings for the same VM
    id and NIC index, in any two stores, write the same address back into
    their descriptors; when the bridge is a string and the parameter map
    is not nil the encoding completes and the [net<index>] value starts
    with the token [macaddr=<address>]. *)
Theorem generated_mac_deterministic (vmID nicID : Z) (params1 params2 : option loc)
    (l1 l2 : loc) (w1 w2 : World) :
  attr (map_of w1 (Some l1)) "macaddr" = IStr "" ->
  attr (map_of w2 (Some l2)) "macaddr" = IStr "" ->
  let mac := generated_mac vmID nicID in
  let run1 := CreateQemuNetworksParams_body vmID params1 (nicID, Some l1) w1 in
  let run2 := CreateQemuNetworksParams_body vmID params2 (nicID, Some l2) w2 in
  is_upper_mac mac = true /\
  attr (map_of run1.2 (Some l1)) "macaddr" = IStr mac /\
  attr (map_of run2.2 (Some l2)) "macaddr" = IStr mac /\
  (forall p bridge,
     params1 = Some p -> attr (map_of w1 (Some l1)) "bridge" = IStr bridge ->
     run1.1 = Done tt /\
     map_of run1.2 (Some p) !! ("net" +:+ strconv_Itoa nicID) =
       Some (IStr (strings_Join
         (("macaddr=" +:+ mac)
            :: bridge_token bridge
            ++ device_tokens (mac_written vmID nicID l1 w1) (Some l1) nic_ignoredKeys)%list
         ","))).
Proof.
  intros H1 H2 mac run1 run2.
  split; [apply generated_mac_format|].
  split; [by apply written_mac_stays|].
  split; [by apply written_mac_stays|].
  intros p bridge -> Hb.
  assert (E : run1 =
    (Done tt,
     assigned p ("net" +:+ strconv_Itoa nicID)
       (IStr (strings_Join
         (("macaddr=" +:+ mac)
            :: bridge_token bridge
            ++ device_tokens (mac_written vmID nicID l1 w1) (Some l1) nic_ignoredKeys)%list
         ","))
       (next_range (mac_written vmID nicID l1 w1)))).
  { unfold run1. rewrite CreateQemuNetworksParams_body_generate by done.
    unfold bind at 1. rewrite Hb. unfold assert_string at 1, ret at 1. cbn beta iota.
    unfold bind at 1. rewrite createDeviceParam_run. reflexivity. }
  rewrite E. cbn [fst snd]. split; [reflexivity|].
  by rewrite map_of_assigned, lookup_insert_eq.
Qed.

(** ** C1: reading back a locked configuration *)

Lemma lock_loop_locked (n : nat) (vmr : loc) (v : VmRef) (vmConfig : gmap string iface)
    (w : World) :
  always_locked ->
  w_vmrefs w !! vmr = Some v ->
  exists vmConfig' w',
    lock_loop (S n) (Some vmr) vmConfig w = (Done vmConfig', w') /\
    attr vmConfig' "lock" <> INil /\
    w_trace w' = (w_trace w ++ polls (S n) v)%list /\
    w_vmrefs w' = w_vmrefs w.
Proof.
  intros Hlocked. revert vmConfig w.
  assert (Hstep : forall w, w_vmrefs w !! vmr = Some v ->
    exists cfg cs,
      attr cfg "lock" <> INil /\
      forall k : gmap string iface -> M (gmap string iface),
      (do res <- call_GetVmConfig (Some vmr);
       let '(vmConfig', err) := res in
       match err with
       | Some _ => log_Fatal
       | None =>
           match attr vmConfig' "lock" with
           | INil => ret vmConfig'
           | _ => do _ <- time_Sleep 8; k vmConfig'
           end
       end) w =
      k cfg (log_event (EvSleep 8) (set_client cs (log_event (EvGetVmConfig v) w)))).
  { intros w Hv.
    destruct (client_GetVmConfig v (w_client w)) as [[cfg err] cs] eqn:Eg.
    destruct (Hlocked v (w_client w)) as [He Hl]. rewrite Eg in He, Hl. simpl in He, Hl.
    subst err. exists cfg, cs. split; [done|]. intros k.
    unfold bind at 1, call_GetVmConfig, bind at 1, deref_vmr. cbn [mbind option_bind].
    rewrite Hv. cbn beta iota. rewrite Eg. cbn beta iota.
    destruct (attr cfg "lock") eqn:El; [done|reflexivity..]. }
  induction n as [|n IH]; intros vmConfig w Hv.
  - destruct (Hstep w Hv) as (cfg & cs & Hl & Hk).
    exists cfg. eexists. cbn [lock_loop]. rewrite (Hk (fun c => ret c)).
    split; [reflexivity|]. split; [done|]. split; [|reflexivity].
    simpl. by rewrite <- app_assoc.
  - destruct (Hstep w Hv) as (cfg & cs & Hl & Hk).
    set (w1 := log_event (EvSleep 8) (set_client cs (log_event (EvGetVmConfig v) w))).
    destruct (IH cfg w1 Hv) as (cfg' & w' & Hrun & Hl' & Ht & Hr).
    exists cfg', w'.
    change (lock_loop (S (S n)) (Some vmr) vmConfig w) with
      ((do res <- call_GetVmConfig (Some vmr);
        let '(vmConfig', err) := res in
        match err with
        | Some _ => log_Fatal
        | None =>
            match attr vmConfig' "lock" with
            | INil => ret vmConfig'
            | _ => do _ <- time_Sleep 8; lock_loop (S n) (Some vmr) vmConfig'
            end
        end) w).
    rewrite (Hk (lock_loop (S n) (Some vmr))). fold w1.
    split; [done|]. split; [done|]. split; [|done].
    rewrite Ht. unfold w1. simpl. by rewrite <- !app_assoc.
Qed.

Lemma sleep_total_app (tr1 tr2 : list Event) :
  sleep_total (tr1 ++ tr2) = sleep_total tr1 + sleep_total tr2.
Proof.
  induction tr1 as [|e tr1 IH]; [reflexivity|].
  change (sleep_total ((e :: tr1) ++ tr2)) with
    (match e with EvSleep s => s + sleep_total (tr1 ++ tr2) | _ => sleep_total (tr1 ++ tr2) end).
  change (sleep_total (e :: tr1)) with
    (match e with EvSleep s => s + sleep_total tr1 | _ => sleep_total tr1 end).
  destruct e; lia.
Qed.

(** C1 (amended). Against a client that always reports a lock, the
    read-back fetches the configuration three times, sleeps 8 seconds
    after each of the three fetches (24 seconds in all, the last sleep
    coming after the last fetch), and then fails with the error
    [vm locked, could not obtain config]. *)
Theorem locked_readback_fails (vmr : loc) (v : VmRef) (w : World) :
  always_locked ->
  w_vmrefs w !! vmr = Some v ->
  exists w',
    NewConfigQemuFromApi (Some vmr) w = (Done (None, Some vm_locked), w') /\
    w_trace w' =
      (w_trace w ++ [EvGetVmConfig v; EvSleep 8; EvGetVmConfig v; EvSleep 8;
                     EvGetVmConfig v; EvSleep 8])%list /\
    fetch_count (w_trace w') = (fetch_count (w_trace w) + 3)%nat /\
    sleep_count (w_trace w') = (sleep_count (w_trace w) + 3)%nat /\
    sleep_total (w_trace w') = sleep_total (w_trace w) + 24.
Proof.
  intros Hlocked Hv.
  destruct (lock_loop_locked 2 vmr v ∅ w Hlocked Hv) as (cfg & w' & Hrun & Hl & Ht & _).
  exists w'. unfold NewConfigQemuFromApi, bind. rewrite Hrun.
  split; [destruct (attr cfg "lock"); done|].
  split; [exact Ht|]. rewrite Ht, sleep_total_app. unfold fetch_count, sleep_count.
  rewrite !List.filter_app, !length_app. simpl.
  repeat split; lia.
Qed.

(** ** C9: clone, then update *)

Lemma ends_in_digit_app (a b : string) :
  b <> "" -> ends_in_digit (a +:+ b) = ends_in_digit b.
Proof.
  intros Hb. induction a as [|c a IH]; [reflexivity|].
  change (String c a +:+ b) with (String c (a +:+ b)).
  cbn [ends_in_digit]. destruct (a +:+ b) eqn:E; [|exact IH].
  destruct a; [simpl in E; done | discriminate E].
Qed.

Lemma is_digit_pretty_N_char (d : N) : (d < 10)%N -> is_digit (pretty_N_char d) = true.
Proof.
  intros Hd. destruct d as [|q]; [reflexivity|].
  do 4 (destruct q as [q|q|]; try reflexivity; try lia).
Qed.

Lemma ends_in_digit_pretty_N_go (x : N) (s : string) :
  ends_in_digit s = true \/ (s = "" /\ (0 < x)%N) ->
  ends_in_digit (pretty_N_go x s) = true.
Proof.
  revert s. induction (N.lt_wf_0 x) as [x _ IH]. intros s Hs.
  destruct (decide (x = 0%N)) as [->|Hx].
  - rewrite pretty_N_go_0. destruct Hs as [?|[_ ?]]; [done|lia].
  - rewrite pretty_N_go_step by lia. apply IH; [apply N.div_lt; lia|].
    left. destruct Hs as [Hs|[-> _]].
    + destruct s; [done|]. exact Hs.
    + apply is_digit_pretty_N_char. apply N.mod_lt. lia.
Qed.

Lemma ends_in_digit_Itoa (i : Z) : ends_in_digit (strconv_Itoa i) = true.
Proof.
  unfold strconv_Itoa, pretty, pretty_Z. destruct i as [|q|q].
  - reflexivity.
  - unfold pretty, pretty_positive, pretty, pretty_N. rewrite decide_False by lia.
    apply ends_in_digit_pretty_N_go. right. split; [done|lia].
  - unfold pretty, pretty_positive, pretty, pretty_N. rewrite decide_False by lia.
    rewrite ends_in_digit_app.
    + apply ends_in_digit_pretty_N_go. right. split; [done|lia].
    + apply pretty_N_go_nonempty. lia.
Qed.

Lemma Itoa_nonempty (i : Z) : strconv_Itoa i <> "".
Proof. intros E. pose proof (ends_in_digit_Itoa i) as H. by rewrite E in H. Qed.

Lemma ends_in_digit_name (prefix : string) (i : Z) :
  ends_in_digit (prefix +:+ strconv_Itoa i) = true.
Proof. rewrite ends_in_digit_app by apply Itoa_nonempty. apply ends_in_digit_Itoa. Qed.

#[local] Instance steady_preorder p : PreOrder (steady p).
Proof.
  split.
  - intros w. by repeat split.
  - intros w1 w2 w3 (?&?&?&?&K1) (?&?&?&?&K2). repeat split; try congruence.
    + set_solver.
    + intros k Hk. by rewrite K2, K1.
Qed.

#[local] Instance calm_preorder p : PreOrder (calm p).
Proof.
  split.
  - intros w. split; reflexivity.
  - intros w1 w2 w3 [? ?] [? ?]. split; [congruence | by etrans].
Qed.

#[local] Instance unaliased_steady_preorder p : PreOrder (unaliased_steady p).
Proof.
  split.
  - intros w Hw. split; [done | reflexivity].
  - intros w1 w2 w3 H1 H2 Hw. destruct (H1 Hw) as [Hw2 S1].
    destruct (H2 Hw2) as [Hw3 S2]. split; [done | by etrans].
Qed.

Lemma calm_unaliased_steady p w w' : calm p w w' -> unaliased_steady p w w'.
Proof.
  intros [HT HS] [Hp Hnot]. split; [|done]. split.
  - destruct HS as (_&_&_&Hd&_). set_solver.
  - rewrite HT. exact Hnot.
Qed.

Lemma calm_same_maps p w w' :
  w_maps w' = w_maps w -> w_tables w' = w_tables w -> w_trace w' = w_trace w ->
  w_client w' = w_client w -> w_vmrefs w' = w_vmrefs w -> calm p w w'.
Proof.
  intros Hm ? ? ? ?. repeat split; try done.
  - by rewrite Hm.
  - intros k _. unfold map_of. by rewrite Hm.
Qed.

Lemma calm_map_index p r key : keeps (calm p) (map_index r key).
Proof. intros w. reflexivity. Qed.

Lemma calm_createDeviceParam p q r ign : keeps (calm p) (createDeviceParam q r ign).
Proof. intros w. rewrite createDeviceParam_run. by apply calm_same_maps. Qed.

Lemma calm_rand_Seed p seed : keeps (calm p) (rand_Seed seed).
Proof. intros w. by apply calm_same_maps. Qed.

Lemma calm_rand_Read p n : keeps (calm p) (rand_Read n).
Proof.
  intros w. unfold rand_Read. destruct (draw n (w_rand w)). by apply calm_same_maps.
Qed.

Lemma calm_map_assign p r key v :
  (r = Some p -> ends_in_digit key = true) -> keeps (calm p) (map_assign r key v).
Proof.
  intros Hr w. unfold map_assign. destruct r as [l|]; [|reflexivity].
  cbn [snd]. unfold assigned. repeat split; try done.
  - simpl. rewrite dom_insert. set_solver.
  - intros k Hk. unfold map_of. simpl.
    destruct (decide (l = p)) as [->|Hl].
    + rewrite lookup_insert_eq. simpl. rewrite lookup_insert_ne; [done|].
      intros <-. rewrite Hr in Hk; done.
    + by rewrite lookup_insert_ne.
Qed.

Lemma calm_disk_body p vmID action params entry :
  keeps (calm p) (CreateQemuDisksParams_body vmID action params entry).
Proof.
  destruct entry as [diskID diskConfMap]. unfold CreateQemuDisksParams_body.
  repeat first
    [ apply calm_map_index | apply keeps_assert_string; apply _
    | apply calm_createDeviceParam
    | apply calm_map_assign; intros _; apply ends_in_digit_name
    | apply keeps_ret; apply _
    | apply keeps_bind; [apply _| |intros ?]
    | match goal with |- keeps _ (if ?b then _ else _) => destruct b end ].
Qed.

Lemma calm_nic_body p vmID params nicID nicConfMap :
  nicConfMap <> Some p ->
  keeps (calm p) (CreateQemuNetworksParams_body vmID params (nicID, nicConfMap)).
Proof.
  intros Hne. unfold CreateQemuNetworksParams_body.
  repeat first
    [ apply calm_map_index | apply keeps_assert_string; apply _
    | apply calm_createDeviceParam
    | apply calm_rand_Seed | apply calm_rand_Read
    | apply calm_map_assign; intros _; apply ends_in_digit_name
    | apply calm_map_assign; intros ?; done
    | apply keeps_ret; apply _
    | apply keeps_bind; [apply _| |intros ?]
    | match goal with |- keeps _ (if ?b then _ else _) => destruct b end ].
Qed.

Lemma unaliased_steady_synthesis p (d : QemuDevice) (r : option loc) :
  keeps (unaliased_steady p) (do m <- make_map d; table_assign r 0 m).
Proof.
  intros w [Hp Hnot]. unfold bind, make_map, table_assign.
  set (l := fresh (dom (w_maps w))).
  assert (Hl : l <> p) by (intros E; apply (is_fresh (dom (w_maps w))); by rewrite <- E in Hp).
  assert (Hsteady : forall f,
    steady p w (set_tables f (set_maps (fun h => <[l := d]> h) w))).
  { intros f. repeat split; try done.
    - simpl. rewrite dom_insert. set_solver.
    - intros k _. unfold map_of. simpl. by rewrite lookup_insert_ne. }
  assert (Hdom : p ∈ dom (<[l := d]> (w_maps w))) by (rewrite dom_insert; set_solver).
  destruct r as [t|]; cbn [snd].
  - split; [|apply Hsteady]. split; [exact Hdom|].
    intros t' T index. simpl. destruct (decide (t = t')) as [<-|Ht].
    + rewrite lookup_insert_eq. intros [= <-].
      destruct (decide (index = 0)) as [->|Hi].
      * rewrite lookup_insert_eq. congruence.
      * rewrite lookup_insert_ne by done. unfold table_of. simpl.
        destruct (w_tables w !! t) as [T0|] eqn:ET; simpl; [by eapply Hnot | by rewrite lookup_empty].
    + rewrite lookup_insert_ne by done. apply Hnot.
  - split; [|apply (Hsteady (fun h => h))]. split; [exact Hdom | exact Hnot].
Qed.

Lemma unaliased_steady_table_len p r : keeps (unaliased_steady p) (table_len r).
Proof. intros w. reflexivity. Qed.

Lemma unaliased_steady_disks_loop p vmID action params r :
  keeps (unaliased_steady p)
    (do entries <- range_table r;
     do _ <- forM entries (CreateQemuDisksParams_body vmID action params);
     ret (@None error)).
Proof.
  assert (K : keeps (calm p)
    (do entries <- range_table r;
     do _ <- forM entries (CreateQemuDisksParams_body vmID action params);
     ret (@None error))).
  { apply keeps_bind; [apply _| |intros entries].
    - intros w. by apply calm_same_maps.
    - apply keeps_bind; [apply _| |intros ?; apply keeps_ret; apply _].
      apply keeps_forM; [apply _|]. apply Forall_forall. intros ? _. apply calm_disk_body. }
  intros w. apply calm_unaliased_steady, K.
Qed.

Lemma unaliased_steady_nics_loop p vmID params r :
  keeps (unaliased_steady p)
    (do entries <- range_table r;
     do _ <- forM entries (CreateQemuNetworksParams_body vmID params);
     ret (@None error)).
Proof.
  intros w Hw. apply calm_unaliased_steady; [|done].
  unfold bind at 1, range_table. cbn beta iota.
  set (entries := by_rank _ _).
  assert (Hentries : Forall (fun e => keeps (calm p) (CreateQemuNetworksParams_body vmID params e))
                       entries).
  { apply Forall_forall. intros [nicID nicConfMap] Hin. apply calm_nic_body.
    unfold entries in Hin. rewrite by_rank_perm in Hin. apply elem_of_map_to_list in Hin.
    intros ->. destruct Hw as [_ Hnot]. unfold table_of in Hin.
    destruct r as [t|]; [|by rewrite lookup_empty in Hin].
    destruct (w_tables w !! t) as [T|] eqn:ET; simpl in Hin;
      [by eapply Hnot | by rewrite lookup_empty in Hin]. }
  assert (K : keeps (calm p)
    (do _ <- forM entries (CreateQemuNetworksParams_body vmID params); ret (@None error))).
  { apply keeps_bind; [apply _| |intros ?; apply keeps_ret; apply _].
    by apply keeps_forM; [apply _|]. }
  etrans; [|apply (K (next_range w))]. by apply calm_same_maps.
Qed.

Lemma unaliased_steady_disks p c vmID action params :
  keeps (unaliased_steady p) (CreateQemuDisksParams c vmID action params).
Proof.
  unfold CreateQemuDisksParams.
  apply keeps_bind; [apply _|apply unaliased_steady_table_len|intros n].
  apply keeps_bind; [apply _| |intros _; apply unaliased_steady_disks_loop].
  destruct (_ && _); [apply unaliased_steady_synthesis | apply keeps_ret; apply _].
Qed.

Lemma unaliased_steady_nics p c vmID params :
  keeps (unaliased_steady p) (CreateQemuNetworksParams c vmID params).
Proof.
  unfold CreateQemuNetworksParams.
  apply keeps_bind; [apply _|apply unaliased_steady_table_len|intros n].
  apply keeps_bind; [apply _| |intros _; apply unaliased_steady_nics_loop].
  destruct (_ && _); [apply unaliased_steady_synthesis | apply keeps_ret; apply _].
Qed.

Lemma unaliased_update_store (config : ConfigQemu) (w : World) :
  wf_store w -> unaliased (fresh (dom (w_maps w))) (update_store config w).
Proof.
  intros Hwf. split.
  - simpl. rewrite dom_insert. set_solver.
  - intros t T index HT Hi. apply (is_fresh (dom (w_maps w))). by eapply Hwf.
Qed.

Lemma UpdateConfig_params_fields (config : ConfigQemu) :
  UpdateConfig_params config !! "description" = Some (IStr (Description config)) /\
  UpdateConfig_params config !! "onboot" = Some (IBool (Onboot config)) /\
  UpdateConfig_params config !! "sockets" = Some (IInt (QemuSockets config)) /\
  UpdateConfig_params config !! "cores" = Some (IInt (QemuCores config)) /\
  UpdateConfig_params config !! "memory" = Some (IInt (Memory config)).
Proof. repeat split; vm_compute; reflexivity. Qed.

Lemma no_exit_ret {A} (a : A) : no_exit (ret a).
Proof. intros w code. done. Qed.

Lemma no_exit_bind {A B} (m : M A) (k : A -> M B) :
  no_exit m -> (forall a, no_exit (k a)) -> no_exit (bind m k).
Proof.
  intros Hm Hk w code. unfold bind. specialize (Hm w).
  destruct (m w) as [[a|msg|code'] w1]; simpl in *; [apply Hk|done|].
  by destruct (Hm code').
Qed.

Lemma no_exit_forM {A} (l : list A) (body : A -> M unit) :
  (forall x, no_exit (body x)) -> no_exit (forM l body).
Proof.
  intros Hb. induction l as [|x l IH]; simpl; [apply no_exit_ret|].
  apply no_exit_bind; [apply Hb | intros _; exact IH].
Qed.

Lemma no_exit_assert_string (v : iface) : no_exit (assert_string v).
Proof. intros w code. destruct v; done. Qed.

Lemma no_exit_map_assign r key v : no_exit (map_assign r key v).
Proof. intros w code. destruct r; done. Qed.

Lemma no_exit_table_assign r index d : no_exit (table_assign r index d).
Proof. intros w code. destruct r; done. Qed.

Lemma no_exit_rand_Read n : no_exit (rand_Read n).
Proof. intros w code. unfold rand_Read. by destruct (draw n (w_rand w)). Qed.

Lemma no_exit_createDeviceParam p r ign : no_exit (createDeviceParam p r ign).
Proof. intros w code. by rewrite createDeviceParam_run. Qed.

Ltac no_exit_steps :=
  repeat first
    [ apply no_exit_assert_string | apply no_exit_map_assign
    | apply no_exit_table_assign | apply no_exit_rand_Read
    | apply no_exit_createDeviceParam
    | apply no_exit_ret
    | apply no_exit_forM; intros [? ?]
    | apply no_exit_bind; [|intros ?]
    | match goal with |- no_exit (if ?b then _ else _) => destruct b end
    | (intros ? ?; done) ].

Lemma no_exit_disks c vmID action params :
  no_exit (CreateQemuDisksParams c vmID action params).
Proof. unfold CreateQemuDisksParams, CreateQemuDisksParams_body. no_exit_steps. Qed.

Lemma no_exit_nics c vmID params :
  no_exit (CreateQemuNetworksParams c vmID params).
Proof. unfold CreateQemuNetworksParams, CreateQemuNetworksParams_body. no_exit_steps. Qed.

Lemma UpdateConfig_unfold (config : ConfigQemu) (vmr : loc) (v : VmRef) (w : World) :
  w_vmrefs w !! vmr = Some v ->
  UpdateConfig config (Some vmr) w =
  match CreateQemuDisksParams config (vmId v) "update" (Some (fresh (dom (w_maps w))))
          (update_store config w) with
  | (Done _, w2) =>
      match CreateQemuNetworksParams config (vmId v) (Some (fresh (dom (w_maps w)))) w2 with
      | (Done _, w3) => call_SetVmConfig (Some vmr) (Some (fresh (dom (w_maps w)))) w3
      | (Panic msg, w3) => (Panic msg, w3)
      | (Exit code, w3) => (Exit code, w3)
      end
  | (Panic msg, w2) => (Panic msg, w2)
  | (Exit code, w2) => (Exit code, w2)
  end.
Proof.
  intros Hv.
  unfold UpdateConfig. unfold bind at 1. unfold make_map at 1. cbn beta iota.
  change (set_maps _ w) with (update_store config w).
  unfold bind at 1. unfold deref_vmr at 1. cbn [mbind option_bind].
  change (w_vmrefs (update_store config w)) with (w_vmrefs w). rewrite Hv.
  cbn beta iota. unfold bind at 1.
  destruct (CreateQemuDisksParams _ _ _ _ _) as [[o2|msg2|code2] w2]; [|reflexivity..].
  unfold bind at 1.
  destruct (CreateQemuNetworksParams _ _ _ _) as [[o3|msg3|code3] w3]; reflexivity.
Qed.

Lemma UpdateConfig_updated (config : ConfigQemu) (vmr : loc) (v : VmRef) (w : World) :
  wf_store w ->
  w_vmrefs w !! vmr = Some v ->
  updated config v w (UpdateConfig config (Some vmr) w).
Proof.
  intros Hwf Hv. unfold updated.
  rewrite (UpdateConfig_unfold config vmr v w Hv).
  set (p := fresh (dom (w_maps w))).
  pose proof (unaliased_update_store config w Hwf) as Hu. fold p in Hu.
  pose proof (unaliased_steady_disks p config (vmId v) "update" (Some p)
                (update_store config w) Hu) as [Hu2 S2].
  pose proof (no_exit_disks config (vmId v) "update" (Some p) (update_store config w)) as X2.
  destruct (CreateQemuDisksParams config (vmId v) "update" (Some p) (update_store config w))
    as [[o2|msg2|code2] w2]; cbn [fst snd] in *.
  2: { right. split; [by eexists|]. by destruct S2 as (->&_). }
  2: { by destruct (X2 code2). }
  pose proof (unaliased_steady_nics p config (vmId v) (Some p) w2 Hu2) as [Hu3 S3].
  pose proof (no_exit_nics config (vmId v) (Some p) w2) as X3.
  destruct (CreateQemuNetworksParams config (vmId v) (Some p) w2)
    as [[o3|msg3|code3] w3] eqn:E3; cbn [fst snd] in *.
  2: { right. split; [by eexists|].
       destruct S2 as (Q2&_), S3 as (Q3&_). by rewrite Q3, Q2. }
  2: { by destruct (X3 code3). }
  left. exists o2, w2, o3, w3, (map_of w3 (Some p)).
  destruct S2 as (T2&C2&R2&_&K2), S3 as (T3&C3&R3&_&K3).
  assert (HP : forall k, ends_in_digit k = false ->
             map_of w3 (Some p) !! k = UpdateConfig_params config !! k).
  { intros k Hk. rewrite K3, K2 by done. unfold map_of, update_store. simpl.
    by rewrite lookup_insert_eq. }
  destruct (UpdateConfig_params_fields config) as (F1&F2&F3&F4&F5).
  unfold call_SetVmConfig, bind, deref_vmr. cbn [mbind option_bind].
  rewrite R3, R2. change (w_vmrefs (update_store config w)) with (w_vmrefs w).
  rewrite Hv. cbn beta iota. rewrite C3, C2.
  change (w_client (update_store config w)) with (w_client w).
  destruct (client_SetVmConfig v (map_of w3 (Some p)) (w_client w)) as [err cs] eqn:Ec.
  cbn [fst snd]. split; [reflexivity|]. split; [exact E3|]. split; [reflexivity|].
  split; [reflexivity|]. split; [simpl; by rewrite T3, T2|].
  rewrite !HP by reflexivity. done.
Qed.

Lemma wf_store_clone_called config sourceVmr vmr src v w :
  wf_store w -> wf_store (clone_called config sourceVmr vmr src v w).
Proof.
  intros Hwf t T index l HT Hi. simpl. rewrite dom_insert.
  apply elem_of_union_r. by eapply Hwf.
Qed.

Lemma CloneVm_unfold (config : ConfigQemu) (sourceVmr vmr : loc) (src v : VmRef)
    (w : World) :
  w_vmrefs w !! vmr = Some v ->
  w_vmrefs w !! sourceVmr = Some src ->
  CloneVm config (Some sourceVmr) (Some vmr) w =
  match (client_CloneQemuVm (clone_source sourceVmr vmr src v)
           (CloneVm_params config (mkVmRef (vmId v) (node v) "qemu")) (w_client w)).1 with
  | Some e => (Done (Some e), clone_called config sourceVmr vmr src v w)
  | None => UpdateConfig config (Some vmr) (clone_called config sourceVmr vmr src v w)
  end.
Proof.
  intros Hv Hs.
  unfold CloneVm. unfold bind at 1. unfold SetVmType. unfold bind at 1.
  unfold deref_vmr at 1. cbn [mbind option_bind]. rewrite Hv. cbn beta iota.
  unfold bind at 1. unfold deref_vmr at 1. cbn [mbind option_bind].
  cbn [w_vmrefs set_vmrefs]. rewrite lookup_insert_eq. cbn beta iota.
  unfold bind at 1. unfold make_map at 1. cbn beta iota.
  unfold bind at 1. unfold call_CloneQemuVm. unfold bind at 1.
  unfold deref_vmr at 1. cbn [mbind option_bind].
  cbn [w_vmrefs set_vmrefs set_maps].
  assert (Hsrc : <[vmr := mkVmRef (vmId v) (node v) "qemu"]> (w_vmrefs w) !! sourceVmr
                 = Some (clone_source sourceVmr vmr src v)).
  { unfold clone_source. destruct (decide (sourceVmr = vmr)) as [->|Hne].
    - by rewrite lookup_insert_eq.
    - by rewrite lookup_insert_ne. }
  rewrite Hsrc. cbn beta iota.
  unfold clone_called.
  match goal with |- context [client_CloneQemuVm ?a ?b ?c] =>
    assert (Hb : b = CloneVm_params config (mkVmRef (vmId v) (node v) "qemu"));
    [| rewrite Hb ] end.
  { unfold map_of. simpl. by rewrite lookup_insert_eq. }
  change (w_client (set_maps _ _)) with (w_client w).
  destruct (client_CloneQemuVm _ _ _) as [[e|] cs]; reflexivity.
Qed.

Lemma CloneVm_params_fields (config : ConfigQemu) (v : VmRef) :
  CloneVm_params config v !! "newid" = Some (IInt (vmId v)) /\
  CloneVm_params config v !! "target" = Some (IStr (node v)) /\
  CloneVm_params config v !! "name" = Some (IStr (Name config)) /\
  CloneVm_params config v !! "storage" = Some (IStr (Storage config)) /\
  CloneVm_params config v !! "full" =
    Some (IStr (match FullClone config with Some n => strconv_Itoa n | None => "1" end)).
Proof. repeat split; vm_compute; reflexivity. Qed.

(** C9. [CloneVm] first issues the clone call, with the new id, target
    node, name, storage and full-clone flag. If the call fails, its error
    is the result and nothing else is sent: no set-config call. If it
    succeeds, the rest is [UpdateConfig] on the new VM: the device tables
    are encoded under the [update] action and one set-config call carries
    them with the description, boot flag, sockets, cores and memory -- or
    an encoder panics and no set-config call is made. *)
Theorem clone_then_update (config : ConfigQemu) (sourceVmr vmr : loc) (src v : VmRef)
    (w : World) :
  wf_store w ->
  w_vmrefs w !! vmr = Some v ->
  w_vmrefs w !! sourceVmr = Some src ->
  let v' := mkVmRef (vmId v) (node v) "qemu" in
  let P := CloneVm_params config v' in
  let answer := (client_CloneQemuVm (clone_source sourceVmr vmr src v) P (w_client w)).1 in
  let w1 := clone_called config sourceVmr vmr src v w in
  let run := CloneVm config (Some sourceVmr) (Some vmr) w in
  w_trace w1 = (w_trace w ++ [EvCloneQemuVm (clone_source sourceVmr vmr src v) P])%list /\
  P !! "newid" = Some (IInt (vmId v)) /\
  P !! "target" = Some (IStr (node v)) /\
  P !! "name" = Some (IStr (Name config)) /\
  P !! "storage" = Some (IStr (Storage config)) /\
  P !! "full" =
    Some (IStr (match FullClone config with Some n => strconv_Itoa n | None => "1" end)) /\
  match answer with
  | Some e => run = (Done (Some e), w1)
  | None => run = UpdateConfig config (Some vmr) w1 /\ updated config v' w1 run
  end.
Proof.
  intros Hwf Hv Hs v' P answer w1 run.
  split; [reflexivity|].
  destruct (CloneVm_params_fields config v') as (F1&F2&F3&F4&F5).
  do 5 (split; [done|]).
  unfold run. rewrite (CloneVm_unfold config sourceVmr vmr src v w Hv Hs).
  fold v' P answer w1. destruct answer as [e|]; [reflexivity|].
  split; [reflexivity|].
  apply UpdateConfig_updated.
  - by apply wf_store_clone_called.
  - unfold w1. simpl. by rewrite lookup_insert_eq.
Qed.

(** * The rest of the code *)

(** ** The encoders and the outside *)

#[local] Instance silent_preorder : PreOrder silent.
Proof.
  split.
  - intros w. by repeat split.
  - intros w1 w2 w3 (?&?&?) (?&?&?). repeat split; congruence.
Qed.

Lemma quiet_silent (w w' : World) : quiet w w' -> silent w w'.
Proof. intros (_&?&?&?). by repeat split. Qed.

Lemma silent_table_len r : keeps silent (table_len r).
Proof. intros w. reflexivity. Qed.

Lemma silent_synthesis (d : QemuDevice) (r : option loc) :
  keeps silent (do m <- make_map d; table_assign r 0 m).
Proof. intros w. unfold bind, make_map, table_assign. by destruct r. Qed.

Lemma silent_disks_loop vmID action params r :
  keeps silent
    (do entries <- range_table r;
     do _ <- forM entries (CreateQemuDisksParams_body vmID action params);
     ret (@None error)).
Proof.
  intros w. apply quiet_silent.
  assert (K : keeps quiet
    (do entries <- range_table r;
     do _ <- forM entries (CreateQemuDisksParams_body vmID action params);
     ret (@None error))); [|apply K].
  quiet_steps. apply quiet_forM_disks.
Qed.

Lemma silent_nics_loop vmID params r :
  keeps silent
    (do entries <- range_table r;
     do _ <- forM entries (CreateQemuNetworksParams_body vmID params);
     ret (@None error)).
Proof.
  intros w. apply quiet_silent.
  assert (K : keeps quiet
    (do entries <- range_table r;
     do _ <- forM entries (CreateQemuNetworksParams_body vmID params);
     ret (@None error))); [|apply K].
  quiet_steps. apply quiet_forM_nics.
Qed.

Lemma silent_disks c vmID action params :
  keeps silent (CreateQemuDisksParams c vmID action params).
Proof.
  unfold CreateQemuDisksParams.
  apply keeps_bind; [apply _|apply silent_table_len|intros n].
  apply keeps_bind; [apply _| |intros _; apply silent_disks_loop].
  destruct (_ && _); [apply silent_synthesis | apply keeps_ret; apply _].
Qed.

Lemma silent_nics c vmID params :
  keeps silent (CreateQemuNetworksParams c vmID params).
Proof.
  unfold CreateQemuNetworksParams.
  apply keeps_bind; [apply _|apply silent_table_len|intros n].
  apply keeps_bind; [apply _| |intros _; apply silent_nics_loop].
  destruct (_ && _); [apply silent_synthesis | apply keeps_ret; apply _].
Qed.

(** X1. Whatever the tables, the parameters and the outcome, the two
    encoders make no API call and do not sleep: the trace, the state of
    the client and the VM references are the ones they started with. *)
Theorem encoders_are_silent (c : ConfigQemu) (vmID : Z) (action : string)
    (params : option loc) (w : World) :
  silent w (CreateQemuDisksParams c vmID action params w).2 /\
  silent w (CreateQemuNetworksParams c vmID params w).2.
Proof. split; [apply silent_disks | apply silent_nics]. Qed.

Lemma returns_nil_ret : returns_nil (ret None).
Proof. intros w o w'. unfold ret. by intros [= <- _]. Qed.

Lemma returns_nil_bind {A} (m : M A) (k : A -> M (option error)) :
  (forall a, returns_nil (k a)) -> returns_nil (bind m k).
Proof.
  intros Hk w o w'. unfold bind. destruct (m w) as [[a|msg|code] w1]; [|done..].
  apply Hk.
Qed.

(** X2. The encoders declare an [error] result and never use it: a run
    ends with the nil error or with a panic, never with an error value and
    never by ending the process. *)
Theorem encoders_return_nil_or_panic (c : ConfigQemu) (vmID : Z) (action : string)
    (params : option loc) (w : World) :
  ((CreateQemuDisksParams c vmID action params w).1 = Done None \/
   exists msg, (CreateQemuDisksParams c vmID action params w).1 = Panic msg) /\
  ((CreateQemuNetworksParams c vmID params w).1 = Done None \/
   exists msg, (CreateQemuNetworksParams c vmID params w).1 = Panic msg).
Proof.
  split.
  - pose proof (no_exit_disks c vmID action params w) as X.
    assert (N : returns_nil (CreateQemuDisksParams c vmID action params)).
    { unfold CreateQemuDisksParams. do 4 (apply returns_nil_bind; intros ?).
      apply returns_nil_ret. }
    specialize (N w).
    destruct (CreateQemuDisksParams c vmID action params w) as [[o|msg|code] w'];
      cbn [fst] in *.
    + left. by rewrite (N o w' eq_refl).
    + right. by eexists.
    + by destruct (X code).
  - pose proof (no_exit_nics c vmID params w) as X.
    assert (N : returns_nil (CreateQemuNetworksParams c vmID params)).
    { unfold CreateQemuNetworksParams. do 4 (apply returns_nil_bind; intros ?).
      apply returns_nil_ret. }
    specialize (N w).
    destruct (CreateQemuNetworksParams c vmID params w) as [[o|msg|code] w'];
      cbn [fst] in *.
    + left. by rewrite (N o w' eq_refl).
    + right. by eexists.
    + by destruct (X code).
Qed.

(** X3. Nothing to encode: when both device tables are nil or empty and
    both deprecated fields are empty, each encoder returns nil at once
    and leaves the store as it was (one [range] statement apart) -- the
    parameter map is not touched and may even be nil. *)
Theorem nothing_to_encode (c : ConfigQemu) (vmID : Z) (action : string)
    (params : option loc) (w : World) :
  table_of w (QemuDisks c) = ∅ -> Storage c = "" ->
  table_of w (QemuNetworks c) = ∅ -> QemuNicModel c = "" ->
  CreateQemuDisksParams c vmID action params w = (Done None, next_range w) /\
  CreateQemuNetworksParams c vmID params w = (Done None, next_range w).
Proof.
  intros HT Hs HT' Hs'. split.
  - unfold CreateQemuDisksParams. unfold bind at 1. unfold table_len. cbn beta iota.
    rewrite HT, Hs, map_size_empty. cbn [Nat.eqb String.length Nat.ltb Nat.leb andb].
    unfold bind at 1. unfold ret at 1. cbn beta iota.
    unfold bind at 1. unfold range_table. rewrite HT, map_to_list_empty. reflexivity.
  - unfold CreateQemuNetworksParams. unfold bind at 1. unfold table_len. cbn beta iota.
    rewrite HT', Hs', map_size_empty. cbn [Nat.eqb String.length Nat.ltb Nat.leb andb].
    unfold bind at 1. unfold ret at 1. cbn beta iota.
    unfold bind at 1. unfold range_table. rewrite HT', map_to_list_empty. reflexivity.
Qed.

(** ** Disks under an action that is neither [create] nor [update] *)

Lemma eqb_ne (a b : string) : a <> b -> String.eqb a b = false.
Proof. intros H. by apply String.eqb_neq. Qed.

Lemma CreateQemuDisksParams_body_other (vmID : Z) (action : string) (params : option loc)
    (idx : Z) (l : loc) (w : World) (ty ch : string) :
  action <> "create" -> action <> "update" ->
  attr (map_of w (Some l)) "type" = IStr ty ->
  attr (map_of w (Some l)) "cache" = IStr ch ->
  CreateQemuDisksParams_body vmID action params (idx, Some l) w =
  map_assign params (ty +:+ strconv_Itoa idx)
    (IStr (strings_Join
       (cache_token ch ++ device_tokens w (Some l) disk_ignoredKeys)%list ","))
    (next_range w).
Proof.
  intros Hc Hu Hty Hch.
  unfold CreateQemuDisksParams_body, bind, map_index.
  cbn beta iota. rewrite Hty. cbn beta iota delta [assert_string ret].
  rewrite (eqb_ne _ _ Hc), (eqb_ne _ _ Hu). cbn beta iota delta [ret].
  rewrite Hch. cbn beta iota delta [assert_string ret].
  rewrite createDeviceParam_run. cbn beta iota delta [fst snd].
  unfold cache_token. cbn [fmtV]. destruct (String.eqb ch "none"); reflexivity.
Qed.

(** X4. The action is not validated. Under an action that is neither
    [create] nor [update], a disk whose [type] and [cache] are strings is
    still written under [<type><index>], without any positional token:
    the value holds only the [cache=] token (unless the cache is [none])
    and the generic attributes. *)
Theorem other_action_disk_encoding (c : ConfigQemu) (vmID : Z) (action : string)
    (params : loc) (w : World) (t : loc) (idx : Z) (l : loc) (ty ch : string) :
  action <> "create" -> action <> "update" ->
  QemuDisks c = Some t ->
  w_tables w !! t = Some {[idx := Some l]} ->
  attr (map_of w (Some l)) "type" = IStr ty ->
  attr (map_of w (Some l)) "cache" = IStr ch ->
  exists w',
    CreateQemuDisksParams c vmID action (Some params) w = (Done None, w') /\
    map_of w' (Some params) !! (ty +:+ strconv_Itoa idx) =
      Some (IStr (strings_Join
        (cache_token ch ++ device_tokens (next_range w) (Some l) disk_ignoredKeys)%list
        ",")).
Proof.
  intros Hc Hu Hd HT Hty Hch.
  rewrite (CreateQemuDisksParams_singleton c vmID action (Some params) w idx (Some l))
    by (rewrite Hd; by apply table_of_Some).
  unfold bind.
  rewrite (CreateQemuDisksParams_body_other vmID action (Some params) idx l
             (next_range w) ty ch) by done.
  unfold map_assign, ret. eexists. split; [reflexivity|].
  by rewrite map_of_assigned, lookup_insert_eq.
Qed.

(** ** Network interfaces with an address of their own *)

Lemma CreateQemuNetworksParams_body_explicit (vmID : Z) (params : option loc)
    (nicID : Z) (l : loc) (w : World) (mac br : string) :
  mac <> "" ->
  attr (map_of w (Some l)) "macaddr" = IStr mac ->
  attr (map_of w (Some l)) "bridge" = IStr br ->
  CreateQemuNetworksParams_body vmID params (nicID, Some l) w =
  map_assign params ("net" +:+ strconv_Itoa nicID)
    (IStr (strings_Join
       (["macaddr=" +:+ mac] ++ bridge_token br
          ++ device_tokens w (Some l) nic_ignoredKeys)%list ","))
    (next_range w).
Proof.
  intros Hne Hmac Hbr.
  unfold CreateQemuNetworksParams_body, bind, map_index.
  cbn beta iota. rewrite Hmac. cbn beta iota delta [assert_string ret].
  rewrite (eqb_ne _ _ Hne). cbn beta iota delta [ret].
  rewrite Hbr. cbn beta iota delta [assert_string ret].
  rewrite createDeviceParam_run. cbn beta iota delta [fst snd].
  unfold bridge_token. cbn [fmtV]. destruct (String.eqb br "nat"); by rewrite <- ?app_assoc.
Qed.

Lemma CreateQemuNetworksParams_singleton (c : ConfigQemu) (vmID : Z)
    (params : option loc) (w : World) (idx : Z) (d : option loc) :
  table_of w (QemuNetworks c) = {[idx := d]} ->
  CreateQemuNetworksParams c vmID params w =
  (do _ <- CreateQemuNetworksParams_body vmID params (idx, d); ret None)
    (next_range w).
Proof.
  intros HT.
  unfold CreateQemuNetworksParams, bind at 1, table_len. rewrite HT, map_size_singleton.
  cbn [Nat.eqb andb]. unfold bind at 1, ret at 1, bind at 1, range_table.
  change (table_of (w) (QemuNetworks c)) with (table_of w (QemuNetworks c)).
  rewrite HT, map_to_list_singleton, by_rank_singleton.
  unfold bind. rewrite forM_singleton.
  destruct (CreateQemuNetworksParams_body _ _ _ _) as [[[]| |] ?]; reflexivity.
Qed.

(** X5. A network interface that brings a non-empty [macaddr] keeps it:
    the [net<index>] value starts with [macaddr=<address>] as given (no
    change of case, no check of its form), followed by [bridge=<bridge>]
    unless the bridge is [nat] and by the generic attributes; nothing is
    drawn from the random generator, and when the parameter map is not the
    descriptor itself the descriptor is left as it was. *)
Theorem explicit_mac_is_kept (c : ConfigQemu) (vmID : Z) (params : loc) (w : World)
    (t : loc) (nicID : Z) (l : loc) (mac br : string) :
  mac <> "" ->
  QemuNetworks c = Some t ->
  w_tables w !! t = Some {[nicID := Some l]} ->
  attr (map_of w (Some l)) "macaddr" = IStr mac ->
  attr (map_of w (Some l)) "bridge" = IStr br ->
  exists w',
    CreateQemuNetworksParams c vmID (Some params) w = (Done None, w') /\
    map_of w' (Some params) !! ("net" +:+ strconv_Itoa nicID) =
      Some (IStr (strings_Join
        (["macaddr=" +:+ mac] ++ bridge_token br
           ++ device_tokens (next_range w) (Some l) nic_ignoredKeys)%list ",")) /\
    w_rand w' = w_rand w /\
    (params <> l -> map_of w' (Some l) = map_of w (Some l)).
Proof.
  intros Hne Hn HT Hmac Hbr.
  rewrite (CreateQemuNetworksParams_singleton c vmID (Some params) w nicID (Some l))
    by (rewrite Hn; by apply table_of_Some).
  unfold bind.
  rewrite (CreateQemuNetworksParams_body_explicit vmID (Some params) nicID l
             (next_range w) mac br) by done.
  unfold map_assign, ret. eexists. split; [reflexivity|].
  split; [by rewrite map_of_assigned, lookup_insert_eq|].
  split; [reflexivity|].
  intros Hpl. unfold assigned, map_of. simpl. by rewrite lookup_insert_ne.
Qed.

(** ** The generator after an address is generated *)

#[local] Instance same_rand_preorder : PreOrder same_rand.
Proof.
  split; [by intros w|]. intros w1 w2 w3 H1 H2. unfold same_rand in *. congruence.
Qed.

(** X6. Generating an address reseeds the generator of the whole process:
    whatever becomes of the encoding afterwards (it may still panic on
    the bridge or on a nil parameter map), the generator is left in the
    state reached six bytes after seeding with [vmID + nicID], and its
    earlier state is lost. *)
Theorem generated_mac_reseeds (vmID : Z) (params : option loc) (nicID : Z) (l : loc)
    (w : World) :
  attr (map_of w (Some l)) "macaddr" = IStr "" ->
  w_rand (CreateQemuNetworksParams_body vmID params (nicID, Some l) w).2 =
  (draw 6 (rng_seed (wrap64 (vmID + nicID)))).2.
Proof.
  intros Hmac. rewrite CreateQemuNetworksParams_body_generate by done.
  match goal with |- context [(?m (mac_written vmID nicID l w)).2] =>
    assert (K : keeps same_rand m) end.
  { apply keeps_bind; [apply _|apply keeps_assert_string; apply _|intros br].
    apply keeps_bind; [apply _| |intros p].
    - intros w0. rewrite createDeviceParam_run. reflexivity.
    - intros w0. unfold map_assign. by destruct params. }
  rewrite (K (mac_written vmID nicID l w)). reflexivity.
Qed.

(** ** Segments of a device string *)

Lemma append_cons (c : ascii) (s t : string) : String c s +:+ t = String c (s +:+ t).
Proof. reflexivity. Qed.

Lemma append_nil_r (s : string) : s +:+ "" = s.
Proof. induction s as [|c s IH]; [done|]. by rewrite append_cons, IH. Qed.

Lemma append_assoc (a b c : string) : (a +:+ b) +:+ c = a +:+ (b +:+ c).
Proof. induction a as [|x a IH]; [done|]. by rewrite !append_cons, IH. Qed.

Lemma Split_from_lookup_0 (cur s : string) (sep : ascii) :
  Split_from cur s sep !! 0%nat = Some (cur +:+ before_byte sep s).
Proof.
  unfold before_byte.
  revert cur. induction s as [|c s IH]; intros cur; cbn [Split_from take_while].
  - by rewrite append_nil_r.
  - destruct (Ascii.eqb c sep); cbn [negb].
    + by rewrite append_nil_r.
    + rewrite IH, append_assoc. reflexivity.
Qed.

Lemma Split_from_lookup_1 (cur s : string) (sep : ascii) :
  char_in sep s = true ->
  Split_from cur s sep !! 1%nat = Some (before_byte sep (after_byte sep s)).
Proof.
  revert cur. induction s as [|c s IH]; intros cur H; simpl in *; [done|].
  rewrite Ascii.eqb_sym in H. destruct (Ascii.eqb c sep); simpl in *.
  - apply (Split_from_lookup_0 "").
  - by apply IH.
Qed.

Lemma readDeviceConfig_step_cut (l : loc) (confs : string) (w : World) :
  char_in "=" confs = true ->
  readDeviceConfig_step (Some l) confs w =
  (Done tt, assigned l (before_byte "=" confs)
              (coerce (before_byte "=" (after_byte "=" confs))) w).
Proof.
  intros H. unfold readDeviceConfig_step, strings_Split, slice_index, bind.
  rewrite Split_from_lookup_0, (Split_from_lookup_1 _ _ _ H). reflexivity.
Qed.

Lemma before_byte_app (sep : ascii) (a b : string) :
  char_in sep a = false -> before_byte sep (a +:+ String sep b) = a.
Proof.
  unfold before_byte.
  induction a as [|c a IH]; intros H; rewrite ?append_cons; simpl in *.
  - by rewrite Ascii.eqb_refl.
  - apply orb_false_iff in H. destruct H as [Hc Ha].
    rewrite Ascii.eqb_sym, Hc. simpl. f_equal. by apply IH.
Qed.

Lemma after_byte_app (sep : ascii) (a b : string) :
  char_in sep a = false -> after_byte sep (a +:+ String sep b) = b.
Proof.
  induction a as [|c a IH]; intros H; rewrite ?append_cons; simpl in *.
  - by rewrite Ascii.eqb_refl.
  - apply orb_false_iff in H. destruct H as [Hc Ha].
    rewrite Ascii.eqb_sym, Hc. by apply IH.
Qed.

Lemma char_in_app (sep : ascii) (a b : string) :
  char_in sep (a +:+ b) = char_in sep a || char_in sep b.
Proof.
  induction a as [|c a IH]; [done|]. rewrite append_cons. simpl.
  by rewrite IH, orb_assoc.
Qed.

Lemma before_byte_none (sep : ascii) (s : string) :
  char_in sep s = false -> before_byte sep s = s.
Proof.
  unfold before_byte.
  induction s as [|c s IH]; intros H; [done|]. simpl in H.
  apply orb_false_iff in H. destruct H as [Hc Hs].
  simpl. rewrite Ascii.eqb_sym, Hc. simpl. f_equal. by apply IH.
Qed.

Lemma readDeviceConfig_step_clean (l : loc) (key a : string) (w : World) :
  char_in "=" key = false -> char_in "=" a = false ->
  readDeviceConfig_step (Some l) (key +:+ "=" +:+ a) w =
    (Done tt, assigned l key (coerce a) w).
Proof.
  intros Hk Ha. rewrite readDeviceConfig_step_cut.
  - change (key +:+ "=" +:+ a) with (key +:+ String "=" a).
    rewrite before_byte_app, after_byte_app by done.
    by rewrite before_byte_none.
  - rewrite char_in_app. simpl. by rewrite orb_true_r.
Qed.

(** X7. A segment is cut at its [=] signs: the key is the text before the
    first [=], the value the text between the first and the second one,
    and whatever follows a second [=] is dropped without an error. So a
    segment [key=a=b] sets [key] to the coerced [a]. *)
Theorem segment_is_cut_at_equal_signs (l : loc) (key a b : string) (w : World) :
  char_in "=" key = false -> char_in "=" a = false ->
  readDeviceConfig_step (Some l) (key +:+ "=" +:+ a) w =
    (Done tt, assigned l key (coerce a) w) /\
  readDeviceConfig_step (Some l) (key +:+ "=" +:+ a +:+ "=" +:+ b) w =
    (Done tt, assigned l key (coerce a) w).
Proof.
  intros Hk Ha. split; [by apply readDeviceConfig_step_clean|].
  rewrite readDeviceConfig_step_cut.
  - change (key +:+ "=" +:+ a +:+ "=" +:+ b) with (key +:+ String "=" (a +:+ String "=" b)).
    rewrite (before_byte_app "=" key), (after_byte_app "=" key) by done.
    by rewrite before_byte_app.
  - rewrite char_in_app. simpl. by rewrite orb_true_r.
Qed.

(** ** Attributes written and read back *)

Lemma all_chars_app (f : ascii -> bool) (a b : string) :
  all_chars f (a +:+ b) = all_chars f a && all_chars f b.
Proof.
  induction a as [|c a IH]; [done|]. rewrite append_cons. simpl.
  by rewrite IH, andb_assoc.
Qed.

Lemma all_digits_pretty_N_go (x : N) (s : string) :
  all_chars is_digit s = true -> all_chars is_digit (pretty_N_go x s) = true.
Proof.
  revert s. induction (N.lt_wf_0 x) as [x _ IH]. intros s Hs.
  destruct (decide (x = 0%N)) as [->|Hx].
  - by rewrite pretty_N_go_0.
  - rewrite pretty_N_go_step by lia. apply IH; [apply N.div_lt; lia|].
    simpl. rewrite Hs, andb_true_r. apply is_digit_pretty_N_char. apply N.mod_lt. lia.
Qed.

Lemma all_digits_Itoa (i : Z) : 0 <= i -> all_chars is_digit (strconv_Itoa i) = true.
Proof.
  intros Hi. unfold strconv_Itoa, pretty, pretty_Z. destruct i as [|q|q]; [done| |lia].
  unfold pretty, pretty_positive, pretty, pretty_N. rewrite decide_False by lia.
  by apply all_digits_pretty_N_go.
Qed.

Lemma all_chars_not_in (f : ascii -> bool) (sep : ascii) (s : string) :
  f sep = false -> all_chars f s = true -> char_in sep s = false.
Proof.
  intros Hsep. induction s as [|c s IH]; [done|]. simpl. intros H.
  apply andb_true_iff in H. destruct H as [Hc Hs]. rewrite (IH Hs), orb_false_r.
  destruct (Ascii.eqb_spec sep c) as [->|]; [congruence|done].
Qed.

(** X8. An attribute written by the generic pass and read back by the
    decoder keeps its key; a positive integer comes back as the same
    integer, the boolean [true] comes back as the integer 1 (not as a
    boolean), and a string that holds no [=] and is neither a numeral
    nor a spelling of a boolean comes back as itself. *)
Theorem attribute_round_trip (ign : list string) (key : string) (l : loc) (w : World) :
  inArray ign key = false -> char_in "=" key = false ->
  (forall i, 0 < i <= max_int64 ->
     exists token,
       createDeviceParam_step ign [] (key, IInt i) = [token] /\
       readDeviceConfig_step (Some l) token w = (Done tt, assigned l key (IInt i) w)) /\
  (exists token,
     createDeviceParam_step ign [] (key, IBool true) = [token] /\
     readDeviceConfig_step (Some l) token w = (Done tt, assigned l key (IInt 1) w)) /\
  (forall s, s <> "" -> char_in "=" s = false ->
     strconv_ParseInt s = None -> strconv_ParseBool s = None ->
     exists token,
       createDeviceParam_step ign [] (key, IStr s) = [token] /\
       readDeviceConfig_step (Some l) token w = (Done tt, assigned l key (IStr s) w)).
Proof.
  intros Hign Hkey. repeat split.
  - intros i Hi. eexists. unfold createDeviceParam_step, confValue. rewrite Hign.
    rewrite (proj2 (Z.ltb_lt 0 i)) by lia. cbn [app fmtV]. split; [reflexivity|].
    assert (Hd : char_in "=" (strconv_Itoa i) = false).
    { apply (all_chars_not_in is_digit); [done|]. apply all_digits_Itoa. lia. }
    rewrite (readDeviceConfig_step_clean l key (strconv_Itoa i) w Hkey Hd).
    do 2 f_equal. apply coerce_int. apply strconv_ParseInt_Itoa.
    unfold in_int64, min_int64. lia.
  - eexists. unfold createDeviceParam_step, confValue. rewrite Hign.
    cbn [app fmtV]. split; [reflexivity|].
    by rewrite (readDeviceConfig_step_clean l key "1" w Hkey eq_refl).
  - intros s Hs Heq Hint Hbool. eexists. unfold createDeviceParam_step, confValue.
    rewrite Hign, (length_nonempty s Hs). cbn [app fmtV]. split; [reflexivity|].
    rewrite (readDeviceConfig_step_clean l key s w Hkey Heq).
    do 2 f_equal. unfold coerce. by rewrite Hint, Hbool.
Qed.

(** ** Reading back: the lock *)

Lemma polls_snoc (k : nat) (v : VmRef) :
  (polls k v ++ [EvGetVmConfig v; EvSleep 8] = polls (S k) v)%list.
Proof. induction k as [|k IH]; [done|]. simpl. by rewrite IH. Qed.

Lemma lock_loop_fetch (n : nat) (vmr : loc) (v : VmRef) (vmConfig : gmap string iface)
    (w : World) :
  w_vmrefs w !! vmr = Some v ->
  lock_loop (S n) (Some vmr) vmConfig w =
  match client_GetVmConfig v (w_client w) with
  | ((_, Some _), cs) => (Exit 1, set_client cs (log_event (EvGetVmConfig v) w))
  | ((vmConfig', None), cs) =>
      match attr vmConfig' "lock" with
      | INil => (Done vmConfig', set_client cs (log_event (EvGetVmConfig v) w))
      | _ => lock_loop n (Some vmr) vmConfig'
               (log_event (EvSleep 8) (set_client cs (log_event (EvGetVmConfig v) w)))
      end
  end.
Proof.
  intros Hv. cbn [lock_loop].
  unfold bind at 1, call_GetVmConfig, bind at 1, deref_vmr. cbn [mbind option_bind].
  rewrite Hv. cbn beta iota.
  destruct (client_GetVmConfig v (w_client w)) as [[cfg [e|]] cs]; [reflexivity|].
  cbn beta iota. destruct (attr cfg "lock"); reflexivity.
Qed.

Lemma lock_loop_polled (k n : nat) (vmr : loc) (v : VmRef) (vmConfig : gmap string iface)
    (cs : ClientState) (w : World) :
  w_vmrefs w !! vmr = Some v ->
  after_locked k v (w_client w) = Some cs ->
  exists vmConfig',
    lock_loop (k + S n) (Some vmr) vmConfig w =
    lock_loop (S n) (Some vmr) vmConfig' (polled k v cs w).
Proof.
  revert vmConfig w. induction k as [|k IH]; intros vmConfig w Hv Hk.
  - injection Hk as <-. exists vmConfig. unfold polled. rewrite app_nil_r.
    by destruct w.
  - change (S k + S n)%nat with (S (k + S n)). rewrite (lock_loop_fetch _ vmr v) by done.
    cbn [after_locked] in Hk.
    destruct (client_GetVmConfig v (w_client w)) as [[cfg [e|]] cs1]; [done|].
    set (w1 := log_event (EvSleep 8) (set_client cs1 (log_event (EvGetVmConfig v) w))).
    assert (Hw1 : forall cfg', after_locked k v cs1 = Some cs -> exists vmConfig',
      lock_loop (k + S n) (Some vmr) cfg' w1 =
      lock_loop (S n) (Some vmr) vmConfig' (polled (S k) v cs w)).
    { intros cfg' Hk'. destruct (IH cfg' w1) as (c' & E); [done|exact Hk'|].
      exists c'. rewrite E. f_equal. unfold polled, w1. simpl.
      by rewrite <- !app_assoc. }
    destruct (attr cfg "lock"); [done|by apply Hw1..].
Qed.

(** X9. When the first [k] fetches (at most two) report a lock and the
    next one reports none, the read-back decodes that configuration: it
    has fetched [k + 1] times and slept [k] times 8 seconds, and nothing
    but the client and the trace has changed by then. *)
Theorem unlocked_readback_decodes (k : nat) (vmr : loc) (v : VmRef)
    (vmConfig : gmap string iface) (cs cs' : ClientState) (w : World) :
  (k < 3)%nat ->
  w_vmrefs w !! vmr = Some v ->
  after_locked k v (w_client w) = Some cs ->
  client_GetVmConfig v cs = ((vmConfig, None), cs') ->
  attr vmConfig "lock" = INil ->
  let w1 := set_client cs' (log_event (EvGetVmConfig v) (polled k v cs w)) in
  NewConfigQemuFromApi (Some vmr) w =
    (do config <- config_of_vmConfig vmConfig; ret (Some config, None)) w1 /\
  w_trace w1 = (w_trace w ++ polls k v ++ [EvGetVmConfig v])%list /\
  fetch_count (w_trace w1) = (fetch_count (w_trace w) + k + 1)%nat /\
  sleep_total (w_trace w1) = sleep_total (w_trace w) + 8 * Z.of_nat k.
Proof.
  intros Hk Hv Hl Hg Hu w1.
  assert (E : exists n, (3 = k + S n)%nat) by (exists (2 - k)%nat; lia).
  destruct E as [n E].
  destruct (lock_loop_polled k n vmr v ∅ cs w Hv Hl) as (c' & Hrun).
  split.
  - unfold NewConfigQemuFromApi. unfold bind at 1. rewrite E, Hrun.
    rewrite (lock_loop_fetch _ vmr v) by done.
    change (w_client (polled k v cs w)) with cs. rewrite Hg, Hu. cbn beta iota.
    by rewrite Hu.
  - assert (Ht : w_trace w1 = (w_trace w ++ polls k v ++ [EvGetVmConfig v])%list).
    { unfold w1. simpl. by rewrite <- app_assoc. }
    split; [exact Ht|]. rewrite Ht, !sleep_total_app. unfold fetch_count.
    rewrite !List.filter_app, !length_app.
    assert (Hp : length (List.filter is_fetch (polls k v)) = k /\
                 sleep_total (polls k v) = 8 * Z.of_nat k).
    { clear. induction k as [|k [IH1 IH2]]; [done|]. split.
      - simpl. by rewrite IH1.
      - change (sleep_total (polls (S k) v)) with (8 + sleep_total (polls k v)). lia. }
    destruct Hp as [-> ->]. simpl. split; lia.
Qed.

(** X10. A fetch that fails ends the process ([log.Fatal]): the
    read-back neither returns the error nor retries. When the first [k]
    fetches report a lock and the next one fails, the run stops after
    [k + 1] fetches and [k] sleeps. *)
Theorem failed_fetch_ends_the_process (k : nat) (vmr : loc) (v : VmRef)
    (vmConfig : gmap string iface) (e : error) (cs cs' : ClientState) (w : World) :
  (k < 3)%nat ->
  w_vmrefs w !! vmr = Some v ->
  after_locked k v (w_client w) = Some cs ->
  client_GetVmConfig v cs = ((vmConfig, Some e), cs') ->
  exists w1,
    NewConfigQemuFromApi (Some vmr) w = (Exit 1, w1) /\
    w_trace w1 = (w_trace w ++ polls k v ++ [EvGetVmConfig v])%list.
Proof.
  intros Hk Hv Hl Hg.
  assert (E : exists n, (3 = k + S n)%nat) by (exists (2 - k)%nat; lia).
  destruct E as [n E].
  destruct (lock_loop_polled k n vmr v ∅ cs w Hv Hl) as (c' & Hrun).
  eexists. unfold NewConfigQemuFromApi. unfold bind at 1. rewrite E, Hrun.
  rewrite (lock_loop_fetch _ vmr v) by done.
  change (w_client (polled k v cs w)) with cs. rewrite Hg.
  split; [reflexivity|]. simpl. by rewrite <- app_assoc.
Qed.

(** ** Reading back: the fields *)

Ltac field_step key :=
  destruct (attr _ key);
  cbn beta iota delta [bind assert_float64 assert_string ret panic];
  try (eexists; reflexivity).

(** X11. The read-back requires the fields [name], [onboot], [ostype],
    [memory], [cores] and [sockets]: on an unlocked configuration that
    lacks one of them (Proxmox leaves out [onboot] when it is not set)
    the decoding panics on the type assertion, before any table is
    made. *)
Theorem missing_field_panics (vmConfig : gmap string iface) (w : World) :
  attr vmConfig "name" = INil \/ attr vmConfig "onboot" = INil \/
  attr vmConfig "ostype" = INil \/ attr vmConfig "memory" = INil \/
  attr vmConfig "cores" = INil \/ attr vmConfig "sockets" = INil ->
  exists msg, config_of_vmConfig vmConfig w = (Panic msg, w).
Proof.
  intros H. unfold config_of_vmConfig.
  destruct H as [H|[H|[H|[H|[H|H]]]]]; rewrite H;
    cbn beta iota delta [bind assert_float64 assert_string ret panic];
    field_step "fullclone"; field_step "description";
    try field_step "name"; try field_step "onboot"; try field_step "ostype";
    try field_step "memory"; try field_step "cores"; try field_step "sockets".
Qed.

Lemma device_names_none (lit : string) (vmConfig : gmap string iface) (w : World) :
  no_device lit vmConfig ->
  device_names lit vmConfig w = (Done [], next_range w).
Proof.
  intros Hno. unfold device_names, bind, range_entries, ret. f_equal. f_equal.
  assert (H : forall e, e ∈ by_rank (key_rank (w_ranges w)) (map_to_list vmConfig) ->
              find_lit_digits lit e.1 = []).
  { intros [k x] He. rewrite by_rank_perm in He. apply elem_of_map_to_list in He.
    by apply (Hno k x). }
  induction (by_rank (key_rank (w_ranges w)) (map_to_list vmConfig)) as [|e l IH];
    [done|].
  cbn [flat_map]. rewrite (H e) by left. rewrite IH; [done|].
  intros e' He'. apply H. by right.
Qed.

Lemma rxIso_FindStringSubmatch_unfold (s : string) :
  rxIso_FindStringSubmatch s =
  match rxIso_at s with
  | Some g => [g +:+ ",media"; g]
  | None =>
      match s with
      | EmptyString => []
      | String _ s' => rxIso_FindStringSubmatch s'
      end
  end.
Proof. destruct s; reflexivity. Qed.

Lemma rxIso_at_unfold (s : string) :
  rxIso_at s =
  if String.prefix ",media" s then Some ""
  else
    match s with
    | EmptyString => None
    | String c s' =>
        if Ascii.eqb c "010"%char then None
        else option_map (String c) (rxIso_at s')
    end.
Proof. destruct s; reflexivity. Qed.

(** What [CreateVm] sends under [ide2] is read back as the image: the
    group of [rxIso] in [<iso>,media=cdrom] is [<iso>] when the image
    name holds neither a comma nor a newline. *)
Lemma rxIso_round_trip (iso : string) :
  char_in "," iso = false -> char_in "010" iso = false ->
  rxIso_FindStringSubmatch (iso +:+ ",media=cdrom") = [iso +:+ ",media"; iso].
Proof.
  intros Hc Hn. rewrite rxIso_FindStringSubmatch_unfold.
  assert (E : rxIso_at (iso +:+ ",media=cdrom") = Some iso); [|by rewrite E].
  induction iso as [|c iso IH]; [reflexivity|].
  cbn [char_in] in Hc, Hn. apply orb_false_iff in Hc, Hn.
  destruct Hc as [Hc Hc'], Hn as [Hn Hn'].
  rewrite append_cons, rxIso_at_unfold.
  assert (String.prefix ",media" (String c (iso +:+ ",media=cdrom")) = false) as ->.
  { cbn [String.prefix]. destruct (ascii_dec "," c) as [<-|?]; [done|reflexivity]. }
  rewrite Ascii.eqb_sym, Hn, IH by done. reflexivity.
Qed.

Lemma disks_table_ne_networks_table (w : World) : disks_table w <> networks_table w.
Proof.
  unfold networks_table. intros E.
  apply (is_fresh (dom (<[disks_table w := ∅]> (w_tables w)))).
  rewrite <- E, dom_insert. set_solver.
Qed.

(** X12. A configuration without disks and network interfaces is read
    back field by field: the numbers through [int], the boot flag through
    [Itob], the description trimmed, [fullclone] defaulting to 1, the
    image taken from [ide2] up to [,media]; the VLAN tag is always -1 and
    the deprecated fields are empty; the disks and the network interfaces
    get two new tables, distinct and empty. *)
Theorem plain_config_decoding (vmConfig : gmap string iface) (w : World)
    (fullclone : Z) (description name ostype iso : string)
    (onboot memory cores sockets : float64) :
  (attr vmConfig "fullclone" = INil /\ fullclone = 1 \/
   exists f, attr vmConfig "fullclone" = IFloat f /\ fullclone = int_of_float64 f) ->
  (attr vmConfig "description" = INil /\ description = "" \/
   attr vmConfig "description" = IStr description) ->
  attr vmConfig "name" = IStr name ->
  attr vmConfig "onboot" = IFloat onboot ->
  attr vmConfig "ostype" = IStr ostype ->
  attr vmConfig "memory" = IFloat memory ->
  attr vmConfig "cores" = IFloat cores ->
  attr vmConfig "sockets" = IFloat sockets ->
  (attr vmConfig "ide2" = INil /\ iso = "" \/
   attr vmConfig "ide2" = IStr (iso +:+ ",media=cdrom") /\
   char_in "," iso = false /\ char_in "010" iso = false) ->
  no_device "virtio" vmConfig -> no_device "net" vmConfig ->
  config_of_vmConfig vmConfig w =
    (Done {| Name := name;
             Description := strings_TrimSpace description;
             Onboot := Itob (int_of_float64 onboot);
             Memory := int_of_float64 memory;
             Storage := "";
             QemuOs := ostype;
             QemuCores := int_of_float64 cores;
             QemuSockets := int_of_float64 sockets;
             QemuIso := iso;
             QemuDisks := Some (disks_table w);
             QemuNetworks := Some (networks_table w);
             FullClone := Some fullclone;
             QemuNicModel := "";
             QemuBrige := "";
             QemuVlanTag := -1;
             DiskSize := zero_float64 |},
     next_range (next_range (with_device_tables w))) /\
  disks_table w <> networks_table w /\
  (disks_table w ∉ dom (w_tables w)) /\ (networks_table w ∉ dom (w_tables w)) /\
  table_of (with_device_tables w) (Some (disks_table w)) = ∅ /\
  table_of (with_device_tables w) (Some (networks_table w)) = ∅.
Proof.
  intros Hfc Hd Hname Hob Hos Hmem Hcores Hsock Hiso Hnd Hnn.
  pose proof (disks_table_ne_networks_table w) as Hne.
  split; [|split; [done|repeat split]].
  - unfold config_of_vmConfig.
    assert (E1 : (match attr vmConfig "fullclone" with
                  | INil => ret 1
                  | v => do f <- assert_float64 v; ret (int_of_float64 f)
                  end) w = (Done fullclone, w)).
    { destruct Hfc as [[-> ->]|(f & -> & ->)]; reflexivity. }
    assert (E2 : (match attr vmConfig "description" with
                  | INil => ret ""
                  | v => assert_string v
                  end) w = (Done description, w)).
    { destruct Hd as [[-> ->]| ->]; reflexivity. }
    unfold bind at 1. rewrite E1. unfold bind at 1. rewrite E2.
    rewrite Hname, Hob, Hos, Hmem, Hcores, Hsock.
    destruct Hiso as [[Hi ->]|(Hi & Hc & Hn)]; rewrite Hi;
      cbn beta iota zeta delta [bind assert_string assert_float64 ret make_table];
      [|unfold bind at 1; unfold bind at 1; unfold ret at 1; cbn beta iota;
        rewrite rxIso_round_trip by done;
        change (slice_index [iso +:+ ",media"; iso] 1) with (ret iso);
        unfold ret at 1; cbn beta iota];
      (unfold bind at 1; rewrite (device_names_none "virtio") by done;
       cbn beta iota zeta delta [bind forM ret];
       unfold bind at 1; rewrite (device_names_none "net") by done;
       reflexivity).
  - exact (is_fresh (dom (w_tables w))).
  - intros Hin. apply (is_fresh (dom (<[disks_table w := ∅]> (w_tables w)))).
    fold (networks_table w). rewrite dom_insert. by apply elem_of_union_r.
  - unfold table_of, with_device_tables. simpl.
    rewrite lookup_insert_ne by done. by rewrite lookup_insert_eq.
  - unfold table_of, with_device_tables. simpl. by rewrite lookup_insert_eq.
Qed.

(** ** Reading back: the devices *)

Lemma take_while_all (f : ascii -> bool) (s : string) :
  all_chars f s = true -> take_while f s = s.
Proof.
  induction s as [|c s IH]; [done|]. cbn [all_chars take_while]. intros H.
  apply andb_true_iff in H. destruct H as [-> Hs]. by rewrite IH.
Qed.

Lemma take_while_app (f : ascii -> bool) (a b : string) :
  all_chars f a = true -> take_while f (a +:+ b) = a +:+ take_while f b.
Proof.
  induction a as [|c a IH]; [done|]. rewrite !append_cons.
  cbn [all_chars take_while]. intros H.
  apply andb_true_iff in H. destruct H as [-> Hs]. by rewrite IH.
Qed.

Lemma find_run_skip (f : ascii -> bool) (a b : string) :
  all_chars (fun c => negb (f c)) a = true -> find_run f (a +:+ b) = find_run f b.
Proof.
  induction a as [|c a IH]; [done|]. rewrite append_cons.
  cbn [all_chars find_run]. intros H.
  apply andb_true_iff in H. destruct H as [Hc Hs].
  apply negb_true_iff in Hc. rewrite Hc. by apply IH.
Qed.

Lemma find_run_all (f : ascii -> bool) (s : string) :
  s <> "" -> all_chars f s = true -> find_run f s = [s].
Proof.
  destruct s as [|c s]; [done|]. intros _. cbn [all_chars find_run]. intros H.
  apply andb_true_iff in H. destruct H as [-> Hs]. by rewrite take_while_all.
Qed.

Lemma find_run_prefix (f : ascii -> bool) (a b : string) :
  a <> "" -> all_chars f a = true ->
  b <> "" -> all_chars (fun c => negb (f c)) b = true ->
  find_run f (a +:+ b) = [a].
Proof.
  destruct a as [|c a]; [done|]. intros _ Ha Hb Hb'. rewrite append_cons.
  cbn [all_chars find_run] in *.
  apply andb_true_iff in Ha. destruct Ha as [-> Ha].
  rewrite take_while_app by done.
  destruct b as [|c' b]; [done|]. cbn [all_chars take_while] in *.
  apply andb_true_iff in Hb'. destruct Hb' as [Hc' _].
  apply negb_true_iff in Hc'. by rewrite Hc', append_nil_r.
Qed.

Lemma strconv_Atoi_Itoa (i : Z) :
  0 <= i <= max_int64 -> strconv_Atoi (strconv_Itoa i) = (i, true).
Proof.
  unfold strconv_Itoa, pretty, pretty_Z. intros Hi.
  destruct i as [|q|q]; [reflexivity| |lia].
  unfold pretty, pretty_positive, pretty, pretty_N. rewrite decide_False by lia.
  destruct (pretty_N_go_head (N.pos q) "") as (c & t & E & Hc); [lia|].
  assert (P := parse_digits_pretty_N_go (N.pos q) ""). rewrite E in P |- *.
  unfold strconv_Atoi.
  assert (Ascii.eqb c "+" = false) as ->.
  { destruct (Ascii.eqb_spec c "+"); [subst; discriminate|done]. }
  assert (Ascii.eqb c "-" = false) as ->.
  { destruct (Ascii.eqb_spec c "-"); [subst; discriminate|done]. }
  rewrite P. simpl parse_digits. cbv iota beta.
  rewrite (proj2 (Z.ltb_ge _ _)) by (unfold min_int64; simpl Z.of_N; lia).
  rewrite (proj2 (Z.ltb_ge _ _)) by (simpl Z.of_N; lia).
  reflexivity.
Qed.

(** The index in a device name is read back: [<lit><n>] gives [n]. *)
Lemma device_name_index (lit : string) (n : Z) :
  all_chars (fun c => negb (is_digit c)) lit = true -> 0 <= n ->
  find_run is_digit (lit +:+ strconv_Itoa n) = [strconv_Itoa n].
Proof.
  intros Hlit Hn. rewrite find_run_skip by done.
  apply find_run_all; [apply Itoa_nonempty | by apply all_digits_Itoa].
Qed.

Lemma device_name_type (lit : string) (n : Z) :
  lit <> "" -> all_chars (fun c => negb (is_digit c)) lit = true -> 0 <= n ->
  find_run (fun c => negb (is_digit c)) (lit +:+ strconv_Itoa n) = [lit].
Proof.
  intros Hne Hlit Hn. apply find_run_prefix; [done|done|apply Itoa_nonempty|].
  pose proof (all_digits_Itoa n Hn) as H.
  induction (strconv_Itoa n) as [|c s IH]; [done|]. cbn [all_chars] in *.
  apply andb_true_iff in H. destruct H as [-> Hs]. by apply IH.
Qed.

(** A store that differs from [w] in the map [l] only. *)
Lemma readDeviceConfig_good (l : loc) (good : list string) (w : World) :
  Forall (fun confs => char_in "=" confs = true) good ->
  exists w',
    readDeviceConfig (Some l) good w = (Done None, w') /\
    map_of w' (Some l) = decoded (map_of w (Some l)) good /\
    w_tables w' = w_tables w.
Proof.
  intros Hgood. revert w.
  induction Hgood as [|confs good Hc _ IH]; intros w.
  - exists w. by repeat split.
  - destruct (IH (assigned l (segment_key confs) (coerce (segment_value confs)) w))
      as (w' & H1 & H2 & H3).
    exists w'. rewrite readDeviceConfig_cons, readDeviceConfig_step_good by done.
    repeat split; [done| |done].
    rewrite H2, map_of_assigned. done.
Qed.

Lemma decoded_nonempty (m : QemuDevice) (confList : list string) :
  m <> ∅ -> decoded m confList <> ∅.
Proof.
  revert m. induction confList as [|confs l IH]; intros m Hm; [done|].
  apply IH. apply (insert_non_empty (M := gmap string)).
Qed.

(** What both device decoders do once the name and the first segment are
    read: a new map with the attributes of the first segment, the other
    segments decoded into it, and the map put into the table. *)
Lemma device_map_decoding (d : QemuDevice) (rest : list string) (t : loc) (n : Z)
    (w : World) :
  d <> ∅ ->
  Forall (fun confs => char_in "=" confs = true) rest ->
  exists w',
    (do m <- make_map d;
     do _ <- readDeviceConfig m rest;
     fun w0 =>
       if (0 <? size (map_of w0 m))%nat
       then table_assign (Some t) n m w0
       else (Done tt, w0)) w = (Done tt, w') /\
    table_of w' (Some t) = <[n := Some (fresh (dom (w_maps w)))]> (table_of w (Some t)) /\
    map_of w' (Some (fresh (dom (w_maps w)))) = decoded d rest.
Proof.
  intros Hd Hrest. set (l := fresh (dom (w_maps w))).
  unfold bind at 1. unfold make_map at 1. cbn beta iota zeta. fold l.
  set (w1 := set_maps _ w).
  destruct (readDeviceConfig_good l rest w1 Hrest) as (w2 & Hrun & Hmap & Htab).
  assert (Hm1 : map_of w1 (Some l) = d).
  { unfold map_of, w1. simpl. by rewrite lookup_insert_eq. }
  rewrite Hm1 in Hmap.
  unfold bind at 1. rewrite Hrun. cbn beta iota.
  assert ((0 <? size (map_of w2 (Some l)))%nat = true) as ->.
  { apply Nat.ltb_lt. rewrite Hmap.
    pose proof (decoded_nonempty d rest Hd) as Hne.
    apply (map_size_non_empty_iff (M := gmap string)) in Hne. lia. }
  unfold table_assign. eexists. split; [reflexivity|]. split.
  - unfold table_of at 1. simpl. rewrite lookup_insert_eq. simpl.
    unfold table_of. by rewrite Htab.
  - exact Hmap.
Qed.

Lemma slice_index_0 {A} (x : A) (l : list A) (w : World) :
  slice_index (x :: l) 0 w = (Done x, w).
Proof. reflexivity. Qed.

Lemma slice_index_1 {A} (x y : A) (l : list A) (w : World) :
  slice_index (x :: y :: l) 1 w = (Done y, w).
Proof. reflexivity. Qed.

(** X13. A disk entry [virtio<n>] of the form
    [<storage>:<file>,key=value,...] is read back into a new descriptor
    at index [n] of the disk table: [type] is [virtio], [storage] and
    [file] are the two sides of the first colon of the first segment, and
    the other segments are decoded into it in order (so a later [type],
    [storage] or [file] segment overrides the positional one). *)
Theorem disk_entry_decoding (vmConfig : gmap string iface) (t : loc) (n : Z)
    (conf first storage file : string) (rest more : list string) (w : World) :
  0 <= n <= max_int64 ->
  attr vmConfig ("virtio" +:+ strconv_Itoa n) = IStr conf ->
  strings_Split conf "," = first :: rest ->
  strings_Split first ":" = storage :: file :: more ->
  Forall (fun confs => char_in "=" confs = true) rest ->
  exists w',
    decode_disk vmConfig (Some t) ("virtio" +:+ strconv_Itoa n) w = (Done tt, w') /\
    table_of w' (Some t) = <[n := Some (fresh (dom (w_maps w)))]> (table_of w (Some t)) /\
    map_of w' (Some (fresh (dom (w_maps w)))) =
      decoded (list_to_map [("type", IStr "virtio"); ("storage", IStr storage);
                            ("file", IStr file)]) rest.
Proof.
  intros Hn Hattr Hconf Hfirst Hrest.
  unfold decode_disk. rewrite Hattr.
  unfold bind at 1. unfold assert_string, ret at 1. cbn beta iota zeta.
  rewrite Hconf.
  rewrite (device_name_index "virtio") by (done || lia).
  rewrite (device_name_type "virtio") by (done || lia).
  unfold bind at 1. rewrite slice_index_0. cbn beta iota zeta.
  rewrite strconv_Atoi_Itoa by done.
  unfold bind at 1. rewrite slice_index_0. cbn beta iota.
  unfold bind at 1. rewrite slice_index_0. cbn beta iota.
  rewrite Hfirst.
  unfold bind at 1. rewrite slice_index_0. cbn beta iota.
  unfold bind at 1. rewrite slice_index_1. cbn beta iota.
  cbn [tail fst].
  apply (device_map_decoding _ rest t n w); [|done].
  intros E. apply (f_equal (fun m : gmap string iface => m !! "type")) in E.
  by vm_compute in E.
Qed.

(** X14. A network entry [net<n>] of the form
    [<model>=<address>,key=value,...] is read back into a new descriptor
    at index [n] of the network table: [model] and [macaddr] are the two
    sides of the first [=] of the first segment, and the other segments
    are decoded into it in order. *)
Theorem nic_entry_decoding (vmConfig : gmap string iface) (t : loc) (n : Z)
    (conf first model macaddr : string) (rest more : list string) (w : World) :
  0 <= n <= max_int64 ->
  attr vmConfig ("net" +:+ strconv_Itoa n) = IStr conf ->
  strings_Split conf "," = first :: rest ->
  strings_Split first "=" = model :: macaddr :: more ->
  Forall (fun confs => char_in "=" confs = true) rest ->
  exists w',
    decode_nic vmConfig (Some t) ("net" +:+ strconv_Itoa n) w = (Done tt, w') /\
    table_of w' (Some t) = <[n := Some (fresh (dom (w_maps w)))]> (table_of w (Some t)) /\
    map_of w' (Some (fresh (dom (w_maps w)))) =
      decoded (list_to_map [("model", IStr model); ("macaddr", IStr macaddr)]) rest.
Proof.
  intros Hn Hattr Hconf Hfirst Hrest.
  unfold decode_nic. rewrite Hattr.
  unfold bind at 1. unfold assert_string, ret at 1. cbn beta iota zeta.
  rewrite Hconf.
  rewrite (device_name_index "net") by (done || lia).
  unfold bind at 1. rewrite slice_index_0. cbn beta iota zeta.
  rewrite strconv_Atoi_Itoa by done.
  unfold bind at 1. rewrite slice_index_0. cbn beta iota.
  rewrite Hfirst.
  unfold bind at 1. rewrite slice_index_0. cbn beta iota.
  unfold bind at 1. rewrite slice_index_1. cbn beta iota.
  cbn [tail fst].
  apply (device_map_decoding _ rest t n w); [|done].
  intros E. apply (f_equal (fun m : gmap string iface => m !! "model")) in E.
  by vm_compute in E.
Qed.

(** X15. The first segment of a device entry is not checked: a disk
    entry whose first segment holds no colon, or a network entry whose
    first segment holds no [=] (a bare model), makes the read-back panic
    with an index out of range; nothing has been stored by then. *)
Theorem device_entry_without_separator_panics (vmConfig : gmap string iface)
    (table : option loc) (n : Z) (conf : string) (w : World) :
  0 <= n ->
  (attr vmConfig ("virtio" +:+ strconv_Itoa n) = IStr conf ->
   char_in ":" (before_byte "," conf) = false ->
   decode_disk vmConfig table ("virtio" +:+ strconv_Itoa n) w = (Panic index_1_of_1, w)) /\
  (attr vmConfig ("net" +:+ strconv_Itoa n) = IStr conf ->
   char_in "=" (before_byte "," conf) = false ->
   decode_nic vmConfig table ("net" +:+ strconv_Itoa n) w = (Panic index_1_of_1, w)).
Proof.
  intros Hn.
  assert (Hsplit : forall sep, char_in sep (before_byte "," conf) = false ->
    exists first rest, strings_Split conf "," = first :: rest /\
                       strings_Split first sep = [first]).
  { intros sep Hsep. unfold strings_Split.
    pose proof (Split_from_lookup_0 "" conf ",") as H0.
    destruct (Split_from "" conf ",") as [|first rest]; [done|].
    change ("" +:+ before_byte "," conf) with (before_byte "," conf) in H0.
    injection H0 as ->. eexists _, _. split; [reflexivity|].
    pose proof (Split_from_lookup_0 "" (before_byte "," conf) sep) as H0.
    pose proof (Split_from_no_sep "" _ _ Hsep) as H1.
    destruct (Split_from "" (before_byte "," conf) sep) as [|x [|y l]]; try done.
    change ("" +:+ ?s) with s in H0.
    injection H0 as ->. by rewrite (before_byte_none sep) by done. }
  split; intros Hattr Hsep; destruct (Hsplit _ Hsep) as (first & rest & Hconf & Hfirst).
  - unfold decode_disk. rewrite Hattr.
    unfold bind at 1. unfold assert_string, ret at 1. cbn beta iota zeta.
    rewrite Hconf.
    rewrite (device_name_index "virtio") by (done || lia).
    rewrite (device_name_type "virtio") by (done || lia).
    unfold bind at 1. rewrite slice_index_0. cbn beta iota.
    unfold bind at 1. rewrite slice_index_0. cbn beta iota.
    unfold bind at 1. rewrite slice_index_0. cbn beta iota.
    rewrite Hfirst. reflexivity.
  - unfold decode_nic. rewrite Hattr.
    unfold bind at 1. unfold assert_string, ret at 1. cbn beta iota zeta.
    rewrite Hconf.
    rewrite (device_name_index "net") by (done || lia).
    unfold bind at 1. rewrite slice_index_0. cbn beta iota.
    unfold bind at 1. rewrite slice_index_0. cbn beta iota.
    rewrite Hfirst. reflexivity.
Qed.

(** ** Creating a VM *)

Lemma CreateVm_unfold (config : ConfigQemu) (vmr : loc) (v : VmRef) (w : World) :
  w_vmrefs w !! vmr = Some v ->
  CreateVm config (Some vmr) w =
  match CreateQemuDisksParams config (vmId v) "create" (Some (fresh (dom (w_maps w))))
          (create_store config vmr v w) with
  | (Done _, w2) =>
      match CreateQemuNetworksParams config (vmId v) (Some (fresh (dom (w_maps w)))) w2 with
      | (Done _, w3) => call_CreateQemuVm (node v) (Some (fresh (dom (w_maps w)))) w3
      | (Panic msg, w3) => (Panic msg, w3)
      | (Exit code, w3) => (Exit code, w3)
      end
  | (Panic msg, w2) => (Panic msg, w2)
  | (Exit code, w2) => (Exit code, w2)
  end.
Proof.
  intros Hv.
  unfold CreateVm. unfold bind at 1. unfold SetVmType. unfold bind at 1.
  unfold deref_vmr at 1. cbn [mbind option_bind]. rewrite Hv. cbn beta iota.
  unfold bind at 1. unfold deref_vmr at 1. cbn [mbind option_bind].
  cbn [w_vmrefs set_vmrefs]. rewrite lookup_insert_eq. cbn beta iota.
  unfold bind at 1. unfold make_map at 1. cbn beta iota zeta.
  change (set_maps _ (set_vmrefs _ w)) with (create_store config vmr v w).
  cbn [vmId node].
  unfold bind at 1.
  destruct (CreateQemuDisksParams _ _ _ _ _) as [[o2|msg2|code2] w2]; [|reflexivity..].
  unfold bind at 1.
  destruct (CreateQemuNetworksParams _ _ _ _) as [[o3|msg3|code3] w3]; reflexivity.
Qed.

Lemma unaliased_create_store (config : ConfigQemu) (vmr : loc) (v : VmRef) (w : World) :
  wf_store w -> unaliased (fresh (dom (w_maps w))) (create_store config vmr v w).
Proof.
  intros Hwf. split.
  - simpl. rewrite dom_insert. apply elem_of_union_l. by apply elem_of_singleton.
  - intros t T index HT Hi. apply (is_fresh (dom (w_maps w))). by eapply Hwf.
Qed.

(** X16. [CreateVm] sets the type of the reference to [qemu] and then
    either sends exactly one create call, to the node of the reference,
    whose parameters hold the VM id, name, boot flag, OS type, sockets,
    cores, memory, description and the CPU type [host], and returns the
    answer of that call; or an encoder panics and nothing is sent. (The
    [ide2] parameter ends in a digit and may be replaced by a disk of
    that name, so it is not among the guaranteed ones.) *)
Theorem CreateVm_sends_once (config : ConfigQemu) (vmr : loc) (v : VmRef) (w : World) :
  wf_store w ->
  w_vmrefs w !! vmr = Some v ->
  let run := CreateVm config (Some vmr) w in
  w_vmrefs run.2 !! vmr = Some (mkVmRef (vmId v) (node v) "qemu") /\
  ((exists P,
      run.1 = Done (client_CreateQemuVm (node v) P (w_client w)).1 /\
      w_trace run.2 = (w_trace w ++ [EvCreateQemuVm (node v) P])%list /\
      P !! "vmid" = Some (IInt (vmId v)) /\
      P !! "name" = Some (IStr (Name config)) /\
      P !! "onboot" = Some (IBool (Onboot config)) /\
      P !! "ostype" = Some (IStr (QemuOs config)) /\
      P !! "sockets" = Some (IInt (QemuSockets config)) /\
      P !! "cores" = Some (IInt (QemuCores config)) /\
      P !! "cpu" = Some (IStr "host") /\
      P !! "memory" = Some (IInt (Memory config)) /\
      P !! "description" = Some (IStr (Description config)))
   \/
   ((exists msg, run.1 = Panic msg) /\ w_trace run.2 = w_trace w)).
Proof.
  intros Hwf Hv run. unfold run.
  rewrite (CreateVm_unfold config vmr v w Hv).
  set (p := fresh (dom (w_maps w))).
  set (w1 := create_store config vmr v w).
  assert (Hv1 : w_vmrefs w1 !! vmr = Some (mkVmRef (vmId v) (node v) "qemu")).
  { unfold w1. simpl. by rewrite lookup_insert_eq. }
  pose proof (unaliased_create_store config vmr v w Hwf) as Hu. fold p w1 in Hu.
  pose proof (unaliased_steady_disks p config (vmId v) "create" (Some p) w1 Hu)
    as [Hu2 S2].
  pose proof (no_exit_disks config (vmId v) "create" (Some p) w1) as X2.
  destruct (CreateQemuDisksParams config (vmId v) "create" (Some p) w1)
    as [[o2|msg2|code2] w2]; cbn [fst snd] in *.
  2: { destruct S2 as (T2&_&R2&_). split; [by rewrite R2|].
       right. split; [by eexists|]. by rewrite T2. }
  2: { by destruct (X2 code2). }
  pose proof (unaliased_steady_nics p config (vmId v) (Some p) w2 Hu2) as [Hu3 S3].
  pose proof (no_exit_nics config (vmId v) (Some p) w2) as X3.
  destruct (CreateQemuNetworksParams config (vmId v) (Some p) w2)
    as [[o3|msg3|code3] w3]; cbn [fst snd] in *.
  2: { destruct S2 as (T2&_&R2&_), S3 as (T3&_&R3&_). split; [by rewrite R3, R2|].
       right. split; [by eexists|]. by rewrite T3, T2. }
  2: { by destruct (X3 code3). }
  destruct S2 as (T2&C2&R2&_&K2), S3 as (T3&C3&R3&_&K3).
  assert (HP : forall k, ends_in_digit k = false ->
             map_of w3 (Some p) !! k = CreateVm_params config v !! k).
  { intros k Hk. rewrite K3, K2 by done. unfold map_of, w1, create_store. simpl.
    by rewrite lookup_insert_eq. }
  unfold call_CreateQemuVm. rewrite C3, C2.
  change (w_client w1) with (w_client w).
  destruct (client_CreateQemuVm (node v) (map_of w3 (Some p)) (w_client w))
    as [err cs] eqn:Ec.
  cbn [fst snd]. split; [simpl; by rewrite R3, R2|].
  left. exists (map_of w3 (Some p)). rewrite Ec. cbn [fst].
  split; [reflexivity|]. split; [simpl; by rewrite T3, T2|].
  rewrite !HP by reflexivity. repeat split; vm_compute; reflexivity.
Qed.

(** ** The earlier revision *)

Lemma Earlier_createDeviceParam_run (p : QemuDeviceParam) (r : option loc)
    (ign : list string) (w : World) :
  Earlier.createDeviceParam p r ign w =
  (Done (fold_left (Earlier.createDeviceParam_step ign)
           (by_rank (key_rank (w_ranges w)) (map_to_list (map_of w r))) p),
   next_range w).
Proof. reflexivity. Qed.

Lemma Earlier_CreateQemuNetworksParams_legacy (c : ConfigQemu)
    (params : option loc) (w : World) (t : loc) :
  QemuNetworks c = Some t -> w_tables w !! t = Some ∅ -> QemuNicModel c <> "" ->
  Earlier.CreateQemuNetworksParams c params w =
  (do _ <- Earlier.CreateQemuNetworksParams_body params
             (0, Some (fresh (dom (w_maps w))));
   ret None) (synthesized t (deprecated_nic c) w).
Proof.
  intros Hc HT Hs. unfold Earlier.CreateQemuNetworksParams. unfold bind at 1.
  unfold table_len. cbn beta iota.
  rewrite Hc, (table_of_Some _ _ _ HT), map_size_empty.
  rewrite (length_nonempty _ Hs). cbn [Nat.eqb andb].
  unfold bind at 1. unfold bind at 1. unfold make_map at 1. cbn beta iota.
  unfold table_assign at 1. cbn beta iota.
  change (table_of (set_maps ?f w) (Some t)) with (table_of w (Some t)).
  rewrite (table_of_Some _ _ _ HT), insert_empty.
  unfold bind at 1. unfold range_table at 1. cbn beta iota.
  unfold synthesized.
  set (l := fresh (dom (w_maps w))).
  match goal with |- context [by_rank ?r (map_to_list ?T)] =>
    assert (HT' : T = {[0 := Some l]}) end.
  { unfold table_of, set_tables, set_maps. simpl. by rewrite lookup_insert_eq. }
  rewrite HT', map_to_list_singleton, by_rank_singleton.
  unfold bind. rewrite forM_singleton. reflexivity.
Qed.

Lemma Earlier_CreateQemuDisksParams_legacy (c : ConfigQemu)
    (params : option loc) (w : World) (t : loc) :
  QemuDisks c = Some t -> w_tables w !! t = Some ∅ -> Storage c <> "" ->
  Earlier.CreateQemuDisksParams c params w =
  (do _ <- Earlier.CreateQemuDisksParams_body params
             (0, Some (fresh (dom (w_maps w))));
   ret None) (synthesized t (deprecated_disk c) w).
Proof.
  intros Hc HT Hs. unfold Earlier.CreateQemuDisksParams. unfold bind at 1.
  unfold table_len. cbn beta iota.
  rewrite Hc, (table_of_Some _ _ _ HT), map_size_empty.
  rewrite (length_nonempty _ Hs). cbn [Nat.eqb andb].
  unfold bind at 1. unfold bind at 1. unfold make_map at 1. cbn beta iota.
  unfold table_assign at 1. cbn beta iota.
  change (table_of (set_maps ?f w) (Some t)) with (table_of w (Some t)).
  rewrite (table_of_Some _ _ _ HT), insert_empty.
  unfold bind at 1. unfold range_table at 1. cbn beta iota.
  unfold synthesized.
  set (l := fresh (dom (w_maps w))).
  match goal with |- context [by_rank ?r (map_to_list ?T)] =>
    assert (HT' : T = {[0 := Some l]}) end.
  { unfold table_of, set_tables, set_maps. simpl. by rewrite lookup_insert_eq. }
  rewrite HT', map_to_list_singleton, by_rank_singleton.
  unfold bind. rewrite forM_singleton. reflexivity.
Qed.

(** The generic attributes of the descriptor made of the deprecated
    network fields: the VLAN tag, when there is one. *)
Lemma Earlier_deprecated_nic_tokens (c : ConfigQemu) (rank : string -> nat)
    (p : QemuDeviceParam) :
  fold_left (Earlier.createDeviceParam_step Earlier.nic_ignoredKeys)
    (by_rank rank (map_to_list (deprecated_nic c))) p =
  (p ++ if (0 <? QemuVlanTag c)%Z
        then ["tag=" +:+ strconv_Itoa (QemuVlanTag c)] else [])%list.
Proof.
  pose proof (by_rank_perm rank (map_to_list (deprecated_nic c))) as Hperm.
  assert (Htag : Earlier.confValue (IStr (strconv_Itoa (QemuVlanTag c)))
                 = IStr (strconv_Itoa (QemuVlanTag c))).
  { unfold Earlier.confValue. by rewrite (length_nonempty _ (Itoa_nonempty _)). }
  assert (HL : map_to_list (deprecated_nic c) ≡ₚ
    ((if (0 <? QemuVlanTag c)%Z
      then [("tag", IStr (strconv_Itoa (QemuVlanTag c)))] else []) ++
     [("type", IStr (QemuNicModel c)); ("bridge", IStr (QemuBrige c))])%list).
  { unfold deprecated_nic. cbv zeta. unfold QemuDevice.
    destruct (0 <? QemuVlanTag c)%Z.
    - rewrite map_to_list_insert by (by simplify_map_eq).
      rewrite map_to_list_insert by (by simplify_map_eq).
      rewrite map_to_list_insert by (by simplify_map_eq).
      by rewrite map_to_list_empty.
    - rewrite map_to_list_insert by (by simplify_map_eq).
      rewrite map_to_list_insert by (by simplify_map_eq).
      by rewrite map_to_list_empty. }
  assert (Hperm' := Permutation_trans Hperm HL). clear HL Hperm.
  rename Hperm' into Hperm. symmetry in Hperm. apply permutations_Permutation in Hperm.
  destruct (0 <? QemuVlanTag c)%Z; cbn in Hperm; set_unfold in Hperm.
  - destruct Hperm as [->|[->|[->|[->|[->|[->|[]]]]]]];
      cbn [fold_left Earlier.createDeviceParam_step]; rewrite Htag;
      cbn; by rewrite ?app_nil_r.
  - destruct Hperm as [->|[->|[]]]; cbn; by rewrite ?app_nil_r.
Qed.

(** X17. In the earlier revision the deprecated network fields are still
    encoded: with an empty table and a non-empty [QemuNicModel], the
    encoder writes [net0] as the model (up to its first [=]), then
    [bridge=<QemuBrige>] unless the bridge is [nat], then
    [tag=<QemuVlanTag>] when the tag is positive. *)
Theorem earlier_legacy_nic_encoding (c : ConfigQemu) (params t : loc) (w : World) :
  QemuNetworks c = Some t -> w_tables w !! t = Some ∅ -> QemuNicModel c <> "" ->
  exists w',
    Earlier.CreateQemuNetworksParams c (Some params) w = (Done None, w') /\
    map_of w' (Some params) !! "net0" =
      Some (IStr (strings_Join
        ([before_byte "=" (QemuNicModel c)] ++ bridge_token (QemuBrige c)
           ++ (if (0 <? QemuVlanTag c)%Z
               then ["tag=" +:+ strconv_Itoa (QemuVlanTag c)] else []))%list ",")).
Proof.
  intros Hc HT Hs.
  rewrite (Earlier_CreateQemuNetworksParams_legacy c (Some params) w t) by done.
  set (l := fresh (dom (w_maps w))). set (w1 := synthesized t (deprecated_nic c) w).
  assert (Hm : map_of w1 (Some l) = deprecated_nic c).
  { unfold map_of, w1, synthesized. simpl. by rewrite lookup_insert_eq. }
  assert (Hty : attr (map_of w1 (Some l)) "type" = IStr (QemuNicModel c)).
  { rewrite Hm. unfold attr, deprecated_nic.
    destruct (0 <? QemuVlanTag c)%Z; by simplify_map_eq. }
  assert (Hbr : attr (map_of w1 (Some l)) "bridge" = IStr (QemuBrige c)).
  { rewrite Hm. unfold attr, deprecated_nic.
    destruct (0 <? QemuVlanTag c)%Z; by simplify_map_eq. }
  unfold bind at 1. unfold Earlier.CreateQemuNetworksParams_body.
  unfold bind at 1. unfold map_index at 1. cbn beta iota. rewrite Hty.
  unfold bind at 1. unfold assert_string at 1, ret at 1. cbn beta iota.
  unfold bind at 1. unfold slice_index, strings_Split.
  rewrite Split_from_lookup_0. change ("" +:+ ?s) with s.
  unfold ret at 1. cbn beta iota.
  unfold bind at 1. unfold map_index at 1. cbn beta iota. rewrite Hbr.
  unfold bind at 1. unfold assert_string at 1, ret at 1. cbn beta iota.
  unfold bind at 1. rewrite Earlier_createDeviceParam_run. cbn beta iota.
  rewrite Hm, Earlier_deprecated_nic_tokens.
  unfold map_assign, ret. eexists. split; [reflexivity|].
  rewrite map_of_assigned, lookup_insert_eq. do 3 f_equal.
  unfold bridge_token. cbn [fmtV].
  destruct (String.eqb (QemuBrige c) "nat"); by rewrite <- ?app_assoc.
Qed.

(** X18. The deprecated disk fields could not be encoded in the earlier
    revision either: the descriptor made of [Storage] and [DiskSize] has
    no [type], and the loop panics on it. *)
Theorem earlier_legacy_disk_panics (c : ConfigQemu) (params : option loc) (w : World)
    (t : loc) :
  QemuDisks c = Some t -> w_tables w !! t = Some ∅ -> Storage c <> "" ->
  (Earlier.CreateQemuDisksParams c params w).1 =
    Panic "interface conversion: interface {} is nil, not string".
Proof.
  intros Hc HT Hs.
  rewrite (Earlier_CreateQemuDisksParams_legacy c params w t) by done.
  unfold bind at 1, Earlier.CreateQemuDisksParams_body, bind at 1, map_index.
  cbn beta iota.
  assert (E : attr (map_of (synthesized t (deprecated_disk c) w)
                      (Some (fresh (dom (w_maps w))))) "type" = INil).
  { unfold attr, map_of, synthesized. simpl. rewrite lookup_insert_eq. reflexivity. }
  unfold bind at 1. rewrite E. reflexivity.
Qed.

Lemma Earlier_CreateQemuDisksParams_singleton (c : ConfigQemu)
    (params : option loc) (w : World) (idx : Z) (d : option loc) :
  table_of w (QemuDisks c) = {[idx := d]} ->
  Earlier.CreateQemuDisksParams c params w =
  (do _ <- Earlier.CreateQemuDisksParams_body params (idx, d); ret None)
    (next_range w).
Proof.
  intros HT.
  unfold Earlier.CreateQemuDisksParams, bind at 1, table_len.
  rewrite HT, map_size_singleton.
  cbn [Nat.eqb andb]. unfold bind at 1, ret at 1, bind at 1, range_table.
  change (table_of (w) (QemuDisks c)) with (table_of w (QemuDisks c)).
  rewrite HT, map_to_list_singleton, by_rank_singleton.
  unfold bind. rewrite forM_singleton.
  destruct (Earlier.CreateQemuDisksParams_body _ _ _) as [[[]| |] ?]; reflexivity.
Qed.

Lemma createDeviceParam_step_earlier (key : string) (value : iface) (p : QemuDeviceParam) :
  value <> IBool true ->
  (key = "storage_type" -> confValue value = INil) ->
  createDeviceParam_step disk_ignoredKeys p (key, value) =
  Earlier.createDeviceParam_step Earlier.disk_ignoredKeys p (key, value).
Proof.
  intros Hb Hst. unfold createDeviceParam_step, Earlier.createDeviceParam_step.
  assert (Hv : Earlier.confValue value = confValue value).
  { destruct value as [|[]| | |]; done. }
  rewrite Hv.
  destruct (String.eqb_spec key "storage_type") as [->|Hne].
  - rewrite Hst by done. by destruct (inArray _ _).
  - assert (inArray disk_ignoredKeys key = inArray Earlier.disk_ignoredKeys key) as ->;
      [|done].
    unfold disk_ignoredKeys, Earlier.disk_ignoredKeys. cbn [inArray].
    rewrite (eqb_ne "storage_type" key) by done. reflexivity.
Qed.

(** X19. Under the [create] action, a disk is encoded exactly as the
    earlier revision encoded it -- same outcome, same store -- as long as
    its descriptor holds no attribute set to [true] and prints no
    [storage_type]: printing [true] as [1] and consuming [storage_type]
    are what the revision added to this path. *)
Theorem create_action_matches_earlier (c : ConfigQemu) (vmID : Z) (params : option loc)
    (w : World) (t : loc) (idx : Z) (l : loc) :
  QemuDisks c = Some t ->
  w_tables w !! t = Some {[idx := Some l]} ->
  (forall key, map_of w (Some l) !! key <> Some (IBool true)) ->
  confValue (attr (map_of w (Some l)) "storage_type") = INil ->
  CreateQemuDisksParams c vmID "create" params w =
  Earlier.CreateQemuDisksParams c params w.
Proof.
  intros Hc HT Hb Hst.
  rewrite (CreateQemuDisksParams_singleton c vmID "create" params w idx (Some l))
    by (rewrite Hc; by apply table_of_Some).
  rewrite (Earlier_CreateQemuDisksParams_singleton c params w idx (Some l))
    by (rewrite Hc; by apply table_of_Some).
  assert (Htok : forall p,
    createDeviceParam p (Some l) disk_ignoredKeys (next_range w) =
    Earlier.createDeviceParam p (Some l) Earlier.disk_ignoredKeys (next_range w)).
  { intros p. rewrite createDeviceParam_run, Earlier_createDeviceParam_run.
    f_equal. f_equal. unfold device_tokens.
    rewrite <- createDeviceParam_entries_app. unfold createDeviceParam_entries.
    change (map_of (next_range w) (Some l)) with (map_of w (Some l)).
    assert (H : forall e, e ∈ by_rank (key_rank (w_ranges (next_range w)))
                                 (map_to_list (map_of w (Some l))) ->
                map_of w (Some l) !! e.1 = Some e.2).
    { intros [k x] He. rewrite by_rank_perm in He. by apply elem_of_map_to_list in He. }
    revert p. induction (by_rank _ _) as [|[k x] es IH]; intros p; [done|].
    cbn [fold_left]. rewrite createDeviceParam_step_earlier.
    - apply IH. intros e He. apply H. by right.
    - intros ->. apply (Hb k). apply (H (k, IBool true)). left.
    - intros ->. pose proof (H ("storage_type", x) ltac:(left)) as Hx.
      cbn [fst snd] in Hx. unfold attr in Hst. by rewrite Hx in Hst. }
  assert (E : CreateQemuDisksParams_body vmID "create" params (idx, Some l) (next_range w)
              = Earlier.CreateQemuDisksParams_body params (idx, Some l) (next_range w));
    [|unfold bind; by rewrite E].
  revert Htok. generalize (next_range w). intros w1 Htok.
  unfold CreateQemuDisksParams_body, Earlier.CreateQemuDisksParams_body.
  unfold bind, map_index. cbn beta iota.
  destruct (attr (map_of w1 (Some l)) "type"); try reflexivity.
  cbn beta iota delta [assert_string ret String.eqb Ascii.eqb Bool.eqb].
  destruct (attr (map_of w1 (Some l)) "size"); try reflexivity.
  cbn beta iota delta [assert_string ret].
  destruct (attr (map_of w1 (Some l)) "cache"); try reflexivity.
  cbn beta iota delta [assert_string ret].
  by rewrite Htok.
Qed.

(** ** Nil references and [inArray] *)

(** X29. With a nil VM reference, [CreateVm] and [CloneVm] panic on
    setting the type of the VM and [UpdateConfig] panics on reading its
    id: nothing is encoded and no call is made to the API. *)
Theorem nil_reference_panics (config : ConfigQemu) (sourceVmr : option loc) (w : World) :
  CreateVm config None w = (Panic nil_deref_msg, w) /\
  CloneVm config sourceVmr None w = (Panic nil_deref_msg, w) /\
  (UpdateConfig config None w).1 = Panic nil_deref_msg /\
  w_trace (UpdateConfig config None w).2 = w_trace w /\
  w_tables (UpdateConfig config None w).2 = w_tables w.
Proof.
  split; [reflexivity|]. split; [reflexivity|].
  unfold UpdateConfig, bind, make_map, deref_vmr. cbn. repeat split.
Qed.

(** X30. [inArray] is membership: it answers [true] exactly when the
    string is one of the elements of the array. *)
Theorem inArray_is_membership (arr : list string) (str : string) :
  inArray arr str = true <-> str ∈ arr.
Proof.
  induction arr as [|elem arr IH]; cbn [inArray].
  - split; [discriminate | intros H; by apply elem_of_nil in H].
  - destruct (String.eqb_spec elem str) as [->|Hne].
    + split; [intros _; left | done].
    + rewrite IH. split; [by right|].
      intros H. apply elem_of_cons in H. by destruct H as [->|H].
Qed.

End Properties.

(** * Properties of the helpers *)

Section HelperProperties.

Context {F64 : Float64} {MC : MonitorClient} {TX : Text}.

(** ** Counting what a helper did *)

Lemma commands_app (a b : list Call) : commands (a ++ b) = (commands a ++ commands b)%list.
Proof. unfold commands. by rewrite flat_map_app. Qed.

Lemma slept_app (a b : list Call) : slept (a ++ b) = slept a + slept b.
Proof.
  induction a as [|c a IH]; [reflexivity|].
  change (slept ((c :: a) ++ b)) with
    (match c with CallSleep d => d + slept (a ++ b) | _ => slept (a ++ b) end).
  change (slept (c :: a)) with
    (match c with CallSleep d => d + slept a | _ => slept a end).
  destruct c; lia.
Qed.

Lemma fetches_app (a b : list Call) : fetches (a ++ b) = (fetches a + fetches b)%nat.
Proof. unfold fetches. by rewrite List.filter_app, length_app. Qed.

(** ** WaitForShutdown *)

Lemma WaitForShutdown_loop_running (k n : nat) (vmr : VmRef) (cs : MonitorState)
    (s : Session) :
  after_running k vmr (s_client s) = Some cs ->
  exists s',
    WaitForShutdown_loop (k + n) vmr s = WaitForShutdown_loop n vmr s' /\
    s_client s' = cs /\
    fetches (s_calls s') = (fetches (s_calls s) + k)%nat /\
    slept (s_calls s') = slept (s_calls s) + 5 * time_Second * Z.of_nat k /\
    commands (s_calls s') = commands (s_calls s).
Proof.
  revert s. induction k as [|k IH]; intros s Hk.
  - injection Hk as <-. exists s. repeat split; [lia | lia].
  - cbn [after_running] in Hk. change (S k + n)%nat with (S (k + n)).
    cbn [WaitForShutdown_loop]. unfold call_GetVmState.
    destruct (client_GetVmState vmr (s_client s)) as [[vmState [e|]] cs1].
    + destruct (IH (sleep (5 * time_Second)
                      (log_Print e (log_Print "Wait error:"
                         (mkSession cs1 (s_calls s ++ [CallGetVmState vmr]))))) Hk)
        as (s' & E & Hc & Hf & Hs & Hm).
      exists s'. split; [exact E|]. split; [exact Hc|].
      cbn [s_calls sleep log_Print] in Hf, Hs, Hm.
      rewrite !fetches_app in Hf. rewrite !slept_app in Hs. rewrite !commands_app in Hm.
      cbn in Hf, Hs, Hm. rewrite !app_nil_r in Hm.
      repeat split; (lia || done).
    + destruct (status_stopped vmState); [done|].
      destruct (IH (sleep (5 * time_Second)
                      (mkSession cs1 (s_calls s ++ [CallGetVmState vmr]))) Hk)
        as (s' & E & Hc & Hf & Hs & Hm).
      exists s'. split; [exact E|]. split; [exact Hc|].
      cbn [s_calls sleep] in Hf, Hs, Hm.
      rewrite !fetches_app in Hf. rewrite !slept_app in Hs. rewrite !commands_app in Hm.
      cbn in Hf, Hs, Hm. rewrite !app_nil_r in Hm.
      repeat split; (lia || done).
Qed.


(** X21. When none of a hundred fetches shows the VM stopped,
    [WaitForShutdown] gives up with the error
    [Not shutdown within wait time], after exactly a hundred fetches and
    a hundred sleeps of five seconds (the last one after the last fetch),
    whatever errors the fetches returned. *)
Theorem WaitForShutdown_gives_up (vmr : VmRef) (cs : MonitorState) (s : Session) :
  after_running 100 vmr (s_client s) = Some cs ->
  let run := WaitForShutdown vmr s in
  run.1 = Some not_shutdown /\
  s_client run.2 = cs /\
  fetches (s_calls run.2) = (fetches (s_calls s) + 100)%nat /\
  slept (s_calls run.2) = slept (s_calls s) + 500 * time_Second /\
  commands (s_calls run.2) = commands (s_calls s).
Proof.
  intros Hrun run. unfold run, WaitForShutdown.
  destruct (WaitForShutdown_loop_running 100 0 vmr cs s Hrun)
    as (s' & E & Hc & Hf & Hs & Hm).
  change (100 + 0)%nat with 100%nat in E. rewrite E. cbn [WaitForShutdown_loop fst snd].
  repeat split; [done | done | | done]. rewrite Hs. unfold time_Second. lia.
Qed.

(** ** The helpers that need a running VM *)

(** X22. A VM that is reported stopped is never sent a monitor command:
    [SshForwardUsernet], [RemoveSshForwardUsernet] and [SendKeysString]
    each fetch the state once, send nothing and return the error
    [VM must be running first]. *)
Theorem stopped_vm_gets_no_command (vmr : VmRef) (keys : string)
    (vmState : gmap string json) (cs' : MonitorState) (s : Session) :
  client_GetVmState vmr (s_client s) = ((vmState, None), cs') ->
  status_stopped vmState = true ->
  let s1 := mkSession cs' (s_calls s ++ [CallGetVmState vmr]) in
  SshForwardUsernet vmr s = (("", Some must_be_running), s1) /\
  RemoveSshForwardUsernet vmr s = (Some must_be_running, s1) /\
  SendKeysString vmr keys s = (Some must_be_running, s1) /\
  commands (s_calls s1) = commands (s_calls s).
Proof.
  intros Hg Hst s1.
  unfold SshForwardUsernet, RemoveSshForwardUsernet, SendKeysString, call_GetVmState.
  rewrite Hg, Hst. repeat split.
  unfold s1. cbn [s_calls]. rewrite commands_app. cbn. by rewrite app_nil_r.
Qed.



(** ** SendKeysString *)



(** ** MaxVmId *)

Lemma MaxVmId_loop_max (vms : list json) (max : Z) :
  Forall (fun vmi => is_Some (vmid_of vmi)) vms ->
  exists m,
    MaxVmId_loop vms max = Done m /\
    max <= m /\
    (forall vmi id, vmi ∈ vms -> vmid_of vmi = Some id -> id <= m) /\
    (m = max \/ exists vmi, vmi ∈ vms /\ vmid_of vmi = Some m).
Proof.
  intros Hall. revert max. induction Hall as [|vmi vms [id Hid] _ IH]; intros max.
  - exists max. repeat split; [lia| |by left]. intros vmi id Hin. by apply elem_of_nil in Hin.
  - cbn [MaxVmId_loop]. unfold vmid_of in Hid.
    destruct vmi as [| | | | |vm]; try done.
    destruct (vm !! "vmid") as [[| |f| | |]|] eqn:Ev; try done.
    injection Hid as <-. cbv zeta.
    destruct (IH (if (max <? int_of_float64 f)%Z then int_of_float64 f else max))
      as (m & -> & Hle & Hall' & Hin).
    exists m. split; [done|].
    assert (Hf : vmid_of (JObj vm) = Some (int_of_float64 f)).
    { unfold vmid_of. by rewrite Ev. }
    destruct (Z.ltb_spec max (int_of_float64 f)) as [Hlt|Hge].
    + split; [lia|]. split.
      * intros vmi id Hvmi Hv. apply elem_of_cons in Hvmi. destruct Hvmi as [->|Hvmi].
        -- rewrite Hf in Hv. injection Hv as <-. lia.
        -- by apply (Hall' vmi).
      * right. destruct Hin as [->|(vmi & Hvmi & Hv)].
        -- exists (JObj vm). split; [left|done].
        -- exists vmi. split; [by right|done].
    + split; [lia|]. split.
      * intros vmi id Hvmi Hv. apply elem_of_cons in Hvmi. destruct Hvmi as [->|Hvmi].
        -- rewrite Hf in Hv. injection Hv as <-. lia.
        -- by apply (Hall' vmi).
      * destruct Hin as [->|(vmi & Hvmi & Hv)]; [by left|].
        right. exists vmi. split; [by right|done].
Qed.

(** X26. When the list of VMs is an array of objects with numeric
    [vmid]s, [MaxVmId] lists the VMs once and returns an id that is at
    least every id of the list and at least 0, and that is 0 or one of
    the ids; the error of the listing is returned beside it, unchanged
    and unchecked. *)
Theorem MaxVmId_is_the_maximum (resp : gmap string json) (err : option error)
    (vms : list json) (cs' : MonitorState) (s : Session) :
  client_GetVmList (s_client s) = ((resp, err), cs') ->
  resp !! "data" = Some (JArr vms) ->
  Forall (fun vmi => is_Some (vmid_of vmi)) vms ->
  exists max,
    MaxVmId s = (Done (max, err), mkSession cs' (s_calls s ++ [CallGetVmList])) /\
    0 <= max /\
    (forall vmi id, vmi ∈ vms -> vmid_of vmi = Some id -> id <= max) /\
    (max = 0 \/ exists vmi, vmi ∈ vms /\ vmid_of vmi = Some max).
Proof.
  intros Hg Hdata Hall.
  destruct (MaxVmId_loop_max vms 0 Hall) as (m & Hrun & Hle & Hub & Hin).
  exists m. unfold MaxVmId, call_GetVmList. rewrite Hg, Hdata, Hrun. done.
Qed.

(** X27. [MaxVmId] reads the answer before it looks at the error: when
    the answer holds no [data] array -- as when the listing failed and
    the answer is empty -- it panics instead of returning the error; and
    a VM of the list without a numeric [vmid] makes it panic too. *)
Theorem MaxVmId_panics_on_other_answers (resp : gmap string json) (err : option error)
    (cs' : MonitorState) (s : Session) :
  client_GetVmList (s_client s) = ((resp, err), cs') ->
  let s1 := mkSession cs' (s_calls s ++ [CallGetVmList]) in
  (resp !! "data" = None ->
   MaxVmId s = (Panic "interface conversion: interface {} is nil, not []interface {}", s1)) /\
  (forall vms vmi, resp !! "data" = Some (JArr vms) -> vmi ∈ vms -> vmid_of vmi = None ->
   exists msg, MaxVmId s = (Panic msg, s1)).
Proof.
  intros Hg s1. unfold MaxVmId, call_GetVmList. rewrite Hg. split.
  - intros ->. reflexivity.
  - intros vms vmi -> Hin Hnone.
    assert (H : forall max, exists msg, MaxVmId_loop vms max = Panic msg).
    { induction vms as [|v vms IH]; [by apply elem_of_nil in Hin|].
      intros max. cbn [MaxVmId_loop]. apply elem_of_cons in Hin.
      destruct v as [| | | | |vm]; try by eexists.
      destruct (vm !! "vmid") as [[| |f| | |]|] eqn:Ev; try by eexists.
      destruct Hin as [->|Hin].
      - unfold vmid_of in Hnone. by rewrite Ev in Hnone.
      - by apply IH. }
    destruct (H 0) as [msg ->]. by eexists.
Qed.

End HelperProperties.

(** * Witnesses and counterexamples *)

Import Fixtures.
#[local] Existing Instance whole_float64.
#[local] Existing Instance lcg_rand.
#[local] Existing Instance store_order.
#[local] Existing Instance plain_util.
#[local] Existing Instance locked_client.

Lemma wf_store_store_with {AC : ApiClient} (cs : ClientState) (d : QemuDevice) :
  wf_store (store_with cs d).
Proof.
  intros t T index l HT Hi. unfold store_with in *. simpl in *.
  apply lookup_insert_Some in HT. destruct HT as [[_ <-]|[_ HT]].
  - apply lookup_insert_Some in Hi. destruct Hi as [[_ [= <-]]|[_ Hi]].
    + rewrite dom_insert. set_solver.
    + by rewrite lookup_empty in Hi.
  - apply lookup_insert_Some in HT. destruct HT as [[_ <-]|[_ HT]].
    + by rewrite lookup_empty in Hi.
    + by rewrite lookup_empty in HT.
Qed.

Lemma locked_client_always_locked : always_locked (AC := locked_client).
Proof. intros v cs. split; [reflexivity | discriminate]. Qed.

(** ** C1 *)

(** The read-back of a VM that stays locked: three fetches, 24 seconds of
    sleep, and the error. *)
Lemma locked_readback_fails_witness :
  exists w',
    NewConfigQemuFromApi (Some target) (store1 ∅) = (Done (None, Some vm_locked), w') /\
    fetch_count (w_trace w') = 3%nat /\
    sleep_total (w_trace w') = 24.
Proof.
  destruct (locked_readback_fails target (mkVmRef 101 "pve" "") (store1 ∅)
              locked_client_always_locked eq_refl)
    as (w' & Hrun & _ & Hf & _ & Hs).
  exists w'. split; [exact Hrun|]. split; [exact Hf | exact Hs].
Defined.

(** The read-back sleeps after the third fetch too: three sleeps and 24
    seconds, not two sleeps and 16 seconds. *)
Lemma locked_readback_sleeps_three_times :
  let run := NewConfigQemuFromApi (Some target) (store1 ∅) in
  run.1 = Done (None, Some vm_locked) /\
  fetch_count (w_trace run.2) = 3%nat /\
  sleep_count (w_trace run.2) = 3%nat /\
  sleep_total (w_trace run.2) = 24 /\
  sleep_count (w_trace run.2) <> 2%nat /\
  sleep_total (w_trace run.2) <> 16.
Proof. vm_compute. repeat split; discriminate. Qed.

(** ** C2 *)

(** An attribute pass over a descriptor with suppressed and printed
    values. *)
Example createDeviceParam_suppression_example :
  createDeviceParam_entries ["virtio=AA"]
    [("backup", IBool false); ("discard", IStr ""); ("iothread", IBool true);
     ("mbps", IInt 0); ("size", IStr "20G"); ("iops", IInt 200); ("queues", IInt (-1))]
    disk_ignoredKeys
  = ["virtio=AA"; "iothread=1"; "iops=200"].
Proof. reflexivity. Qed.

(** ** C3 *)

(** The update scenario, with the cache attribute that the encoder
    requires: the [format] attribute is printed too. *)
Lemma update_disk_encoding_witness :
  exists w',
    CreateQemuDisksParams (vm1 (Some devices) (Some no_devices) "" "") 101 "update"
      (Some params) (store1 disk_update_cache) = (Done None, w') /\
    map_of w' (Some params) !! "virtio0" =
      Some (IStr "size=20G,file=local:101/vm-101-disk-1.qcow2,format=qcow2").
Proof.
  destruct (update_disk_encoding (vm1 (Some devices) (Some no_devices) "" "") 101
              params (store1 disk_update_cache) devices 0 device
              "virtio" "dir" "none")
    as (w' & Hrun & Hval); try reflexivity.
  exists w'. split; [exact Hrun|].
  etrans; [exact Hval|]. vm_compute. reflexivity.
Defined.

(** The update scenario as the specification gives it: the descriptor has
    no [cache] attribute, the encoder panics and encodes nothing; with a
    [cache] attribute the value ends with the [format] attribute and is
    not the one of the specification either. *)
Lemma update_disk_scenario_differs :
  let run := CreateQemuDisksParams (vm1 (Some devices) (Some no_devices) "" "") 101 "update"
               (Some params) (store1 disk_update) in
  let run' := CreateQemuDisksParams (vm1 (Some devices) (Some no_devices) "" "") 101 "update"
                (Some params) (store1 disk_update_cache) in
  run.1 = Panic "interface conversion: interface {} is nil, not string" /\
  map_of run.2 (Some params) !! "virtio0" = None /\
  map_of run.2 (Some params) !! "virtio0"
    <> Some (IStr "size=20G,file=local:101/vm-101-disk-1.qcow2") /\
  map_of run'.2 (Some params) !! "virtio0"
    = Some (IStr "size=20G,file=local:101/vm-101-disk-1.qcow2,format=qcow2") /\
  map_of run'.2 (Some params) !! "virtio0"
    <> Some (IStr "size=20G,file=local:101/vm-101-disk-1.qcow2").
Proof. vm_compute. repeat split; discriminate. Qed.

(** ** C4 *)

(** Two encodings of NIC 0 of VM 101, in two stores: the same address,
    written back. *)
Lemma generated_mac_deterministic_witness :
  is_upper_mac (generated_mac 101 0) = true /\
  attr (map_of (CreateQemuNetworksParams_body 101 (Some params) (0, Some device)
                  (store1 nic_no_mac)).2 (Some device)) "macaddr"
    = IStr (generated_mac 101 0) /\
  attr (map_of (CreateQemuNetworksParams_body 101 None (0, Some device)
                  (next_range (store1 nic_no_mac))).2 (Some device)) "macaddr"
    = IStr (generated_mac 101 0).
Proof.
  destruct (generated_mac_deterministic 101 0 (Some params) None device device
              (store1 nic_no_mac) (next_range (store1 nic_no_mac)) eq_refl eq_refl)
    as (Hf & H1 & H2 & _).
  split; [exact Hf|]. split; [exact H1 | exact H2].
Defined.

(** The whole encoder on the table that holds this NIC. *)
Example generated_mac_example :
  let run := CreateQemuNetworksParams (vm1 (Some no_devices) (Some devices) "" "") 101
               (Some params) (store1 nic_no_mac) in
  run.1 = Done None /\
  map_of run.2 (Some params) !! "net0"
    = Some (IStr "macaddr=3D:03:9F:F5:4C:0D,bridge=vmbr0,model=virtio") /\
  map_of run.2 (Some device) !! "macaddr" = Some (IStr "3D:03:9F:F5:4C:0D").
Proof. vm_compute. repeat split; reflexivity. Qed.

(** ** C5 *)

(** Spellings other than [true] and [false] are decoded as booleans. *)
Lemma coerce_accepts_other_booleans :
  coerce "t" = IBool true /\ coerce "TRUE" = IBool true /\ coerce "F" = IBool false /\
  ~ (forall value b, coerce value = IBool b -> value = "true" \/ value = "false").
Proof.
  split; [reflexivity|]. split; [reflexivity|]. split; [reflexivity|].
  intros H. destruct (H "t" true eq_refl) as [E|E]; discriminate E.
Qed.

(** ** C6 and C10 *)

Lemma nil_table_legacy_panics_witness :
  (CreateQemuDisksParams (vm1 None None "local" "virtio") 101 "create" (Some params)
     (store1 ∅)).1 = Panic nil_map_msg /\
  (CreateQemuNetworksParams (vm1 None None "local" "virtio") 101 (Some params)
     (store1 ∅)).1 = Panic nil_map_msg.
Proof.
  destruct (nil_table_legacy_panics (vm1 None None "local" "virtio") 101 "create"
              (Some params) (store1 ∅)) as [Hd Hn].
  destruct (Hd eq_refl ltac:(discriminate)) as (w1 & E1 & _).
  destruct (Hn eq_refl ltac:(discriminate)) as (w2 & E2 & _).
  split; [by rewrite E1 | by rewrite E2].
Defined.

(** An empty table gets the one synthesized descriptor at index 0; a
    table with an entry is encoded alike with and without the deprecated
    NIC model. *)
Lemma legacy_synthesis_exclusive_witness :
  w_tables (CreateQemuDisksParams (vm1 (Some no_devices) (Some devices) "local" "virtio")
              101 "create" (Some params) (store1 ∅)).2
    = <[no_devices := {[0 := Some (fresh (dom (w_maps (store1 ∅))))]}]>
        (w_tables (store1 ∅)) /\
  CreateQemuNetworksParams (vm1 (Some devices) (Some devices) "local" "") 101
    (Some params) (store1 nic_no_mac)
    = CreateQemuNetworksParams (vm1 (Some devices) (Some devices) "local" "virtio") 101
        (Some params) (store1 nic_no_mac).
Proof.
  destruct (legacy_synthesis_exclusive
              (vm1 (Some no_devices) (Some devices) "local" "virtio") 101 "create"
              (Some params) (store1 ∅)) as (_ & _ & Hd & _).
  destruct (Hd no_devices eq_refl eq_refl ltac:(discriminate)) as (_ & _ & _ & _ & HT).
  split; [exact HT|].
  destruct (legacy_synthesis_exclusive
              (vm1 (Some devices) (Some devices) "local" "virtio") 101 "create"
              (Some params) (store1 nic_no_mac)) as (_ & Hn & _).
  destruct Hn as [Hsame _]; [vm_compute; discriminate|].
  exact (Hsame (vm1 (Some devices) (Some devices) "local" "") eq_refl).
Defined.

(** ** C7 *)

Lemma readDeviceConfig_malformed_segment_witness :
  exists w',
    readDeviceConfig (Some device) ["bridge=vmbr0"; "ro"; "tag=5"] (store1 ∅)
      = (Panic index_1_of_1, w') /\
    map_of w' (Some device) !! "bridge" = Some (IStr "vmbr0") /\
    map_of w' (Some device) !! "tag" = None.
Proof.
  destruct (readDeviceConfig_malformed_segment device ["bridge=vmbr0"] "ro" ["tag=5"]
              (store1 ∅)) as (w' & _ & Hm & Hrun).
  - repeat constructor.
  - reflexivity.
  - exists w'. split; [exact Hrun|]. rewrite Hm. split; reflexivity.
Defined.

(** A segment without [=] is not skipped: decoding panics and the
    well-formed segment after it is not decoded. *)
Lemma readDeviceConfig_does_not_skip :
  let run := readDeviceConfig (Some device) ["ro"; "bridge=vmbr0"] (store1 ∅) in
  run.1 = Panic index_1_of_1 /\
  map_of run.2 (Some device) !! "bridge" = None.
Proof. vm_compute. split; reflexivity. Qed.

(** ** C8 *)

(** The create scenario, with the cache attribute that the encoder
    requires. *)
Lemma create_disk_encoding_witness :
  exists w',
    CreateQemuDisksParams (vm1 (Some devices) (Some no_devices) "" "") 101 "create"
      (Some params) (store1 disk_create_cache) = (Done None, w') /\
    map_of w' (Some params) !! "virtio0" = Some (IStr "local:20").
Proof.
  destruct (create_disk_encoding (vm1 (Some devices) (Some no_devices) "" "") 101
              params (store1 disk_create_cache) devices 0 device
              "virtio" "20G" "none")
    as (w' & Hrun & Hval); try reflexivity.
  exists w'. split; [exact Hrun|].
  etrans; [exact Hval|]. vm_compute. reflexivity.
Defined.

(** The create scenario as the specification gives it: the descriptor has
    no [cache] attribute, the encoder panics and encodes nothing. *)
Lemma create_disk_without_cache_panics :
  let run := CreateQemuDisksParams (vm1 (Some devices) (Some no_devices) "" "") 101 "create"
               (Some params) (store1 disk_create) in
  run.1 = Panic "interface conversion: interface {} is nil, not string" /\
  map_of run.2 (Some params) !! "virtio0" = None /\
  map_of run.2 (Some params) !! "virtio0" <> Some (IStr "local:20").
Proof. vm_compute. repeat split; discriminate. Qed.

(** The create scenario through [CreateVm]: the panic comes before the
    create call, nothing is sent. *)
Example create_vm_scenario_panics :
  let run := CreateVm (vm1 (Some devices) (Some no_devices) "" "") (Some target)
               (store1 disk_create) in
  run.1 = Panic "interface conversion: interface {} is nil, not string" /\
  w_trace run.2 = [].
Proof. vm_compute. split; reflexivity. Qed.

(** With the cache attribute the create call carries the disk. *)
Example create_vm_scenario :
  let run := CreateVm (vm1 (Some devices) (Some no_devices) "" "") (Some target)
               (store1 disk_create_cache) in
  run.1 = Done None /\
  exists P, w_trace run.2 = [EvCreateQemuVm "pve" P] /\
            P !! "virtio0" = Some (IStr "local:20") /\
            P !! "vmid" = Some (IInt 101) /\
            P !! "ide2" = Some (IStr ",media=cdrom").
Proof.
  intros run. split; [vm_compute; reflexivity|].
  exists (map_of run.2 (Some 3%positive)). split; [vm_compute; reflexivity|].
  repeat split; vm_compute; reflexivity.
Qed.

(** ** C9 *)

(** A refused clone: the error is the result, and the trace holds the
    clone call only. *)
Lemma clone_then_update_witness :
  let run := CloneVm (AC := refusing_client) (vm1 (Some devices) (Some no_devices) "" "")
               (Some template) (Some target) (store1_refusing disk_update_cache) in
  run.1 = Done (Some "clone refused") /\
  length (w_trace run.2) = 1%nat /\
  forallb (fun e => negb (is_set_config e)) (w_trace run.2) = true.
Proof.
  intros run.
  destruct (clone_then_update (AC := refusing_client)
              (vm1 (Some devices) (Some no_devices) "" "") template target
              (mkVmRef 9000 "pve" "qemu") (mkVmRef 101 "pve" "")
              (store1_refusing disk_update_cache)
              (wf_store_store_with (AC := refusing_client) tt disk_update_cache)
              eq_refl eq_refl)
    as (_ & _ & _ & _ & _ & _ & Hrun).
  assert (E : run = (Done (Some "clone refused"),
                     clone_called (AC := refusing_client)
                       (vm1 (Some devices) (Some no_devices) "" "") template target
                       (mkVmRef 9000 "pve" "qemu") (mkVmRef 101 "pve" "")
                       (store1_refusing disk_update_cache))) by exact Hrun.
  rewrite E. split; [reflexivity|]. split; vm_compute; reflexivity.
Defined.

(** An accepted clone: the set-config call follows, with the scalar
    fields and the disk encoded under the [update] action. *)
Example clone_then_update_example :
  let run := CloneVm (vm1 (Some devices) (Some no_devices) "" "")
               (Some template) (Some target) (store1 disk_update_cache) in
  run.1 = Done None /\
  exists P Q,
    w_trace run.2 = [EvCloneQemuVm (mkVmRef 9000 "pve" "qemu") P;
                     EvSetVmConfig (mkVmRef 101 "pve" "qemu") Q] /\
    P !! "newid" = Some (IInt 101) /\ P !! "full" = Some (IStr "1") /\
    Q !! "memory" = Some (IInt 2048) /\
    Q !! "virtio0" = Some (IStr "size=20G,file=local:101/vm-101-disk-1.qcow2,format=qcow2").
Proof.
  intros run. split; [vm_compute; reflexivity|].
  exists (CloneVm_params (vm1 (Some devices) (Some no_devices) "" "")
            (mkVmRef 101 "pve" "qemu")),
         (map_of run.2 (Some 4%positive)).
  split; [vm_compute; reflexivity|].
  repeat split; vm_compute; reflexivity.
Qed.

(** ** The rest of the code *)

Import Scenes.

(** Nothing to encode: a nil disk table, an empty network table, no
    deprecated field and a nil parameter map. *)
Lemma nothing_to_encode_witness :
  CreateQemuDisksParams (vm1 None (Some no_devices) "" "") 101 "create" None (store1 ∅)
    = (Done None, next_range (store1 ∅)) /\
  CreateQemuNetworksParams (vm1 None (Some no_devices) "" "") 101 None (store1 ∅)
    = (Done None, next_range (store1 ∅)).
Proof.
  exact (nothing_to_encode (vm1 None (Some no_devices) "" "") 101 "create" None
           (store1 ∅) eq_refl eq_refl eq_refl eq_refl).
Defined.

(** The action [delete] is accepted: the disk is written without a
    positional token. *)
Lemma other_action_disk_encoding_witness :
  exists w',
    CreateQemuDisksParams (vm1 (Some devices) (Some no_devices) "" "") 101 "delete"
      (Some params) (store1 disk_update_cache) = (Done None, w') /\
    map_of w' (Some params) !! "virtio0" = Some (IStr "format=qcow2").
Proof.
  destruct (other_action_disk_encoding (vm1 (Some devices) (Some no_devices) "" "") 101
              "delete" params (store1 disk_update_cache) devices 0 device
              "virtio" "none")
    as (w' & Hrun & Hval); try reflexivity; try discriminate.
  exists w'. split; [exact Hrun|].
  etrans; [exact Hval|]. vm_compute. reflexivity.
Defined.

(** An address in lower case is sent as it is. *)
Lemma explicit_mac_is_kept_witness :
  exists w',
    CreateQemuNetworksParams (vm1 (Some no_devices) (Some devices) "" "") 101
      (Some params) (store1 nic_with_mac) = (Done None, w') /\
    map_of w' (Some params) !! "net0" =
      Some (IStr "macaddr=aa:bb:cc:dd:ee:ff,bridge=vmbr0,model=virtio") /\
    w_rand w' = w_rand (store1 nic_with_mac) /\
    map_of w' (Some device) = nic_with_mac.
Proof.
  destruct (explicit_mac_is_kept (vm1 (Some no_devices) (Some devices) "" "") 101
              params (store1 nic_with_mac) devices 0 device
              "aa:bb:cc:dd:ee:ff" "vmbr0")
    as (w' & Hrun & Hval & Hrand & Hdev); try reflexivity; try discriminate.
  exists w'. split; [exact Hrun|]. split.
  - etrans; [exact Hval|]. vm_compute. reflexivity.
  - split; [exact Hrand|]. etrans; [apply Hdev; discriminate|]. reflexivity.
Defined.

(** The generator after an address was generated for VM 101, NIC 0: six
    bytes after the seed 101, even though the encoding then panics on the
    nil parameter map. *)
Lemma generated_mac_reseeds_witness :
  let run := CreateQemuNetworksParams_body 101 None (0, Some device) (store1 nic_no_mac) in
  run.1 = Panic nil_map_msg /\
  w_rand run.2 = (draw 6 (rng_seed 101)).2.
Proof.
  intros run. split; [vm_compute; reflexivity|].
  exact (generated_mac_reseeds 101 None 0 device (store1 nic_no_mac) eq_refl).
Defined.

(** A value that holds an [=] loses what follows it. *)
Lemma segment_is_cut_at_equal_signs_witness :
  readDeviceConfig_step (Some device) "hostfwd=tcp" (store1 ∅) =
    (Done tt, assigned device "hostfwd" (IStr "tcp") (store1 ∅)) /\
  readDeviceConfig_step (Some device) "hostfwd=tcp=22" (store1 ∅) =
    (Done tt, assigned device "hostfwd" (IStr "tcp") (store1 ∅)).
Proof.
  exact (segment_is_cut_at_equal_signs device "hostfwd" "tcp" "22" (store1 ∅)
           eq_refl eq_refl).
Defined.

(** [iops=200] comes back as the integer 200, [iothread=1] (written for
    [true]) as the integer 1, [format=qcow2] as the string. *)
Lemma attribute_round_trip_witness :
  (createDeviceParam_step disk_ignoredKeys [] ("iops", IInt 200) = ["iops=200"] /\
   readDeviceConfig_step (Some device) "iops=200" (store1 ∅) =
     (Done tt, assigned device "iops" (IInt 200) (store1 ∅))) /\
  (createDeviceParam_step disk_ignoredKeys [] ("iothread", IBool true) = ["iothread=1"] /\
   readDeviceConfig_step (Some device) "iothread=1" (store1 ∅) =
     (Done tt, assigned device "iothread" (IInt 1) (store1 ∅))) /\
  (createDeviceParam_step disk_ignoredKeys [] ("format", IStr "qcow2") = ["format=qcow2"] /\
   readDeviceConfig_step (Some device) "format=qcow2" (store1 ∅) =
     (Done tt, assigned device "format" (IStr "qcow2") (store1 ∅))).
Proof.
  destruct (attribute_round_trip disk_ignoredKeys "iops" device (store1 ∅)
              eq_refl eq_refl) as (Hint & _ & _).
  destruct (attribute_round_trip disk_ignoredKeys "iothread" device (store1 ∅)
              eq_refl eq_refl) as (_ & Hbool & _).
  destruct (attribute_round_trip disk_ignoredKeys "format" device (store1 ∅)
              eq_refl eq_refl) as (_ & _ & Hstr).
  destruct (Hint 200 ltac:(unfold max_int64; lia)) as (t1 & E1 & R1).
  destruct Hbool as (t2 & E2 & R2).
  destruct (Hstr "qcow2" ltac:(discriminate) eq_refl eq_refl eq_refl) as (t3 & E3 & R3).
  injection E1 as <-. injection E2 as <-. injection E3 as <-.
  split; [split; [reflexivity | exact R1]|].
  split; [split; [reflexivity | exact R2]|].
  split; [reflexivity | exact R3].
Defined.

(** A VM that is locked during two fetches: the third fetch is decoded,
    after 16 seconds of sleep. *)
Lemma unlocked_readback_decodes_witness :
  let w := store_with (AC := settling_client) O ∅ in
  exists w1,
    NewConfigQemuFromApi (AC := settling_client) (Some target) w =
      (do config <- config_of_vmConfig (AC := settling_client) plain_config;
       ret (Some config, None)) w1 /\
    fetch_count (w_trace w1) = 3%nat /\
    sleep_total (w_trace w1) = 16.
Proof.
  intros w.
  destruct (unlocked_readback_decodes (AC := settling_client) 2 target
              (mkVmRef 101 "pve" "") plain_config 2%nat 3%nat w
              ltac:(lia) eq_refl eq_refl eq_refl eq_refl)
    as (Hrun & _ & Hf & Hs).
  eexists. split; [exact Hrun|]. split; [exact Hf | exact Hs].
Defined.

(** A fetch that fails after one locked answer: the process ends after
    two fetches and one sleep. *)
Lemma failed_fetch_ends_the_process_witness :
  exists w1,
    NewConfigQemuFromApi (AC := failing_client) (Some target)
      (store_with (AC := failing_client) O ∅) = (Exit 1, w1) /\
    w_trace w1 = [EvGetVmConfig (mkVmRef 101 "pve" ""); EvSleep 8;
                  EvGetVmConfig (mkVmRef 101 "pve" "")].
Proof.
  destruct (failed_fetch_ends_the_process (AC := failing_client) 1 target
              (mkVmRef 101 "pve" "") ∅ "connection refused" 1%nat 2%nat
              (store_with (AC := failing_client) O ∅)
              ltac:(lia) eq_refl eq_refl eq_refl)
    as (w1 & Hrun & Ht).
  exists w1. split; [exact Hrun | exact Ht].
Defined.

(** A configuration without [onboot]. *)
Lemma missing_field_panics_witness :
  exists msg, config_of_vmConfig (delete "onboot" plain_config) (store1 ∅)
              = (Panic msg, store1 ∅).
Proof.
  apply (missing_field_panics (delete "onboot" plain_config) (store1 ∅)).
  right. left. reflexivity.
Defined.

Lemma no_device_plain_config (lit : string) :
  lit = "virtio" \/ lit = "net" -> no_device lit plain_config.
Proof.
  intros Hlit k v Hk. apply elem_of_map_to_list in Hk.
  assert (E : map_to_list plain_config ≡ₚ
    [("name", IStr "vm1"); ("onboot", IFloat 1); ("ostype", IStr "l26");
     ("memory", IFloat 2048); ("cores", IFloat 2); ("sockets", IFloat 1);
     ("description", IStr " base image ");
     ("ide2", IStr "local:iso/debian.iso,media=cdrom"); ("cpu", IStr "host")]).
  { apply map_to_list_to_map. apply (bool_decide_unpack _). by vm_compute. }
  rewrite E in Hk. set_unfold in Hk.
  destruct Hlit as [-> | ->];
    repeat (destruct Hk as [[= -> _]|Hk]; [reflexivity|]); done.
Qed.

(** The configuration of a VM without devices, read back. *)
Lemma plain_config_decoding_witness :
  exists config w',
    config_of_vmConfig plain_config (store1 ∅) = (Done config, w') /\
    Name config = "vm1" /\ Description config = "base image" /\
    Onboot config = true /\ Memory config = 2048 /\
    QemuIso config = "local:iso/debian.iso" /\ FullClone config = Some 1 /\
    QemuVlanTag config = -1 /\
    table_of w' (QemuDisks config) = ∅ /\ table_of w' (QemuNetworks config) = ∅.
Proof.
  destruct (plain_config_decoding plain_config (store1 ∅) 1 " base image " "vm1" "l26"
              "local:iso/debian.iso" 1 2048 2 1)
    as (Hrun & _);
    try reflexivity; try (left; split; reflexivity); try (right; reflexivity);
    try (right; repeat split; reflexivity);
    try (apply no_device_plain_config; auto).
  eexists _, _. split; [exact Hrun|].
  repeat split; reflexivity.
Defined.

(** The disk and the network interface of a VM as Proxmox reports them. *)
Lemma disk_entry_decoding_witness :
  exists w',
    decode_disk device_config (Some no_devices) "virtio0" (store1 ∅) = (Done tt, w') /\
    table_of w' (Some no_devices) = {[0 := Some 3%positive]} /\
    map_of w' (Some 3%positive) =
      list_to_map [("type", IStr "virtio"); ("storage", IStr "local");
                   ("file", IStr "vm-101-disk-1"); ("size", IStr "4G")].
Proof.
  destruct (disk_entry_decoding device_config no_devices 0
              "local:vm-101-disk-1,size=4G" "local:vm-101-disk-1" "local" "vm-101-disk-1"
              ["size=4G"] [] (store1 ∅))
    as (w' & Hrun & Ht & Hm);
    try reflexivity; try (unfold max_int64; lia); try (repeat constructor).
  exists w'. split; [exact Hrun|]. split.
  - etrans; [exact Ht|]. vm_compute. reflexivity.
  - etrans; [exact Hm|]. vm_compute. reflexivity.
Defined.

Lemma nic_entry_decoding_witness :
  exists w',
    decode_nic device_config (Some no_devices) "net0" (store1 ∅) = (Done tt, w') /\
    table_of w' (Some no_devices) = {[0 := Some 3%positive]} /\
    map_of w' (Some 3%positive) =
      list_to_map [("model", IStr "virtio"); ("macaddr", IStr "62:DF:51:0C:1A:5B");
                   ("bridge", IStr "vmbr0"); ("tag", IInt 5)].
Proof.
  destruct (nic_entry_decoding device_config no_devices 0
              "virtio=62:DF:51:0C:1A:5B,bridge=vmbr0,tag=5" "virtio=62:DF:51:0C:1A:5B"
              "virtio" "62:DF:51:0C:1A:5B" ["bridge=vmbr0"; "tag=5"] [] (store1 ∅))
    as (w' & Hrun & Ht & Hm);
    try reflexivity; try (unfold max_int64; lia); try (repeat constructor).
  exists w'. split; [exact Hrun|]. split.
  - etrans; [exact Ht|]. vm_compute. reflexivity.
  - etrans; [exact Hm|]. vm_compute. reflexivity.
Defined.

(** A disk entry [local,size=4G] and a network entry
    [virtio,bridge=vmbr0]. *)
Lemma device_entry_without_separator_panics_witness :
  decode_disk bare_config (Some no_devices) "virtio1" (store1 ∅)
    = (Panic index_1_of_1, store1 ∅) /\
  decode_nic bare_config (Some no_devices) "net1" (store1 ∅)
    = (Panic index_1_of_1, store1 ∅).
Proof.
  destruct (device_entry_without_separator_panics bare_config (Some no_devices) 1
              "local,size=4G" (store1 ∅) ltac:(lia)) as [Hd _].
  destruct (device_entry_without_separator_panics bare_config (Some no_devices) 1
              "virtio,bridge=vmbr0" (store1 ∅) ltac:(lia)) as [_ Hn].
  split; [exact (Hd eq_refl eq_refl) | exact (Hn eq_refl eq_refl)].
Defined.

(** The create scenario: one call, or none. *)
Lemma CreateVm_sends_once_witness :
  let run := CreateVm (vm1 (Some devices) (Some no_devices) "" "") (Some target)
               (store1 disk_create_cache) in
  w_vmrefs run.2 !! target = Some (mkVmRef 101 "pve" "qemu") /\
  (length (w_trace run.2) <= 1)%nat.
Proof.
  intros run.
  destruct (CreateVm_sends_once (vm1 (Some devices) (Some no_devices) "" "") target
              (mkVmRef 101 "pve" "") (store1 disk_create_cache)
              (wf_store_store_with (AC := locked_client) tt disk_create_cache) eq_refl)
    as [Hv [(P & _ & Ht & _)|[_ Ht]]].
  - split; [exact Hv|]. fold run in Ht. rewrite Ht. simpl. lia.
  - split; [exact Hv|]. fold run in Ht. rewrite Ht. simpl. lia.
Defined.

(** The deprecated NIC model [virtio] on the bridge [vmbr0], in the
    earlier revision. *)
Lemma earlier_legacy_nic_encoding_witness :
  exists w',
    Earlier.CreateQemuNetworksParams (vm1 (Some no_devices) (Some no_devices) "" "virtio")
      (Some params) (store1 ∅) = (Done None, w') /\
    map_of w' (Some params) !! "net0" = Some (IStr "virtio,bridge=vmbr0").
Proof.
  destruct (earlier_legacy_nic_encoding
              (vm1 (Some no_devices) (Some no_devices) "" "virtio") params no_devices
              (store1 ∅) eq_refl eq_refl ltac:(discriminate))
    as (w' & Hrun & Hval).
  exists w'. split; [exact Hrun|]. etrans; [exact Hval|]. vm_compute. reflexivity.
Defined.

Lemma earlier_legacy_disk_panics_witness :
  (Earlier.CreateQemuDisksParams (vm1 (Some no_devices) (Some no_devices) "local" "")
     (Some params) (store1 ∅)).1 =
    Panic "interface conversion: interface {} is nil, not string".
Proof.
  exact (earlier_legacy_disk_panics
           (vm1 (Some no_devices) (Some no_devices) "local" "") (Some params)
           (store1 ∅) no_devices eq_refl eq_refl ltac:(discriminate)).
Defined.

Lemma legacy_descriptor_panics_witness :
  (CreateQemuDisksParams (vm1 (Some no_devices) (Some no_devices) "local" "virtio")
     101 "create" (Some params) (store1 ∅)).1 =
    Panic "interface conversion: interface {} is nil, not string" /\
  (CreateQemuNetworksParams (vm1 (Some no_devices) (Some no_devices) "local" "virtio")
     101 (Some params) (store1 ∅)).1 =
    Panic "interface conversion: interface {} is nil, not string".
Proof.
  destruct (legacy_descriptor_panics
              (vm1 (Some no_devices) (Some no_devices) "local" "virtio") 101 "create"
              (Some params) (store1 ∅) no_devices eq_refl) as [Hd Hn].
  split; [exact (Hd eq_refl ltac:(discriminate)) | exact (Hn eq_refl ltac:(discriminate))].
Defined.

(** The create scenario is encoded as the earlier revision encoded it. *)
Lemma create_action_matches_earlier_witness :
  CreateQemuDisksParams (vm1 (Some devices) (Some no_devices) "" "") 101 "create"
    (Some params) (store1 disk_create_cache) =
  Earlier.CreateQemuDisksParams (vm1 (Some devices) (Some no_devices) "" "")
    (Some params) (store1 disk_create_cache).
Proof.
  apply (create_action_matches_earlier (vm1 (Some devices) (Some no_devices) "" "") 101
           (Some params) (store1 disk_create_cache) devices 0 device);
    try reflexivity.
  intros key Hk.
  assert (Hk' : (<["cache" := IStr "none"]>
                   (list_to_map [("type", IStr "virtio"); ("storage", IStr "local");
                                 ("size", IStr "20G")] : gmap string iface)
                 : gmap string iface) !! key = Some (IBool true)) by exact Hk.
  apply lookup_insert_Some in Hk'. destruct Hk' as [[_ Hk']|[_ Hk']]; [discriminate|].
  apply elem_of_list_to_map_2 in Hk'. set_unfold in Hk'.
  destruct Hk' as [Hk'|[Hk'|[Hk'|[]]]]; discriminate.
Defined.

(** ** The helpers *)

#[local] Existing Instance ascii_text.


(** A VM that keeps running: the helper gives up after a hundred fetches
    and 500 seconds. *)
Lemma WaitForShutdown_gives_up_witness :
  let run := WaitForShutdown (MC := running_monitor) vm101 running_session in
  run.1 = Some not_shutdown /\ fetches (s_calls run.2) = 100%nat /\
  slept (s_calls run.2) = 500 * time_Second.
Proof.
  intros run.
  destruct (WaitForShutdown_gives_up (MC := running_monitor) vm101 tt running_session
              eq_refl)
    as (Hr & _ & Hf & Hs & _).
  split; [exact Hr|]. split; [exact Hf | exact Hs].
Defined.

Lemma stopped_vm_gets_no_command_witness :
  let s := stopping_session 2 in
  let s1 := mkSession (MC := stopping_monitor) 3%nat [CallGetVmState vm101] in
  SshForwardUsernet vm101 s = (("", Some must_be_running), s1) /\
  RemoveSshForwardUsernet vm101 s = (Some must_be_running, s1) /\
  SendKeysString vm101 "ls" s = (Some must_be_running, s1).
Proof.
  intros s s1.
  destruct (stopped_vm_gets_no_command (MC := stopping_monitor) vm101 "ls"
              stopped_state 3%nat s eq_refl eq_refl)
    as (H1 & H2 & H3 & _).
  split; [exact H1|]. split; [exact H2 | exact H3].
Defined.




(** The ids 100, 105 and 102: the result is at least 105. *)
Lemma MaxVmId_is_the_maximum_witness :
  exists max,
    MaxVmId (stopping_session O) =
      (Done (max, None), mkSession (MC := stopping_monitor) O [CallGetVmList]) /\
    105 <= max.
Proof.
  destruct (MaxVmId_is_the_maximum (MC := stopping_monitor) vm_list None
              three_vms O (stopping_session O) eq_refl eq_refl)
    as (m & Hrun & _ & Hub & _).
  - repeat constructor; by eexists.
  - exists m. split; [exact Hrun|].
    apply (Hub vm_105); [|reflexivity].
    right. left.
Defined.

(** A listing that fails with an empty answer: a panic, not the error. *)
Lemma MaxVmId_panics_on_other_answers_witness :
  MaxVmId (MC := running_monitor) running_session =
    (Panic "interface conversion: interface {} is nil, not []interface {}",
     mkSession (MC := running_monitor) tt [CallGetVmList]).
Proof.
  destruct (MaxVmId_panics_on_other_answers (MC := running_monitor) ∅ (Some "timeout") tt
              running_session eq_refl) as [H _].
  exact (H eq_refl).
Defined.
